(** * Airline routes: a shallow embedding of [Program/airlineRoutes.py]

    The program reads three tables ([routes.csv], [airports.csv],
    [airlines.csv]), searches the route graph from both ends with two
    [anytree] trees, keeps the candidate of least great-circle length and
    labels every flight with a randomly drawn airline.

    Conventions of the embedding:
    - a table is the list of its rows, already split into the columns the
      program reads;
    - a Python [set] of strings is a duplicate-free list, iterated in order
      of first occurrence;
    - an [anytree] tree is a rose tree; a node object is identified by the
      tree it lives in and the child indices on its root path;
    - Python floats are idealised as real numbers where a formula is read
      or computed sums are only ordered; a sum of doubles depends on the
      order of its additions, so where the exact sum or an exact tie
      matters, [Doubles] has the same functions on IEEE 754 binary64
      numbers;
    - a call either returns, leaves through [sys.exit], dies on an uncaught
      exception, or is still running when the recursion budget of the
      model is used up; the recursion limit of the interpreter is not part
      of the model, a recursion without end stays unfinished at every
      budget. *)

From Stdlib Require Import Floats.
From Stdlib Require Import List String Ascii ZArith Arith Bool Lia Reals Lra.
Import ListNotations.

Set Warnings "-register-all".

Local Open Scope string_scope.
Local Open Scope list_scope.

(** ** Outcomes of a call *)

Inductive PyExn : Type :=
| TypeError
| IndexError
| AttributeError
| ValueError.

Inductive Outcome (A : Type) : Type :=
| Returned (a : A)
| Exited (code : Z)
| Raised (e : PyExn)
| Unfinished.

Arguments Returned {A} a.
Arguments Exited {A} code.
Arguments Raised {A} e.
Arguments Unfinished {A}.

Definition bind {A B : Type} (m : Outcome A) (k : A -> Outcome B) : Outcome B :=
  match m with
  | Returned a => k a
  | Exited c => Exited c
  | Raised e => Raised e
  | Unfinished => Unfinished
  end.

Notation "x <- m ;; k" := (bind m (fun x => k))
  (at level 61, m at next level, right associativity).

(** ** Rows of the tables *)

(** [routes.csv]: columns 1 (airline id), 2 (source code), 4 (destination
    code) and 7 (stops). *)
Record Route : Type := mkRoute {
  route_airline : Z;
  route_source : string;
  route_dest : string;
  route_stops : Z
}.

(** [airlines.csv]: columns 0 (id), 3 (IATA), 4 (ICAO) and 7 (active). *)
Record Airline : Type := mkAirline {
  airline_id : Z;
  airline_iata : string;
  airline_icao : string;
  airline_active : string
}.

(** [airports.csv]: columns 4 (code), 6 (latitude) and 7 (longitude). *)
Record Airport : Type := mkAirport {
  airport_code : string;
  airport_latitude : R;
  airport_longitude : R
}.

(** The null marker of the tables, the two characters backslash and N. *)
Definition null_code : string := String (ascii_of_nat 92) "N".

(** ** [anytree] trees *)

Inductive Node : Type :=
| mkNode (name : string) (children : list Node).

Definition name (n : Node) : string :=
  match n with mkNode nm _ => nm end.

Definition children (n : Node) : list Node :=
  match n with mkNode _ cs => cs end.

Definition is_leaf (n : Node) : bool :=
  match children n with [] => true | _ :: _ => false end.

(** [Node(name)] and [Node(name, parent=...)] create a childless node. *)
Definition leaf (nm : string) : Node := mkNode nm [].

(** [node.height]: edges on the longest path down to a leaf. *)
Fixpoint height (n : Node) : nat :=
  match n with
  | mkNode _ cs =>
      match cs with
      | [] => 0
      | _ :: _ => S (list_max (map height cs))
      end
  end.

(** The two trees of a search. *)
Inductive Side : Type := StartTree | StopTree.

Definition side_eqb (a b : Side) : bool :=
  match a, b with
  | StartTree, StartTree => true
  | StopTree, StopTree => true
  | _, _ => false
  end.

(** One node of a root path: its index among its siblings and its name. *)
Definition Step : Type := (nat * string)%type.

Definition step_eqb (a b : Step) : bool :=
  (fst a =? fst b)%nat && (snd a =? snd b)%string.

Fixpoint steps_eqb (p q : list Step) : bool :=
  match p, q with
  | [], [] => true
  | a :: p', b :: q' => step_eqb a b && steps_eqb p' q'
  | _, _ => false
  end.

(** A reference to a node object: [node.path] is [ref_path], the nodes
    from the root down to the node itself. *)
Record NodeRef : Type := mkRef {
  ref_tree : Side;
  ref_path : list Step
}.

Definition ref_name (r : NodeRef) : string :=
  snd (last (ref_path r) (0, "")).

(** [node.parent], [None] at the root. *)
Definition ref_parent (r : NodeRef) : option NodeRef :=
  match ref_path r with
  | [] | [_] => None
  | _ :: _ :: _ => Some (mkRef (ref_tree r) (removelast (ref_path r)))
  end.

(** Identity of node objects. *)
Definition ref_eqb (a b : NodeRef) : bool :=
  side_eqb (ref_tree a) (ref_tree b) && steps_eqb (ref_path a) (ref_path b).

Fixpoint flat_mapi {A B : Type} (f : nat -> A -> list B) (j : nat) (l : list A)
  : list B :=
  match l with
  | [] => []
  | a :: l' => f j a ++ flat_mapi f (S j) l'
  end.

Fixpoint leaves_at (t : Side) (above : list Step) (i : nat) (n : Node)
  : list NodeRef :=
  match n with
  | mkNode nm cs =>
      let here := above ++ [(i, nm)] in
      match cs with
      | [] => [mkRef t here]
      | _ :: _ => flat_mapi (fun j c => leaves_at t here j c) 0 cs
      end
  end.

(** [tree.leaves]: the childless nodes, in pre-order. *)
Definition leaves (t : Side) (tree : Node) : list NodeRef :=
  leaves_at t [] 0 tree.

(** Values held in the lists handed to [find_routes]: airport codes on the
    first call, node objects afterwards. *)
Inductive Elem : Type :=
| EStr (s : string)
| ENode (n : NodeRef).

(** Python [==] on such values: a string never equals a node. *)
Definition elem_eqb (a b : Elem) : bool :=
  match a, b with
  | EStr s, EStr s' => (s =? s')%string
  | ENode n, ENode n' => ref_eqb n n'
  | _, _ => false
  end.

(** [x in l]. *)
Definition py_in (x : Elem) (l : list Elem) : bool :=
  existsb (elem_eqb x) l.

(** [set(l)] for a list of strings. *)
Definition py_set (l : list string) : list string :=
  nodup string_dec l.

(** Items of the paths handed to [clean_path]. *)
Inductive PathItem : Type :=
| ItemStr (s : string)
| ItemNode (st : Step).

Definition PyPath : Type := list PathItem.

Definition node_path (r : NodeRef) : PyPath := map ItemNode (ref_path r).

(** [x.name] of an element that has to be a node. *)
Definition as_node (e : Elem) : Outcome NodeRef :=
  match e with
  | ENode n => Returned n
  | EStr _ => Raised AttributeError
  end.

(** [start_node == 5]: a node object never equals an integer. *)
Definition node_eq_int (n : Node) (k : Z) : bool := false.

(** A pair [(node, node.parent)] of [compare_node]. *)
Definition WithParent : Type := (NodeRef * option NodeRef)%type.

(** ** The search *)

(** [compare]. *)
Definition compare (start_lists destination_lists : list Elem) : list Elem :=
  filter (fun city => py_in city destination_lists) start_lists.

(** The inner loop of [compare_node]. *)
Fixpoint compare_node_row (city : Elem) (destination_lists : list Elem)
  : Outcome (list (WithParent * WithParent)) :=
  match destination_lists with
  | [] => Returned []
  | city2 :: rest =>
      n2 <- as_node city2 ;;
      n <- as_node city ;;
      more <- compare_node_row city rest ;;
      Returned (if (ref_name n2 =? ref_name n)%string
                then ((n, ref_parent n), (n2, ref_parent n2)) :: more
                else more)
  end.

(** [compare_node]. *)
Fixpoint compare_node (start_lists destination_lists : list Elem)
  : Outcome (list (WithParent * WithParent)) :=
  match start_lists with
  | [] => Returned []
  | city :: rest =>
      row <- compare_node_row city destination_lists ;;
      more <- compare_node rest destination_lists ;;
      Returned (row ++ more)
  end.

(** [retrieve_leaves]. *)
Definition retrieve_leaves (t : Side) (node : Node) : list string :=
  map ref_name (leaves t node).

(** The loop of [get_path_from_tree]; [some_node.path[:-1] == parent.path]
    holds when the nodes above [some_node] are the very nodes of the path of
    [parent]. *)
Fixpoint get_path_from_leaves (node : NodeRef) (parent : option NodeRef)
  (some_nodes : list NodeRef) : Outcome (option PyPath) :=
  match some_nodes with
  | [] => Returned None
  | some_node :: rest =>
      if (ref_name some_node =? ref_name node)%string then
        match parent with
        | None => Raised AttributeError
        | Some p =>
            if side_eqb (ref_tree some_node) (ref_tree p)
               && steps_eqb (removelast (ref_path some_node)) (ref_path p)
            then Returned (Some (node_path some_node))
            else get_path_from_leaves node parent rest
        end
      else get_path_from_leaves node parent rest
  end.

(** [get_path_from_tree]. *)
Definition get_path_from_tree (node : NodeRef) (parent : option NodeRef)
  (t : Side) (tree : Node) : Outcome (option PyPath) :=
  get_path_from_leaves node parent (leaves t tree).

(** [some_node.name == node] for a node that is a string or a node object. *)
Definition name_is (some_node : NodeRef) (node : Elem) : bool :=
  match node with
  | EStr s => (ref_name some_node =? s)%string
  | ENode _ => false
  end.

(** [get_path]. *)
Definition get_path (node : Elem) (t : Side) (tree : Node) : option PyPath :=
  option_map node_path (find (fun some_node => name_is some_node node) (leaves t tree)).

Definition item_name (i : PathItem) : string :=
  match i with
  | ItemStr s => s
  | ItemNode st => snd st
  end.

Definition last_error {A : Type} (l : list A) : option A :=
  match l with
  | [] => None
  | a :: l' => Some (last l' a)
  end.

(** The second loop of [clean_path]: an item is appended unless it repeats
    [temp[len(temp)-1]]. *)
Fixpoint append_new (temp : list string) (items : PyPath) : Outcome (list string) :=
  match items with
  | [] => Returned temp
  | it :: rest =>
      match last_error temp with
      | None => Raised IndexError
      | Some l =>
          if negb (l =? item_name it)%string
          then append_new (temp ++ [item_name it]) rest
          else append_new temp rest
      end
  end.

(** One turn of the outer loop of [clean_path]. *)
Definition clean_one (route_paths : option PyPath * option PyPath)
  : Outcome (list string) :=
  match fst route_paths with
  | None => Raised TypeError
  | Some first =>
      let temp := map item_name first in
      match snd route_paths with
      | None => Returned temp
      | Some second => append_new temp second
      end
  end.

(** [clean_path]. *)
Fixpoint clean_path (paths_list : list (option PyPath * option PyPath))
  : Outcome (list (list string)) :=
  match paths_list with
  | [] => Returned []
  | route_paths :: rest =>
      temp <- clean_one route_paths ;;
      more <- clean_path rest ;;
      Returned (temp :: more)
  end.

(** The second branch of [build_search_tree]: every leaf receives the
    codes [list_function] gives for its name as children. *)
Fixpoint expand_leaves (list_function : string -> list string) (n : Node) : Node :=
  match n with
  | mkNode nm cs =>
      match cs with
      | [] => mkNode nm (map leaf (list_function nm))
      | _ :: _ => mkNode nm (map (expand_leaves list_function) cs)
      end
  end.

(** [build_search_tree]. *)
Definition build_search_tree (node : Node) (possible_list : list string)
  (list_function : string -> list string) : Node :=
  if is_leaf node
  then mkNode (name node) (map leaf possible_list)
  else expand_leaves list_function node.

(** [reverse_path[::-1]], a [TypeError] on [None]. *)
Definition reversed (p : option PyPath) : Outcome PyPath :=
  match p with
  | None => Raised TypeError
  | Some l => Returned (rev l)
  end.

(** What one activation of [find_routes] does: finish, or call itself. *)
Inductive Activation : Type :=
| Done (o : Outcome (list (list string)))
| Call (start_list destination_list : list Elem) (start_node stop_node : Node).

Section Tables.

Variable routes_csv : list Route.

(** [find_possible_destinations]. *)
Definition find_possible_destinations (iata_code : string) : list string :=
  py_set (map route_dest
            (filter (fun route => (route_source route =? iata_code)%string) routes_csv)).

(** [find_possible_starts]. *)
Definition find_possible_starts (iata_code : string) : list string :=
  py_set (map route_source
            (filter (fun route => (route_dest route =? iata_code)%string) routes_csv)).

(** The first loop of [find_routes], over the codes matched by [compare]. *)
Fixpoint paths_by_name (matched : list Elem) (start_node stop_node : Node)
  : Outcome (list (option PyPath * option PyPath)) :=
  match matched with
  | [] => Returned []
  | city :: rest =>
      let reverse_path := get_path city StopTree stop_node in
      let forward := get_path city StartTree start_node in
      backward <- reversed reverse_path ;;
      more <- paths_by_name rest start_node stop_node ;;
      Returned ((forward, Some backward) :: more)
  end.

(** The second loop of [find_routes], over the pairs matched by
    [compare_node]. *)
Fixpoint paths_from_tree (matched : list (WithParent * WithParent))
  (start_node stop_node : Node)
  : Outcome (list (option PyPath * option PyPath)) :=
  match matched with
  | [] => Returned []
  | city :: rest =>
      reverse_path <- get_path_from_tree (fst (snd city)) (snd (snd city))
                        StopTree stop_node ;;
      forward <- get_path_from_tree (fst (fst city)) (snd (fst city))
                   StartTree start_node ;;
      backward <- reversed reverse_path ;;
      more <- paths_from_tree rest start_node stop_node ;;
      Returned ((forward, Some backward) :: more)
  end.

(** Lines 228 to 245 of [find_routes]: the depth guard, the paths of the
    matched pairs, or the next expansion. *)
Definition after_matching (matched : list (WithParent * WithParent))
  (start_node stop_node : Node) : Activation :=
  if (height start_node =? 5)%nat && node_eq_int start_node 5 then
    Done (Exited 2)
  else if negb (List.length matched =? 0)%nat then
    Done (matched_path <- paths_from_tree matched start_node stop_node ;;
          clean_path matched_path)
  else if (height start_node =? height stop_node)%nat then
    let start_l := retrieve_leaves StartTree start_node in
    let start_n := build_search_tree start_node start_l find_possible_destinations in
    Call (map ENode (leaves StartTree start_n))
         (map ENode (leaves StopTree stop_node)) start_n stop_node
  else
    let stop_l := retrieve_leaves StopTree stop_node in
    let stop_n := build_search_tree stop_node stop_l find_possible_starts in
    Call (map ENode (leaves StartTree start_node))
         (map ENode (leaves StopTree stop_n)) start_node stop_n.

(** The body of [find_routes]. Below two levels every matched code has put
    an entry into [matched_path], so when that list is empty [matched] is
    empty as well on lines 228 to 245. *)
Definition find_routes_body (start stop : string)
  (start_list destination_list : list Elem) (start_node stop_node : Node)
  : Activation :=
  if py_in (EStr stop) start_list then
    Done (Returned [[start; stop]])
  else if (height start_node <? 2)%nat then
    let matched := compare destination_list start_list in
    match paths_by_name matched start_node stop_node with
    | Returned matched_path =>
        if negb (List.length matched_path =? 0)%nat
        then Done (clean_path matched_path)
        else after_matching [] start_node stop_node
    | Exited c => Done (Exited c)
    | Raised e => Done (Raised e)
    | Unfinished => Done Unfinished
    end
  else
    match compare_node start_list destination_list with
    | Returned matched => after_matching matched start_node stop_node
    | Exited c => Done (Exited c)
    | Raised e => Done (Raised e)
    | Unfinished => Done Unfinished
    end.

(** [find_routes], with a budget of nested activations. *)
Fixpoint find_routes (budget : nat) (start stop : string)
  (start_list destination_list : list Elem) (start_node stop_node : Node)
  : Outcome (list (list string)) :=
  match budget with
  | O => Unfinished
  | S budget' =>
      match find_routes_body start stop start_list destination_list
              start_node stop_node with
      | Done o => o
      | Call sl dl sn dn => find_routes budget' start stop sl dl sn dn
      end
  end.

(** Lines 724 to 729 of [main]: the two one-level trees and the search. *)
Definition all_possible_routes (budget : nat) (start_code destination_code : string)
  : Outcome (list (list string)) :=
  let all_possible_starts := find_possible_starts destination_code in
  let all_possible_destinations := find_possible_destinations start_code in
  let start_node :=
    build_search_tree (leaf start_code) all_possible_destinations
      find_possible_destinations in
  let destination_node :=
    build_search_tree (leaf destination_code) all_possible_starts
      find_possible_starts in
  find_routes budget start_code destination_code
    (map EStr all_possible_destinations) (map EStr all_possible_starts)
    start_node destination_node.

End Tables.


(** ** Distances *)

(** A position [(latitude, longitude)], in degrees. *)
Definition Coordinate : Type := (R * R)%type.

(** [math.radians]. *)
Definition radians (x : R) : R := (x * (PI / 180))%R.

(** [calculate_distance]. *)
Definition calculate_distance (start_city end_city : Coordinate) : R :=
  let latitude1 := radians (fst start_city) in
  let latitude2 := radians (fst end_city) in
  let longitude1 := radians (snd start_city) in
  let longitude2 := radians (snd end_city) in
  let r := 6371%R in
  let value1 := ((sin ((latitude2 - latitude1) / 2)) ^ 2)%R in
  let value2 :=
    (cos latitude1 * cos latitude2 * (sin ((longitude2 - longitude1) / 2)) ^ 2)%R in
  let d := sqrt (value1 + value2) in
  (2 * r * asin d)%R.

Fixpoint add_distances (total_distance : R) (path_list : list Coordinate) : R :=
  match path_list with
  | a :: rest =>
      match rest with
      | b :: _ => add_distances (total_distance + calculate_distance a b)%R rest
      | [] => total_distance
      end
  | [] => total_distance
  end.

(** [calculate_total_distance], on real numbers: the sum does not depend on
    the order of the additions here, as it does on doubles
    ([Doubles.calculate_total_distance]). *)
Definition calculate_total_distance (path_list : list Coordinate) : R :=
  add_distances 0%R path_list.

(** The great-circle distance as the specification writes it, on angles in
    radians. *)
Definition haversine (lat1 lon1 lat2 lon2 : R) : R :=
  (2 * 6371 *
   asin (sqrt (Rsqr (sin ((lat2 - lat1) / 2))
               + cos lat1 * cos lat2 * Rsqr (sin ((lon2 - lon1) / 2)))))%R.

Definition degrees_to_radians (deg : R) : R := (deg * PI / 180)%R.

(** What [find_location] hands back: a tuple, or [None]. *)
Definition Position : Type := option Coordinate.

(** [type(position) is tuple] for every position of a path: the tuples
    themselves when it holds ([isLocation] stays [True]), nothing
    otherwise. *)
Fixpoint located (positions : list Position) : option (list Coordinate) :=
  match positions with
  | [] => Some []
  | None :: _ => None
  | Some c :: rest =>
      match located rest with
      | Some cs => Some (c :: cs)
      | None => None
      end
  end.

Definition isLocation (positions : list Position) : bool :=
  match located positions with Some _ => true | None => false end.

(** The value of [optimal_route]: the empty list, or [[path, distance]]. *)
Definition OptimalRoute : Type := option (list string * R).

(** [optimal_route = [path_lists[i], distance]]. *)
Definition take_route (path_lists : list (list string)) (i : nat) (distance : R)
  : Outcome OptimalRoute :=
  match nth_error path_lists i with
  | Some path => Returned (Some (path, distance))
  | None => Raised IndexError
  end.

(** The loop of [find_optimal_route], from index [i] on. *)
Fixpoint find_optimal_route_from (i : nat) (path_locations : list (list Position))
  (path_lists : list (list string)) (optimal_route : OptimalRoute)
  : Outcome OptimalRoute :=
  match path_locations with
  | [] => Returned optimal_route
  | positions :: rest =>
      match located positions with
      | Some tuples =>
          let distance := calculate_total_distance tuples in
          match optimal_route with
          | None =>
              chosen <- take_route path_lists i distance ;;
              find_optimal_route_from (S i) rest path_lists chosen
          | Some (_, best) =>
              if Rgt_dec best distance then
                chosen <- take_route path_lists i distance ;;
                find_optimal_route_from (S i) rest path_lists chosen
              else find_optimal_route_from (S i) rest path_lists optimal_route
          end
      | None => find_optimal_route_from (S i) rest path_lists optimal_route
      end
  end.

(** [find_optimal_route]. *)
Definition find_optimal_route (path_locations : list (list Position))
  (path_lists : list (list string)) : Outcome OptimalRoute :=
  find_optimal_route_from 0 path_locations path_lists None.

(** Line 472 of [write_optimal_route], [path = optimal_route[0]]. *)
Definition write_optimal_route_path (optimal_route : OptimalRoute)
  : Outcome (list string) :=
  match optimal_route with
  | None => Raised IndexError
  | Some (path, _) => Returned path
  end.

(** ** Flight details *)

(** [randint(a, b)] from a raw random number. *)
Definition randint (a b : Z) (raw : nat) : Outcome Z :=
  if (b <? a)%Z then Raised ValueError
  else Returned (a + Z.of_nat raw mod (b - a + 1))%Z.

(** [len(code) != 0 and code != "\\N"]. *)
Definition usable (code : string) : bool :=
  negb (String.length code =? 0)%nat && negb (code =? null_code)%string.

(** [flight_details[random][1]]. *)
Definition stops_at (flight_details : list (Z * Z)) (random : Z) : Outcome Z :=
  match nth_error flight_details (Z.to_nat random) with
  | Some detail => Returned (snd detail)
  | None => Raised IndexError
  end.

(** [randomize_airline_list]; every activation consumes one raw random
    number, and the call is unfinished when none is left. *)
Fixpoint randomize_airline_list (draws : list nat)
  (lists : list (option (string * string))) (flight_details : list (Z * Z))
  : Outcome (string * Z) :=
  match draws with
  | [] => Unfinished
  | raw :: later =>
      random <- randint 0 (Z.of_nat (List.length lists) - 1) raw ;;
      match nth_error lists (Z.to_nat random) with
      | None => Raised IndexError
      | Some None => Raised TypeError
      | Some (Some (iata, icao)) =>
          if usable iata then
            stops <- stops_at flight_details random ;;
            Returned (iata, stops)
          else if usable icao then
            stops <- stops_at flight_details random ;;
            Returned (icao, stops)
          else randomize_airline_list later lists flight_details
      end
  end.

Section Directories.

Variable routes_csv : list Route.
Variable airports_csv : list Airport.
Variable airlines_csv : list Airline.

(** [find_location]. *)
Definition find_location (code : string) : Position :=
  option_map (fun airport => (airport_latitude airport, airport_longitude airport))
    (find (fun airport => (airport_code airport =? code)%string) airports_csv).

(** [find_path_location]. *)
Definition find_path_location (path_list : list (list string))
  : list (list Position) :=
  map (fun path => map find_location path) path_list.

(** [find_flight_details]. *)
Definition find_flight_details (start_code end_code : string) : list (Z * Z) :=
  map (fun route => (route_airline route, route_stops route))
    (filter (fun route => (route_source route =? start_code)%string
                          && (route_dest route =? end_code)%string) routes_csv).

(** [find_airline]. *)
Definition find_airline (number : Z) : option (string * string) :=
  option_map (fun airline => (airline_iata airline, airline_icao airline))
    (find (fun airline => (airline_id airline =? number)%Z
                          && (airline_active airline =? "Y")%string) airlines_csv).

(** [all_airlines]. *)
Definition all_airlines (flight_details : list (Z * Z))
  : list (option (string * string)) :=
  map (fun detail => find_airline (fst detail)) flight_details.

End Directories.

(** ** Notions used to state the properties *)

(** [randomize_airline_list] gives up within [bound] draws: whenever that
    many raw numbers are supplied, the call ends in an exception. *)
Definition gives_up_within (bound : nat) (lists : list (option (string * string)))
  (flight_details : list (Z * Z)) : Prop :=
  forall draws, bound <= List.length draws ->
    exists e, randomize_airline_list draws lists flight_details = Raised e.

(** The candidates of [find_optimal_route] taken as pairs, and the same
    selection written as one pass over them. *)
Fixpoint best_of (candidates : list (list Position * list string))
  (optimal_route : OptimalRoute) : OptimalRoute :=
  match candidates with
  | [] => optimal_route
  | (positions, path) :: rest =>
      match located positions with
      | Some tuples =>
          let distance := calculate_total_distance tuples in
          match optimal_route with
          | None => best_of rest (Some (path, distance))
          | Some (_, best) =>
              if Rgt_dec best distance
              then best_of rest (Some (path, distance))
              else best_of rest optimal_route
          end
      | None => best_of rest optimal_route
      end
  end.

(** The tree a side of the search holds after [k] levels: below a code sit
    its neighbours, [k] levels deep. *)
Fixpoint unfold_tree (nbr : string -> list string) (k : nat) (x : string) : Node :=
  match k with
  | O => leaf x
  | S k' => mkNode x (map (unfold_tree nbr k') (nbr x))
  end.

(** The codes read along the path of a node. *)
Definition ref_names (r : NodeRef) : list string := map snd (ref_path r).

(** A list of codes in which each is followed by one of its neighbours. *)
Fixpoint chain (nbr : string -> list string) (codes : list string) : Prop :=
  match codes with
  | a :: rest =>
      match rest with
      | b :: _ => In b (nbr a) /\ chain nbr rest
      | [] => True
      end
  | [] => True
  end.

(** A route of the graph from [start] to [stop], as the list of its codes. *)
Definition connects (routes_csv : list Route) (start stop : string)
  (codes : list string) : Prop :=
  chain (find_possible_destinations routes_csv) codes
  /\ hd_error codes = Some start
  /\ last_error codes = Some stop.

(** The pairs [compare_node] collects from two lists of nodes. *)
Definition matches_of (start_nodes stop_nodes : list NodeRef)
  : list (WithParent * WithParent) :=
  flat_map (fun n =>
    flat_map (fun n2 =>
      if (ref_name n2 =? ref_name n)%string
      then [((n, ref_parent n), (n2, ref_parent n2))]
      else []) stop_nodes) start_nodes.

(** One more level on the start tree, as [find_routes] asks for it. *)
Definition grow_start (routes_csv : list Route) (start_node : Node) : Node :=
  build_search_tree start_node (retrieve_leaves StartTree start_node)
    (find_possible_destinations routes_csv).

(** One more level on the stop tree, as [find_routes] asks for it. *)
Definition grow_stop (routes_csv : list Route) (stop_node : Node) : Node :=
  build_search_tree stop_node (retrieve_leaves StopTree stop_node)
    (find_possible_starts routes_csv).

(** A call that does not end in [sys.exit]. *)
Definition no_exit {A : Type} (o : Outcome A) : Prop :=
  forall code, o <> Exited code.

(** A route from [start] to [stop] than which no route is shorter. *)
Definition shortest_route (routes_csv : list Route) (start stop : string)
  (codes : list string) : Prop :=
  connects routes_csv start stop codes
  /\ forall other, connects routes_csv start stop other ->
       List.length codes <= List.length other.

(** An entry of [matched_path] that stands for a route of at most [bound]
    codes: a forward path and a reversed backward path that meet in the
    code [v]. *)
Definition route_entry (routes_csv : list Route) (start stop : string)
  (bound : nat) (entry : option PyPath * option PyPath) : Prop :=
  exists (f b : PyPath) (xs ys : list string) (v : string),
    entry = (Some f, Some (rev b))
    /\ map item_name f = xs ++ [v]
    /\ map item_name b = ys ++ [v]
    /\ connects routes_csv start stop (xs ++ v :: rev ys)
    /\ List.length (xs ++ v :: rev ys) <= bound.

(** How a search ends when it neither exits nor raises: still running, or
    returned with a non-empty list of shortest routes. *)
Definition settled (routes_csv : list Route) (start stop : string)
  (o : Outcome (list (list string))) : Prop :=
  o = Unfinished
  \/ exists res, o = Returned res /\ res <> []
                 /\ Forall (shortest_route routes_csv start stop) res.

(** A list of codes in which no code is followed by itself. *)
Fixpoint adjacent_distinct (codes : list string) : Prop :=
  match codes with
  | a :: rest =>
      match rest with
      | b :: _ => a <> b /\ adjacent_distinct rest
      | [] => True
      end
  | [] => True
  end.

(** ** The rest of the program *)

(** A row of [airports.csv] with the columns [find_location_code] reads as
    well: 2 (city) and 3 (country), beside those of [Airport]. *)
Record AirportPlace : Type := mkAirportPlace {
  place_city : string;
  place_country : string;
  place_airport : Airport
}.

(** [find_location_code]: the first code of an airport of the city and
    country that is not the null marker; without one, "Unsupported
    request!" is written and the program leaves through [sys.exit(2)]. *)
Definition find_location_code (airports_csv : list AirportPlace)
  (location country : string) : Outcome string :=
  let all_codes :=
    map (fun airport => airport_code (place_airport airport))
      (filter (fun airport => (place_city airport =? location)%string
                              && (place_country airport =? country)%string)
         airports_csv) in
  match find (fun city_code => negb (city_code =? null_code)%string) all_codes with
  | Some city_code => Returned city_code
  | None => Exited 2
  end.

(** Lines 721 to 733 of [main]: the codes of the two places, the search,
    the positions of the paths found and the selection among them. *)
Definition main_optimal_route (airports_csv : list AirportPlace)
  (routes_csv : list Route) (budget : nat)
  (start destination : string * string) : Outcome OptimalRoute :=
  start_code <- find_location_code airports_csv (fst start) (snd start) ;;
  destination_code <-
    find_location_code airports_csv (fst destination) (snd destination) ;;
  all_routes <- all_possible_routes routes_csv budget start_code destination_code ;;
  let path_locations :=
    find_path_location (map place_airport airports_csv) all_routes in
  find_optimal_route path_locations all_routes.

(** ** Distances and the selection on doubles

    A Python [float] is a binary64 number of IEEE 754; [+] on it is the
    addition of the standard (round to nearest, ties to even) and [>] its
    comparison, which are [PrimFloat.add] and [PrimFloat.ltb] on Rocq's
    primitive [float].  The double that [calculate_distance] gives comes out
    of the C library's [sin], [cos] and [asin], which the standard does not
    fix to the last bit, and [math.sqrt] and [math.asin] raise [ValueError]
    outside their domain: here the function is a parameter that returns a
    double or raises. *)
Module Doubles.

(** A tuple of [find_location], its two cells read by [float()]. *)
Definition Coordinate : Type := (float * float)%type.

Definition Position : Type := option Coordinate.

(** [type(position) is tuple] for every position of a path. *)
Fixpoint located (positions : list Position) : option (list Coordinate) :=
  match positions with
  | [] => Some []
  | None :: _ => None
  | Some c :: rest =>
      match located rest with
      | Some cs => Some (c :: cs)
      | None => None
      end
  end.

(** The value of [optimal_route]: the empty list, or [[path, distance]]. *)
Definition OptimalRoute : Type := option (list string * float).

(** [optimal_route = [path_lists[i], distance]]. *)
Definition take_route (path_lists : list (list string)) (i : nat) (distance : float)
  : Outcome OptimalRoute :=
  match nth_error path_lists i with
  | Some path => Returned (Some (path, distance))
  | None => Raised IndexError
  end.

Section Distances.

Variable calculate_distance : Coordinate -> Coordinate -> Outcome float.

(** The loop of [calculate_total_distance]: [total_distance +=
    calculate_distance(path_list[i], path_list[i+1])], from the left. *)
Fixpoint add_distances (total_distance : float) (path_list : list Coordinate)
  : Outcome float :=
  match path_list with
  | a :: rest =>
      match rest with
      | b :: _ =>
          distance <- calculate_distance a b ;;
          add_distances (total_distance + distance)%float rest
      | [] => Returned total_distance
      end
  | [] => Returned total_distance
  end.

(** [calculate_total_distance]; it starts from the integer [0], which the
    first addition converts to the double zero and which compares like
    it. *)
Definition calculate_total_distance (path_list : list Coordinate) : Outcome float :=
  add_distances 0%float path_list.

(** The loop of [find_optimal_route], from index [i] on;
    [optimal_route[1] > distance] is [distance <? best]. *)
Fixpoint find_optimal_route_from (i : nat) (path_locations : list (list Position))
  (path_lists : list (list string)) (optimal_route : OptimalRoute)
  : Outcome OptimalRoute :=
  match path_locations with
  | [] => Returned optimal_route
  | positions :: rest =>
      match located positions with
      | Some tuples =>
          distance <- calculate_total_distance tuples ;;
          match optimal_route with
          | None =>
              chosen <- take_route path_lists i distance ;;
              find_optimal_route_from (S i) rest path_lists chosen
          | Some (_, best) =>
              if (distance <? best)%float then
                chosen <- take_route path_lists i distance ;;
                find_optimal_route_from (S i) rest path_lists chosen
              else find_optimal_route_from (S i) rest path_lists optimal_route
          end
      | None => find_optimal_route_from (S i) rest path_lists optimal_route
      end
  end.

(** [find_optimal_route]. *)
Definition find_optimal_route (path_locations : list (list Position))
  (path_lists : list (list string)) : Outcome OptimalRoute :=
  find_optimal_route_from 0 path_locations path_lists None.

End Distances.

(** The doubles [calculate_distance] is asked to add along a path, in the
    order of the path. *)
Definition legs (leg : Coordinate -> Coordinate -> float)
  (path_list : list Coordinate) : list float :=
  map (fun pair => leg (fst pair) (snd pair)) (combine path_list (tl path_list)).

End Doubles.

(** * Properties *)

(** ** The great-circle distance *)

Lemma radians_degrees (x : R) : radians x = degrees_to_radians x.
Proof. unfold radians, degrees_to_radians. field. Qed.

Lemma sin_half_diff_sqr (a b : R) :
  ((sin ((b - a) / 2)) ^ 2 = (sin ((a - b) / 2)) ^ 2)%R.
Proof.
  replace ((b - a) / 2)%R with (- ((a - b) / 2))%R by lra.
  rewrite sin_neg. ring.
Qed.

Lemma calculate_distance_formula (A B : Coordinate) :
  calculate_distance A B =
  haversine (degrees_to_radians (fst A)) (degrees_to_radians (snd A))
            (degrees_to_radians (fst B)) (degrees_to_radians (snd B)).
Proof.
  unfold calculate_distance, haversine.
  rewrite <- !radians_degrees, !Rsqr_pow2. reflexivity.
Qed.

Lemma calculate_distance_self (A : Coordinate) : calculate_distance A A = 0%R.
Proof.
  unfold calculate_distance.
  replace ((radians (fst A) - radians (fst A)) / 2)%R with 0%R by lra.
  replace ((radians (snd A) - radians (snd A)) / 2)%R with 0%R by lra.
  rewrite sin_0.
  replace (0 ^ 2 + cos (radians (fst A)) * cos (radians (fst A)) * 0 ^ 2)%R
    with 0%R by ring.
  rewrite sqrt_0, asin_0. ring.
Qed.

Lemma calculate_distance_sym (A B : Coordinate) :
  calculate_distance A B = calculate_distance B A.
Proof.
  unfold calculate_distance.
  rewrite (sin_half_diff_sqr (radians (fst A)) (radians (fst B))).
  rewrite (sin_half_diff_sqr (radians (snd A)) (radians (snd B))).
  rewrite (Rmult_comm (cos (radians (fst A))) (cos (radians (fst B)))).
  reflexivity.
Qed.

(** C7. [calculate_distance] is the Haversine formula with radius 6371 on
    the coordinates turned into radians; the distance from a place to itself
    is zero and the distance does not depend on the direction. *)
Theorem calculate_distance_is_haversine :
  forall A B : Coordinate,
    calculate_distance A B =
      haversine (degrees_to_radians (fst A)) (degrees_to_radians (snd A))
                (degrees_to_radians (fst B)) (degrees_to_radians (snd B))
    /\ calculate_distance A A = 0%R
    /\ calculate_distance A B = calculate_distance B A.
Proof.
  intros A B. split; [apply calculate_distance_formula|].
  split; [apply calculate_distance_self | apply calculate_distance_sym].
Qed.

(** ** Flight details *)

Lemma randint_in_range (n raw : nat) (random : Z) :
  randint 0 (Z.of_nat n - 1) raw = Returned random ->
  (0 <= random < Z.of_nat n)%Z.
Proof.
  unfold randint. destruct (Z.of_nat n - 1 <? 0)%Z eqn:E; [discriminate|].
  intros H. injection H as <-. apply Z.ltb_ge in E.
  assert (0 <= Z.of_nat raw mod (Z.of_nat n - 1 - 0 + 1) < Z.of_nat n - 1 - 0 + 1)%Z
    by (apply Z.mod_pos_bound; lia).
  lia.
Qed.

Lemma randint_nonempty (n raw : nat) :
  n <> 0 -> exists random, randint 0 (Z.of_nat n - 1) raw = Returned random.
Proof.
  intros Hn. unfold randint.
  destruct (Z.of_nat n - 1 <? 0)%Z eqn:E; [apply Z.ltb_lt in E; lia|].
  eexists. reflexivity.
Qed.

Lemma stops_at_returned (flight_details : list (Z * Z)) (random stops : Z) :
  stops_at flight_details random = Returned stops ->
  exists airline, nth_error flight_details (Z.to_nat random) = Some (airline, stops).
Proof.
  unfold stops_at.
  destruct (nth_error flight_details (Z.to_nat random)) as [[a s]|]; [|discriminate].
  intros H. injection H as <-. exists a. reflexivity.
Qed.

(** C10. Whatever [randomize_airline_list] returns was read at one index:
    the label is the IATA code, or failing that the ICAO code, of the
    airline at some index of [lists], and the stop count is the one of the
    flight detail at the same index. *)
Theorem randomize_airline_list_same_index :
  forall (draws : list nat) (lists : list (option (string * string)))
         (flight_details : list (Z * Z)) (label : string) (stops : Z),
    List.length lists = List.length flight_details ->
    randomize_airline_list draws lists flight_details = Returned (label, stops) ->
    exists (i : nat) (iata icao : string) (airline : Z),
      nth_error lists i = Some (Some (iata, icao))
      /\ nth_error flight_details i = Some (airline, stops)
      /\ ((label = iata /\ usable iata = true)
          \/ (label = icao /\ usable iata = false /\ usable icao = true)).
Proof.
  intros draws lists flight_details label stops _.
  induction draws as [|raw later IH]; simpl; [discriminate|].
  destruct (randint 0 (Z.of_nat (List.length lists) - 1) raw) as [random| | |];
    simpl; try discriminate.
  destruct (nth_error lists (Z.to_nat random)) as [[[iata icao]|]|] eqn:Hl;
    try discriminate.
  destruct (usable iata) eqn:Hia.
  - destruct (stops_at flight_details random) as [s| | |] eqn:Hs;
      simpl; try discriminate.
    intros H. injection H as <- <-.
    destruct (stops_at_returned _ _ _ Hs) as [a Ha].
    exists (Z.to_nat random), iata, icao, a. auto.
  - destruct (usable icao) eqn:Hic; [|exact IH].
    destruct (stops_at flight_details random) as [s| | |] eqn:Hs;
      simpl; try discriminate.
    intros H. injection H as <- <-.
    destruct (stops_at_returned _ _ _ Hs) as [a Ha].
    exists (Z.to_nat random), iata, icao, a.
    split; [exact Hl|]. split; [exact Ha|]. right. auto.
Qed.

Lemma randomize_airline_list_same_index_witness :
  List.length [Some ("", "BAW"); Some ("AF", "AFR")] = List.length [(7, 1); (9, 0)]%Z
  /\ randomize_airline_list [4] [Some ("", "BAW"); Some ("AF", "AFR")] [(7, 1); (9, 0)]%Z
     = Returned ("BAW", 1%Z)
  /\ exists (i : nat) (iata icao : string) (airline : Z),
      nth_error [Some ("", "BAW"); Some ("AF", "AFR")] i = Some (Some (iata, icao))
      /\ nth_error [(7, 1); (9, 0)]%Z i = Some (airline, 1%Z)
      /\ (("BAW" = iata /\ usable iata = true)
          \/ ("BAW" = icao /\ usable iata = false /\ usable icao = true)).
Proof.
  split; [reflexivity|]. split; [reflexivity|].
  apply (randomize_airline_list_same_index [4]); reflexivity.
Defined.

(** C2, as stated, fails: with the single candidate whose IATA code is empty
    and whose ICAO code is the null marker, no number of draws makes the
    call end in an exception. *)
Lemma randomize_airline_list_never_gives_up :
  ~ exists bound, gives_up_within bound [Some ("", null_code)] [(1, 0)]%Z.
Proof.
  intros [bound H].
  destruct (H (repeat 0 bound)) as [e He]; [rewrite repeat_length; lia|].
  clear H. induction bound as [|b IH]; simpl in He; [discriminate|].
  apply IH. exact He.
Qed.

(** C2, amended. On a non-empty list whose candidates all lack a usable IATA
    and a usable ICAO code, [randomize_airline_list] draws again after every
    draw: however many random numbers it is given, it has neither returned
    nor failed when they are used up. *)
Theorem randomize_airline_list_keeps_drawing :
  forall (draws : list nat) (lists : list (option (string * string)))
         (flight_details : list (Z * Z)),
    lists <> [] ->
    (forall c, In c lists ->
       exists iata icao, c = Some (iata, icao)
                         /\ usable iata = false /\ usable icao = false) ->
    randomize_airline_list draws lists flight_details = Unfinished.
Proof.
  intros draws lists flight_details Hne Hall.
  induction draws as [|raw later IH]; simpl; [reflexivity|].
  destruct (randint_nonempty (List.length lists) raw) as [random Hr].
  { destruct lists; [congruence | discriminate]. }
  rewrite Hr. simpl.
  apply randint_in_range in Hr.
  destruct (nth_error lists (Z.to_nat random)) as [c|] eqn:Hc.
  - destruct (Hall c (nth_error_In _ _ Hc)) as (iata & icao & -> & Hia & Hic).
    rewrite Hia, Hic. exact IH.
  - apply nth_error_None in Hc. lia.
Qed.

Lemma randomize_airline_list_keeps_drawing_witness :
  randomize_airline_list [0; 5; 2] [Some ("", null_code); Some (null_code, "")]
    [(3, 0); (4, 1)]%Z = Unfinished.
Proof.
  apply randomize_airline_list_keeps_drawing.
  - discriminate.
  - intros c [<-|[<-|[]]]; eexists; eexists; (split; [reflexivity|]);
      split; reflexivity.
Defined.

Lemma find_airline_active (airlines_csv : list Airline) (number : Z)
  (iata icao : string) :
  find_airline airlines_csv number = Some (iata, icao) ->
  exists airline, In airline airlines_csv
    /\ airline_id airline = number /\ airline_active airline = "Y"
    /\ airline_iata airline = iata /\ airline_icao airline = icao.
Proof.
  unfold find_airline.
  destruct (find _ airlines_csv) as [a|] eqn:F; simpl; [|discriminate].
  intros H. injection H as <- <-.
  apply find_some in F. destruct F as [Hin Hb].
  apply andb_true_iff in Hb. destruct Hb as [Hid Hact].
  apply Z.eqb_eq in Hid. apply String.eqb_eq in Hact.
  exists a. auto.
Qed.

(** C8, on the code: an airline that is not active leaves [None] in the list
    [all_airlines] builds, and [randomize_airline_list] draws over that
    list as it is; when the draw lands on the [None] the subscript raises
    [TypeError]. *)
Theorem all_airlines_keeps_inactive :
  all_airlines [mkAirline 1 "AA" "AAL" "N"] [(1, 0)]%Z = [None]
  /\ forall (raw : nat) (later : list nat),
       randomize_airline_list (raw :: later)
         (all_airlines [mkAirline 1 "AA" "AAL" "N"] [(1, 0)]%Z) [(1, 0)]%Z
       = Raised TypeError.
Proof.
  split; [reflexivity|].
  intros raw later. cbn.
  unfold randint. cbn. rewrite Z.mod_1_r. reflexivity.
Qed.

(** ** The optimal route *)

Lemma find_optimal_route_from_best_of (path_locations : list (list Position)) :
  forall (path_lists seen : list (list string)) (optimal_route : OptimalRoute),
    List.length path_locations = List.length path_lists ->
    find_optimal_route_from (List.length seen) path_locations (seen ++ path_lists)
      optimal_route
    = Returned (best_of (combine path_locations path_lists) optimal_route).
Proof.
  induction path_locations as [|positions rest IH];
    intros path_lists seen optimal_route Hlen.
  - reflexivity.
  - destruct path_lists as [|path paths]; [discriminate|].
    simpl in Hlen. injection Hlen as Hlen.
    assert (Hnth : nth_error (seen ++ path :: paths) (List.length seen) = Some path).
    { rewrite nth_error_app2, Nat.sub_diag by lia. reflexivity. }
    assert (Hnext : forall acc,
      find_optimal_route_from (S (List.length seen)) rest (seen ++ path :: paths) acc
      = Returned (best_of (combine rest paths) acc)).
    { intros acc. specialize (IH paths (seen ++ [path]) acc Hlen).
      rewrite length_app, Nat.add_1_r, <- app_assoc in IH. exact IH. }
    simpl. destruct (located positions) as [tuples|]; [|apply Hnext].
    unfold take_route. rewrite Hnth.
    destruct optimal_route as [[p best]|]; simpl.
    + destruct (Rgt_dec best (calculate_total_distance tuples)); simpl; apply Hnext.
    + apply Hnext.
Qed.

Lemma find_optimal_route_best_of (path_locations : list (list Position))
  (path_lists : list (list string)) :
  List.length path_locations = List.length path_lists ->
  find_optimal_route path_locations path_lists
  = Returned (best_of (combine path_locations path_lists) None).
Proof.
  intros Hlen. apply (find_optimal_route_from_best_of path_locations path_lists []).
  exact Hlen.
Qed.

Lemma best_of_located_only (candidates : list (list Position * list string)) :
  forall optimal_route,
    best_of candidates optimal_route
    = best_of (filter (fun c => isLocation (fst c)) candidates) optimal_route.
Proof.
  induction candidates as [|[positions path] rest IH]; intros acc; [reflexivity|].
  simpl. unfold isLocation.
  destruct (located positions) as [tuples|] eqn:L; simpl.
  - rewrite L. destruct acc as [[p best]|].
    + destruct (Rgt_dec best (calculate_total_distance tuples)); apply IH.
    + apply IH.
  - apply IH.
Qed.

Lemma combine_fst_snd_id {A B : Type} (l : list (A * B)) :
  combine (map fst l) (map snd l) = l.
Proof.
  induction l as [|[a b] l IH]; simpl; [reflexivity|]. rewrite IH. reflexivity.
Qed.

(** C3, as stated, fails: when the only candidate lacks a coordinate,
    [find_optimal_route] does return, and what it returns is the empty
    list. *)
Lemma find_optimal_route_returns_empty :
  find_optimal_route [[Some (0, 0)%R; None]] [["A"; "B"]] = Returned None.
Proof. reflexivity. Qed.

(** C3, amended. A candidate with a missing coordinate takes no part in the
    selection: the result is the one computed from the candidates whose
    coordinates are all known. When none is left, [find_optimal_route]
    returns the empty list, and it is [write_optimal_route] that fails, with
    an [IndexError], when it reads the path out of it. *)
Theorem find_optimal_route_skips_unlocated :
  forall (path_locations : list (list Position)) (path_lists : list (list string)),
    List.length path_locations = List.length path_lists ->
    let kept := filter (fun c => isLocation (fst c))
                  (combine path_locations path_lists) in
    find_optimal_route path_locations path_lists
      = find_optimal_route (map fst kept) (map snd kept)
    /\ (kept = [] ->
        find_optimal_route path_locations path_lists = Returned None
        /\ (optimal_route <- find_optimal_route path_locations path_lists ;;
            write_optimal_route_path optimal_route) = Raised IndexError).
Proof.
  intros path_locations path_lists Hlen kept.
  assert (Hkept : find_optimal_route path_locations path_lists
                  = Returned (best_of kept None)).
  { rewrite find_optimal_route_best_of by exact Hlen.
    rewrite best_of_located_only. reflexivity. }
  split.
  - rewrite Hkept, find_optimal_route_best_of by (now rewrite !length_map).
    rewrite combine_fst_snd_id.
    rewrite (best_of_located_only kept). unfold kept.
    set (keep := fun c : list Position * list string => isLocation (fst c)).
    assert (Hidem : forall l, filter keep (filter keep l) = filter keep l).
    { induction l as [|c l IH]; simpl; [reflexivity|].
      destruct (keep c) eqn:K; simpl; rewrite ?K, IH; reflexivity. }
    rewrite Hidem. reflexivity.
  - intros Hnone. rewrite Hkept, Hnone. split; reflexivity.
Qed.

Lemma find_optimal_route_skips_unlocated_witness :
  find_optimal_route [[Some (0, 0)%R; None]; [Some (1, 1)%R]] [["A"; "B"]; ["C"]]
    = find_optimal_route [[Some (1, 1)%R]] [["C"]]
  /\ find_optimal_route [[Some (0, 0)%R; None]; [None]] [["A"; "B"]; ["C"]]
     = Returned None
  /\ (optimal_route <- find_optimal_route [[Some (0, 0)%R; None]; [None]]
                         [["A"; "B"]; ["C"]] ;;
      write_optimal_route_path optimal_route) = Raised IndexError.
Proof.
  split.
  - exact (proj1 (find_optimal_route_skips_unlocated
                    [[Some (0, 0)%R; None]; [Some (1, 1)%R]] [["A"; "B"]; ["C"]]
                    eq_refl)).
  - exact (proj2 (find_optimal_route_skips_unlocated
                    [[Some (0, 0)%R; None]; [None]] [["A"; "B"]; ["C"]]
                    eq_refl) eq_refl).
Defined.

Lemma located_all (tuples : list Coordinate) : located (map Some tuples) = Some tuples.
Proof.
  induction tuples as [|c cs IH]; simpl; [reflexivity|]. rewrite IH. reflexivity.
Qed.

(** ** The selection on doubles *)

(** The comparison of doubles, on their specification: it is transitive,
    and a number that is not below [b] is above everything below [b]. *)
Lemma SFltb_trans (x y z : spec_float) :
  SFltb x y = true -> SFltb y z = true -> SFltb x z = true.
Proof.
  unfold SFltb, SFcompare.
  destruct x as [sx|sx| |sx mx ex], y as [sy|sy| |sy my ey], z as [sz|sz| |sz mz ez];
    try destruct sx; try destruct sy; try destruct sz;
    try discriminate; try reflexivity.
  all: destruct (Z.compare_spec ex ey), (Z.compare_spec ey ez),
         (Z.compare_spec ex ez);
    try discriminate; try reflexivity; try lia.
  all: subst.
  all: try (change (Pos.compare_cont Eq ?a ?b) with (Pos.compare a b)).
  all: destruct (Pos.compare_spec mx my), (Pos.compare_spec my mz),
         (Pos.compare_spec mx mz);
    simpl; try discriminate; try reflexivity; try lia.
Qed.

Lemma SFltb_between (d b x : spec_float) :
  SFltb d b = true -> SFltb x b = false -> SFeqb x x = true -> SFltb d x = true.
Proof.
  unfold SFltb, SFeqb, SFcompare.
  destruct d as [sd|sd| |sd md ed], b as [sb|sb| |sb mb eb], x as [sx|sx| |sx mx ex];
    try destruct sd; try destruct sb; try destruct sx;
    try discriminate; try reflexivity.
  all: destruct (Z.compare_spec ed eb), (Z.compare_spec ex eb),
         (Z.compare_spec ed ex), (Z.compare_spec ex ex);
    try discriminate; try reflexivity; try lia.
  all: subst.
  all: try (change (Pos.compare_cont Eq ?a ?b) with (Pos.compare a b)).
  all: destruct (Pos.compare_spec md mb), (Pos.compare_spec mx mb),
         (Pos.compare_spec md mx), (Pos.compare_spec mx mx);
    simpl; try discriminate; try reflexivity; try lia.
Qed.

Lemma double_ltb_trans (x y z : float) :
  (x <? y)%float = true -> (y <? z)%float = true -> (x <? z)%float = true.
Proof. rewrite !FloatAxioms.ltb_spec. apply SFltb_trans. Qed.

Lemma double_ltb_between (d b x : float) :
  (d <? b)%float = true -> (x <? b)%float = false -> is_nan x = false ->
  (d <? x)%float = true.
Proof.
  unfold is_nan. rewrite !FloatAxioms.ltb_spec, FloatAxioms.eqb_spec.
  intros H1 H2 H3. apply negb_false_iff in H3.
  exact (SFltb_between _ _ _ H1 H2 H3).
Qed.

Lemma double_ltb_irrefl (x : float) : (x <? x)%float = false.
Proof.
  rewrite FloatAxioms.ltb_spec. unfold SFltb, SFcompare.
  destruct (Prim2SF x) as [s|s| |s m e]; try destruct s; try reflexivity.
  - rewrite Z.compare_refl.
    change (Pos.compare_cont Eq m m) with (Pos.compare m m).
    rewrite Pos.compare_refl. reflexivity.
  - rewrite Z.compare_refl.
    change (Pos.compare_cont Eq m m) with (Pos.compare m m).
    rewrite Pos.compare_refl. reflexivity.
Qed.

(** What is not below [b] is not below anything below [b]. *)
Lemma double_ltb_not_below (d b x : float) :
  (d <? b)%float = true -> (x <? b)%float = false -> (x <? d)%float = false.
Proof.
  intros Hd Hx. destruct (x <? d)%float eqn:E; [|reflexivity].
  rewrite (double_ltb_trans _ _ _ E Hd) in Hx. discriminate.
Qed.

(** Nothing above [b] is below something that [s], below [b], is not
    below. *)
Lemma double_ltb_not_above (s b d : float) :
  (s <? b)%float = true -> (s <? d)%float = false -> (b <? d)%float = false.
Proof.
  intros Hs Hd. destruct (b <? d)%float eqn:E; [|reflexivity].
  rewrite (double_ltb_trans _ _ _ Hs E) in Hd. discriminate.
Qed.

Lemma doubles_located_all (tuples : list Doubles.Coordinate) :
  Doubles.located (map Some tuples) = Some tuples.
Proof.
  induction tuples as [|c cs IH]; simpl; [reflexivity|]. rewrite IH. reflexivity.
Qed.

Section Legs.

Variable calculate_distance :
  Doubles.Coordinate -> Doubles.Coordinate -> Outcome float.
Variable leg : Doubles.Coordinate -> Doubles.Coordinate -> float.

(** The sum of the legs of a path, added from the left. *)
Local Abbreviation summed tuples :=
  (fold_left PrimFloat.add (Doubles.legs leg tuples) 0%float).

Lemma add_distances_legs (path_list : list Doubles.Coordinate) :
  forall total_distance : float,
    (forall a b, In (a, b) (combine path_list (tl path_list)) ->
       calculate_distance a b = Returned (leg a b)) ->
    Doubles.add_distances calculate_distance total_distance path_list
    = Returned (fold_left PrimFloat.add (Doubles.legs leg path_list) total_distance).
Proof.
  induction path_list as [|a rest IH]; intros total Hlegs; [reflexivity|].
  destruct rest as [|b rest']; [reflexivity|].
  change (Doubles.add_distances calculate_distance total (a :: b :: rest'))
    with (distance <- calculate_distance a b ;;
          Doubles.add_distances calculate_distance (total + distance)%float
            (b :: rest')).
  rewrite (Hlegs a b) by (left; reflexivity).
  cbn [bind]. rewrite IH.
  - reflexivity.
  - intros x y Hin. apply Hlegs. right. exact Hin.
Qed.

Lemma calculate_total_distance_legs (path_list : list Doubles.Coordinate) :
  (forall a b, In (a, b) (combine path_list (tl path_list)) ->
     calculate_distance a b = Returned (leg a b)) ->
  Doubles.calculate_total_distance calculate_distance path_list
  = Returned (summed path_list).
Proof. apply add_distances_legs. Qed.

(** The loop of the selection from an incumbent on, over candidates whose
    coordinates are all known: the result is not above the incumbent nor
    above any candidate, and it is the incumbent or the first candidate
    below the incumbent that nothing later is below. *)
Lemma find_optimal_route_from_incumbent (coords : list (list Doubles.Coordinate)) :
  forall (path_lists seen : list (list string)) (p0 : list string) (d0 : float),
    List.length coords = List.length path_lists ->
    (forall tuples a b, In tuples coords ->
       In (a, b) (combine tuples (tl tuples)) ->
       calculate_distance a b = Returned (leg a b)) ->
    exists (p : list string) (d : float),
      Doubles.find_optimal_route_from calculate_distance (List.length seen)
        (map (map Some) coords) (seen ++ path_lists) (Some (p0, d0))
        = Returned (Some (p, d))
      /\ (d0 <? d)%float = false
      /\ (forall j other, nth_error coords j = Some other ->
            (summed other <? d)%float = false)
      /\ ((p = p0 /\ d = d0)
          \/ exists i tuples,
               nth_error path_lists i = Some p /\ nth_error coords i = Some tuples
               /\ d = summed tuples /\ (d <? d0)%float = true
               /\ forall j other, j < i -> nth_error coords j = Some other ->
                    is_nan (summed other) = false ->
                    (d <? summed other)%float = true).
Proof.
  induction coords as [|tuples rest IH]; intros paths seen p0 d0 Hlen Hlegs.
  - exists p0, d0. split; [reflexivity|]. split; [apply double_ltb_irrefl|].
    split; [|left; auto]. intros [|j] other H; discriminate.
  - destruct paths as [|path paths]; [discriminate|].
    simpl in Hlen. injection Hlen as Hlen.
    assert (Hnth : nth_error (seen ++ path :: paths) (List.length seen) = Some path).
    { rewrite nth_error_app2, Nat.sub_diag by lia. reflexivity. }
    assert (Hrest : forall tu a b, In tu rest ->
              In (a, b) (combine tu (tl tu)) ->
              calculate_distance a b = Returned (leg a b)).
    { intros tu a b Hin. apply Hlegs. right. exact Hin. }
    assert (Hnext : forall p1 d1,
      exists p d,
        Doubles.find_optimal_route_from calculate_distance (S (List.length seen))
          (map (map Some) rest) (seen ++ path :: paths) (Some (p1, d1))
          = Returned (Some (p, d))
        /\ (d1 <? d)%float = false
        /\ (forall j other, nth_error rest j = Some other ->
              (summed other <? d)%float = false)
        /\ ((p = p1 /\ d = d1)
            \/ exists i tu,
                 nth_error paths i = Some p /\ nth_error rest i = Some tu
                 /\ d = summed tu /\ (d <? d1)%float = true
                 /\ forall j other, j < i -> nth_error rest j = Some other ->
                      is_nan (summed other) = false ->
                      (d <? summed other)%float = true)).
    { intros p1 d1. specialize (IH paths (seen ++ [path]) p1 d1 Hlen Hrest).
      rewrite length_app, Nat.add_1_r, <- app_assoc in IH. exact IH. }
    change (map (map Some) (tuples :: rest))
      with (map Some tuples :: map (map Some) rest).
    cbn [Doubles.find_optimal_route_from].
    rewrite doubles_located_all.
    rewrite (calculate_total_distance_legs tuples)
      by (intros a b; apply Hlegs; left; reflexivity).
    cbn [bind].
    destruct (summed tuples <? d0)%float eqn:Hlt.
    + unfold Doubles.take_route. rewrite Hnth. cbn [bind].
      destruct (Hnext path (summed tuples)) as (p & d & Hrun & Hinc & Hall & Hwho).
      exists p, d. split; [exact Hrun|]. split.
      * exact (double_ltb_not_above _ _ _ Hlt Hinc).
      * split.
        -- intros [|j] other H; simpl in H; [injection H as <-; exact Hinc | eauto].
        -- right.
           destruct Hwho as [[-> ->]|(i & tu & Hp & Hc & Hd & Hbelow & Hbefore)].
           ++ exists 0, tuples. repeat split; try reflexivity; [exact Hlt|].
              intros j other Hj; lia.
           ++ exists (S i), tu. repeat split; try assumption.
              ** exact (double_ltb_trans _ _ _ Hbelow Hlt).
              ** intros [|j] other Hj H Hnan; simpl in H.
                 --- injection H as <-. exact Hbelow.
                 --- apply (Hbefore j); [lia | exact H | exact Hnan].
    + destruct (Hnext p0 d0) as (p & d & Hrun & Hinc & Hall & Hwho).
      exists p, d. split; [exact Hrun|]. split; [exact Hinc|]. split.
      * intros [|j] other H; simpl in H; [|eauto]. injection H as <-.
        destruct Hwho as [[_ ->]|(i & tu & _ & _ & _ & Hbelow & _)]; [exact Hlt|].
        exact (double_ltb_not_below _ _ _ Hbelow Hlt).
      * destruct Hwho as [[-> ->]|(i & tu & Hp & Hc & Hd & Hbelow & Hbefore)];
          [left; auto|].
        right. exists (S i), tu. repeat split; try assumption.
        intros [|j] other Hj H Hnan; simpl in H.
        -- injection H as <-. exact (double_ltb_between _ _ _ Hbelow Hlt Hnan).
        -- apply (Hbefore j); [lia | exact H | exact Hnan].
Qed.

End Legs.

(** C5. On a non-empty list of candidates whose coordinates are all known
    and between whose positions [calculate_distance] returns,
    [find_optimal_route], computing on doubles as the program does, returns
    one of the candidates together with the sum of the distances between
    its consecutive positions, added from the left.  No candidate has a
    smaller sum, and every candidate ahead of it in the list whose sum is a
    number has a strictly larger one: the incumbent gives way only to a
    strictly smaller sum, and of several candidates with exactly the least
    sum the first is returned. *)
Theorem find_optimal_route_first_minimum :
  forall (calculate_distance :
            Doubles.Coordinate -> Doubles.Coordinate -> Outcome float)
         (leg : Doubles.Coordinate -> Doubles.Coordinate -> float)
         (coords : list (list Doubles.Coordinate))
         (path_lists : list (list string)),
    coords <> [] ->
    List.length coords = List.length path_lists ->
    (forall tuples a b, In tuples coords ->
       In (a, b) (combine tuples (tl tuples)) ->
       calculate_distance a b = Returned (leg a b)) ->
    exists (i : nat) (path : list string) (tuples : list Doubles.Coordinate),
      Doubles.find_optimal_route calculate_distance (map (map Some) coords)
        path_lists
        = Returned
            (Some (path, fold_left PrimFloat.add (Doubles.legs leg tuples) 0%float))
      /\ nth_error path_lists i = Some path
      /\ nth_error coords i = Some tuples
      /\ (forall j other, nth_error coords j = Some other ->
            (fold_left PrimFloat.add (Doubles.legs leg other) 0
             <? fold_left PrimFloat.add (Doubles.legs leg tuples) 0)%float = false)
      /\ (forall j other, j < i -> nth_error coords j = Some other ->
            is_nan (fold_left PrimFloat.add (Doubles.legs leg other) 0%float) = false ->
            (fold_left PrimFloat.add (Doubles.legs leg tuples) 0
             <? fold_left PrimFloat.add (Doubles.legs leg other) 0)%float = true).
Proof.
  intros calculate_distance leg coords path_lists Hne Hlen Hlegs.
  destruct coords as [|tuples rest]; [congruence|].
  destruct path_lists as [|path paths]; [discriminate|].
  simpl in Hlen. injection Hlen as Hlen.
  destruct (find_optimal_route_from_incumbent calculate_distance leg rest paths
              [path] path (fold_left PrimFloat.add (Doubles.legs leg tuples) 0%float)
              Hlen)
    as (p & d & Hrun & Hinc & Hall & Hwho).
  { intros tu a b Hin. apply Hlegs. right. exact Hin. }
  assert (Hstart :
    Doubles.find_optimal_route calculate_distance
      (map (map Some) (tuples :: rest)) (path :: paths)
    = Returned (Some (p, d))).
  { unfold Doubles.find_optimal_route.
    change (map (map Some) (tuples :: rest))
      with (map Some tuples :: map (map Some) rest).
    cbn [Doubles.find_optimal_route_from].
    rewrite doubles_located_all.
    rewrite (calculate_total_distance_legs calculate_distance leg tuples)
      by (intros a b; apply Hlegs; left; reflexivity).
    exact Hrun. }
  destruct Hwho as [[-> ->]|(i & tu & Hp & Hc & Hd & Hbelow & Hbefore)].
  - exists 0, path, tuples. split; [exact Hstart|].
    repeat split; try reflexivity.
    + intros [|j] other H; simpl in H; [injection H as <- | eauto].
      apply double_ltb_irrefl.
    + intros j other Hj; lia.
  - exists (S i), p, tu. subst d. split; [exact Hstart|].
    repeat split; try assumption.
    + intros [|j] other H; simpl in H; [injection H as <- | eauto].
      exact Hinc.
    + intros [|j] other Hj H Hnan; simpl in H.
      * injection H as <-. exact Hbelow.
      * apply (Hbefore j); [lia | exact H | exact Hnan].
Qed.

Lemma find_optimal_route_first_minimum_witness :
  exists (i : nat) (path : list string) (tuples : list Doubles.Coordinate),
    Doubles.find_optimal_route
      (fun a b => Returned (abs (fst b - fst a) + abs (snd b - snd a))%float)
      (map (map Some)
         [[(9007199254740992, 2); (9007199254740992, 1); (9007199254740992, 0);
           (0, 0)];
          [(0, 0); (9007199254740992, 0); (9007199254740992, 1);
           (9007199254740992, 2)];
          [(0, 0); (9007199254740992, 0); (9007199254740992, 1);
           (9007199254740992, 2)]]%float)
      [["D"; "C"; "B"; "A"]; ["A"; "B"; "C"; "D"]; ["A"; "E"; "C"; "D"]]
      = Returned
          (Some (path,
                 fold_left PrimFloat.add
                   (Doubles.legs
                      (fun a b => abs (fst b - fst a) + abs (snd b - snd a))%float
                      tuples) 0%float))
    /\ nth_error [["D"; "C"; "B"; "A"]; ["A"; "B"; "C"; "D"]; ["A"; "E"; "C"; "D"]] i
       = Some path
    /\ nth_error
         [[(9007199254740992, 2); (9007199254740992, 1); (9007199254740992, 0);
           (0, 0)];
          [(0, 0); (9007199254740992, 0); (9007199254740992, 1);
           (9007199254740992, 2)];
          [(0, 0); (9007199254740992, 0); (9007199254740992, 1);
           (9007199254740992, 2)]]%float i = Some tuples
    /\ (forall j other,
          nth_error
            [[(9007199254740992, 2); (9007199254740992, 1); (9007199254740992, 0);
              (0, 0)];
             [(0, 0); (9007199254740992, 0); (9007199254740992, 1);
              (9007199254740992, 2)];
             [(0, 0); (9007199254740992, 0); (9007199254740992, 1);
              (9007199254740992, 2)]]%float j = Some other ->
          (fold_left PrimFloat.add
             (Doubles.legs
                (fun a b => abs (fst b - fst a) + abs (snd b - snd a))%float other) 0
           <? fold_left PrimFloat.add
                (Doubles.legs
                   (fun a b => abs (fst b - fst a) + abs (snd b - snd a))%float
                   tuples) 0)%float = false)
    /\ (forall j other, j < i ->
          nth_error
            [[(9007199254740992, 2); (9007199254740992, 1); (9007199254740992, 0);
              (0, 0)];
             [(0, 0); (9007199254740992, 0); (9007199254740992, 1);
              (9007199254740992, 2)];
             [(0, 0); (9007199254740992, 0); (9007199254740992, 1);
              (9007199254740992, 2)]]%float j = Some other ->
          is_nan
            (fold_left PrimFloat.add
               (Doubles.legs
                  (fun a b => abs (fst b - fst a) + abs (snd b - snd a))%float
                  other) 0%float) = false ->
          (fold_left PrimFloat.add
             (Doubles.legs
                (fun a b => abs (fst b - fst a) + abs (snd b - snd a))%float
                tuples) 0
           <? fold_left PrimFloat.add
                (Doubles.legs
                   (fun a b => abs (fst b - fst a) + abs (snd b - snd a))%float
                   other) 0)%float = true).
Proof.
  apply (find_optimal_route_first_minimum
           (fun a b => Returned (abs (fst b - fst a) + abs (snd b - snd a))%float)
           (fun a b => abs (fst b - fst a) + abs (snd b - snd a))%float).
  - discriminate.
  - reflexivity.
  - reflexivity.
Defined.

(** On doubles a path and the same path flown backwards need not have the
    same sum: here the first candidate sums to [2^53 + 2] and its reverse
    to [2^53], so the second candidate replaces the first, and the third,
    with exactly the sum of the second, does not replace it. *)
Lemma find_optimal_route_doubles_reversed_path :
  Doubles.find_optimal_route
    (fun a b => Returned (abs (fst b - fst a) + abs (snd b - snd a))%float)
    (map (map Some)
       [[(9007199254740992, 2); (9007199254740992, 1); (9007199254740992, 0);
         (0, 0)];
        [(0, 0); (9007199254740992, 0); (9007199254740992, 1);
         (9007199254740992, 2)];
        [(0, 0); (9007199254740992, 0); (9007199254740992, 1);
         (9007199254740992, 2)]]%float)
    [["D"; "C"; "B"; "A"]; ["A"; "B"; "C"; "D"]; ["A"; "E"; "C"; "D"]]
  = Returned (Some (["A"; "B"; "C"; "D"], 9007199254740992%float)).
Proof. vm_compute. reflexivity. Qed.

(** ** Trees *)

Lemma Node_children_ind (P : Node -> Prop) :
  (forall nm cs, Forall P cs -> P (mkNode nm cs)) -> forall n, P n.
Proof.
  intros H. fix IH 1. intros [nm cs]. apply H.
  induction cs as [|c cs IHcs]; constructor; [apply IH | exact IHcs].
Qed.

Lemma side_eqb_eq (a b : Side) : side_eqb a b = true <-> a = b.
Proof. destruct a, b; simpl; split; congruence. Qed.

Lemma step_eqb_eq (a b : Step) : step_eqb a b = true <-> a = b.
Proof.
  destruct a as [i s], b as [j u]. unfold step_eqb. simpl.
  rewrite andb_true_iff, Nat.eqb_eq, String.eqb_eq. split.
  - intros [-> ->]. reflexivity.
  - intros H. injection H as -> ->. auto.
Qed.

Lemma steps_eqb_eq (p q : list Step) : steps_eqb p q = true <-> p = q.
Proof.
  revert q. induction p as [|a p IH]; intros [|b q]; simpl;
    try (split; congruence).
  rewrite andb_true_iff, step_eqb_eq, IH. split.
  - intros [-> ->]. reflexivity.
  - intros H. injection H as -> ->. auto.
Qed.

Lemma ref_eqb_tree (a b : NodeRef) : ref_eqb a b = true -> ref_tree a = ref_tree b.
Proof.
  unfold ref_eqb. rewrite andb_true_iff, side_eqb_eq. tauto.
Qed.

Lemma in_flat_mapi {A B : Type} (f : nat -> A -> list B) (l : list A) :
  forall (j : nat) (b : B),
    In b (flat_mapi f j l) <->
    exists n a, nth_error l n = Some a /\ In b (f (j + n) a).
Proof.
  induction l as [|a l IH]; intros j b; simpl.
  - split; [tauto|]. intros ([|n] & a & H & _); discriminate.
  - rewrite in_app_iff, IH. split.
    + intros [H|(n & a' & Hn & Hb)].
      * exists 0, a. rewrite Nat.add_0_r. auto.
      * exists (S n), a'. rewrite Nat.add_succ_r. auto.
    + intros ([|n] & a' & Hn & Hb); simpl in Hn.
      * injection Hn as <-. rewrite Nat.add_0_r in Hb. auto.
      * right. exists n, a'. rewrite Nat.add_succ_r in Hb. auto.
Qed.

Lemma leaves_at_children (t : Side) (above : list Step) (i : nat)
  (nm : string) (c : Node) (cs : list Node) (r : NodeRef) :
  In r (leaves_at t above i (mkNode nm (c :: cs))) <->
  exists n child, nth_error (c :: cs) n = Some child
                  /\ In r (leaves_at t (above ++ [(i, nm)]) n child).
Proof.
  change (leaves_at t above i (mkNode nm (c :: cs)))
    with (flat_mapi (fun j ch => leaves_at t (above ++ [(i, nm)]) j ch) 0 (c :: cs)).
  rewrite in_flat_mapi. reflexivity.
Qed.

(** Every leaf found below a node lies in the tree asked for, and its path
    runs through that node. *)
Lemma leaves_at_shape (t : Side) (n : Node) :
  forall (above : list Step) (i : nat) (r : NodeRef),
    In r (leaves_at t above i n) ->
    ref_tree r = t
    /\ exists below, ref_path r = above ++ (i, name n) :: below
                     /\ (below = [] <-> children n = []).
Proof.
  induction n as [nm cs IH] using Node_children_ind. intros above i r Hin.
  destruct cs as [|c cs].
  - simpl in Hin. destruct Hin as [<-|[]]. split; [reflexivity|].
    exists []. simpl. tauto.
  - apply leaves_at_children in Hin. destruct Hin as (n & child & Hn & Hr).
    rewrite Forall_forall in IH.
    destruct (IH child (nth_error_In _ _ Hn) _ _ _ Hr) as [Ht (below & Hp & _)].
    split; [exact Ht|].
    exists ((n, name child) :: below). rewrite Hp, <- app_assoc. simpl.
    split; [reflexivity|]. split; discriminate.
Qed.

Lemma leaves_tree (t : Side) (n : Node) (r : NodeRef) :
  In r (leaves t n) -> ref_tree r = t.
Proof. intros H. apply (leaves_at_shape t n [] 0 r H). Qed.

Lemma leaves_nonempty (t : Side) (n : Node) :
  forall above i, leaves_at t above i n <> [].
Proof.
  induction n as [nm cs IH] using Node_children_ind. intros above i.
  destruct cs as [|c cs]; [simpl; discriminate|].
  change (leaves_at t above i (mkNode nm (c :: cs)))
    with (leaves_at t (above ++ [(i, nm)]) 0 c
          ++ flat_mapi (fun j ch => leaves_at t (above ++ [(i, nm)]) j ch) 1 cs).
  rewrite Forall_forall in IH.
  intros H. apply app_eq_nil in H. destruct H as [H _].
  exact (IH c (or_introl eq_refl) _ _ H).
Qed.

Lemma height_leaf_iff (n : Node) : height n = 0 <-> children n = [].
Proof.
  destruct n as [nm [|c cs]]; simpl; split; congruence.
Qed.

(** *** The tree of all routes of bounded length *)

Lemma in_list_max (h : nat) (l : list nat) : In h l -> h <= list_max l.
Proof.
  intros H.
  assert (F : Forall (fun k => k <= list_max l) l) by (apply list_max_le; lia).
  rewrite Forall_forall in F. apply F, H.
Qed.

Lemma name_unfold_tree (nbr : string -> list string) (k : nat) (x : string) :
  name (unfold_tree nbr k x) = x.
Proof. destruct k; reflexivity. Qed.

Lemma height_unfold_tree_le (nbr : string -> list string) (k : nat) :
  forall x, height (unfold_tree nbr k x) <= k.
Proof.
  induction k as [|k IH]; intros x; simpl; [lia|].
  destruct (map (unfold_tree nbr k) (nbr x)) as [|c cs] eqn:E; [lia|].
  apply le_n_S. rewrite <- E. apply list_max_le.
  rewrite Forall_forall. intros h Hh.
  apply in_map_iff in Hh. destruct Hh as (c' & <- & Hc').
  apply in_map_iff in Hc'. destruct Hc' as (y & <- & _). apply IH.
Qed.

Lemma expand_leaves_unfold_tree (nbr : string -> list string) (k : nat) :
  forall x, expand_leaves nbr (unfold_tree nbr k x) = unfold_tree nbr (S k) x.
Proof.
  induction k as [|k IH]; intros x; [reflexivity|].
  change (unfold_tree nbr (S k) x) with (mkNode x (map (unfold_tree nbr k) (nbr x))).
  change (unfold_tree nbr (S (S k)) x)
    with (mkNode x (map (unfold_tree nbr (S k)) (nbr x))).
  destruct (nbr x) as [|y ys] eqn:E; [simpl; rewrite E; reflexivity|].
  simpl. rewrite IH. f_equal. f_equal.
  rewrite map_map. apply map_ext. exact IH.
Qed.

(** One more level either leaves the tree as it is, or makes it one
    higher. *)
Lemma unfold_tree_grows (nbr : string -> list string) (k : nat) :
  forall x, unfold_tree nbr (S k) x = unfold_tree nbr k x
            \/ height (unfold_tree nbr (S k) x) = S k.
Proof.
  induction k as [|k IH]; intros x.
  - simpl. destruct (nbr x) as [|y ys]; [left; reflexivity | right].
    simpl. f_equal. apply Nat.le_0_r.
    change (Nat.max 0 (list_max (map height (map (unfold_tree nbr 0) ys))))
      with (list_max (map height (map (unfold_tree nbr 0) (y :: ys)))).
    apply list_max_le. rewrite Forall_forall. intros h Hh.
    apply in_map_iff in Hh. destruct Hh as (c & <- & Hc).
    apply in_map_iff in Hc. destruct Hc as (z & <- & _). simpl. lia.
  - change (unfold_tree nbr (S k) x) with (mkNode x (map (unfold_tree nbr k) (nbr x))).
    change (unfold_tree nbr (S (S k)) x)
      with (mkNode x (map (unfold_tree nbr (S k)) (nbr x))).
    assert (Hcases : (forall y, In y (nbr x) ->
                        unfold_tree nbr (S k) y = unfold_tree nbr k y)
                     \/ exists y, In y (nbr x)
                                  /\ height (unfold_tree nbr (S k) y) = S k).
    { induction (nbr x) as [|y ys IHys]; [left; intros y []|].
      destruct (IH y) as [Hy|Hy].
      - destruct IHys as [Hall|(z & Hz & Hh)].
        + left. intros z [<-|Hz]; auto.
        + right. exists z. split; [right|]; assumption.
      - right. exists y. split; [left; reflexivity | exact Hy]. }
    destruct Hcases as [Hall|(y & Hy & Hh)].
    + left. f_equal. apply map_ext_in. exact Hall.
    + right.
      assert (Hle := height_unfold_tree_le nbr (S (S k)) x).
      change (unfold_tree nbr (S (S k)) x)
        with (mkNode x (map (unfold_tree nbr (S k)) (nbr x))) in Hle.
      assert (Hge : S k <= list_max (map height (map (unfold_tree nbr (S k)) (nbr x)))).
      { assert (Hin : In (height (unfold_tree nbr (S k) y))
                         (map height (map (unfold_tree nbr (S k)) (nbr x))))
          by apply in_map, in_map, Hy.
        apply in_list_max in Hin. rewrite Hh in Hin. exact Hin. }
      destruct (map (unfold_tree nbr (S k)) (nbr x)) as [|c cs] eqn:E.
      * simpl in Hge. lia.
      * simpl in Hle |- *. simpl in Hge. lia.
Qed.

(** ** Routes of the graph *)

Lemma chain_cons (nbr : string -> list string) (a b : string) (l : list string) :
  chain nbr (a :: b :: l) <-> In b (nbr a) /\ chain nbr (b :: l).
Proof. reflexivity. Qed.

Lemma chain_tail (nbr : string -> list string) (a : string) (l : list string) :
  chain nbr (a :: l) -> chain nbr l.
Proof. destruct l as [|b l]; [intros _; exact I | intros [_ H]; exact H]. Qed.

Lemma chain_suffix (nbr : string -> list string) (l1 l2 : list string) :
  chain nbr (l1 ++ l2) -> chain nbr l2.
Proof.
  induction l1 as [|a l1 IH]; [auto|]. intros H. apply IH.
  exact (chain_tail nbr a _ H).
Qed.

Lemma chain_prefix (nbr : string -> list string) (l1 l2 : list string) :
  chain nbr (l1 ++ l2) -> chain nbr l1.
Proof.
  induction l1 as [|a l1 IH]; [intros _; exact I|].
  destruct l1 as [|b l1]; [intros _; exact I|].
  intros [Hab H]. split; [exact Hab | apply IH, H].
Qed.

Lemma chain_join (nbr : string -> list string) (l1 l2 : list string) (v : string) :
  chain nbr (l1 ++ [v]) -> chain nbr (v :: l2) -> chain nbr (l1 ++ v :: l2).
Proof.
  induction l1 as [|a l1 IH]; [intros _ H; exact H|].
  intros H1 H2. destruct l1 as [|b l1].
  - destruct H1 as [Hav _]. split; [exact Hav | exact H2].
  - destruct H1 as [Hab H1]. split; [exact Hab | apply IH; assumption].
Qed.

Lemma chain_rev (nbr nbr' : string -> list string) (l : list string) :
  (forall a b, In b (nbr a) -> In a (nbr' b)) ->
  chain nbr l -> chain nbr' (rev l).
Proof.
  intros Hflip. induction l as [|a l IH]; [intros _; exact I|].
  intros H. destruct l as [|b l]; [exact I|].
  destruct H as [Hab H]. specialize (IH H).
  change (rev (a :: b :: l)) with ((rev l ++ [b]) ++ [a]).
  rewrite <- app_assoc. apply chain_join; [exact IH|].
  split; [apply Hflip, Hab | exact I].
Qed.

Lemma find_possible_destinations_In (routes_csv : list Route) (a b : string) :
  In b (find_possible_destinations routes_csv a) <->
  exists route, In route routes_csv
                /\ route_source route = a /\ route_dest route = b.
Proof.
  unfold find_possible_destinations, py_set.
  rewrite nodup_In, in_map_iff. split.
  - intros (r & Hb & Hr). apply filter_In in Hr. destruct Hr as [Hr Ha].
    apply String.eqb_eq in Ha. exists r. auto.
  - intros (r & Hr & Ha & Hb). exists r. split; [exact Hb|].
    apply filter_In. split; [exact Hr | apply String.eqb_eq, Ha].
Qed.

Lemma find_possible_starts_In (routes_csv : list Route) (a b : string) :
  In a (find_possible_starts routes_csv b) <->
  exists route, In route routes_csv
                /\ route_source route = a /\ route_dest route = b.
Proof.
  unfold find_possible_starts, py_set.
  rewrite nodup_In, in_map_iff. split.
  - intros (r & Ha & Hr). apply filter_In in Hr. destruct Hr as [Hr Hb].
    apply String.eqb_eq in Hb. exists r. auto.
  - intros (r & Hr & Ha & Hb). exists r. split; [exact Ha|].
    apply filter_In. split; [exact Hr | apply String.eqb_eq, Hb].
Qed.

(** The two neighbour queries read the same edges in opposite directions. *)
Lemma starts_destinations (routes_csv : list Route) (a b : string) :
  In a (find_possible_starts routes_csv b) <->
  In b (find_possible_destinations routes_csv a).
Proof.
  rewrite find_possible_starts_In, find_possible_destinations_In. reflexivity.
Qed.

Lemma last_cons_default {A : Type} (l : list A) :
  forall a d : A, last (a :: l) d = last l a.
Proof.
  induction l as [|b l IH]; intros a d; [reflexivity|].
  change (last (a :: b :: l) d) with (last (b :: l) d).
  rewrite (IH b d), (IH b a). reflexivity.
Qed.

Lemma last_error_last {A : Type} (l : list A) (a d : A) :
  last_error (a :: l) = Some (last (a :: l) d).
Proof. simpl last_error. rewrite last_cons_default. reflexivity. Qed.

Lemma last_error_app {A : Type} (l : list A) (a : A) :
  last_error (l ++ [a]) = Some a.
Proof.
  destruct l as [|b l]; [reflexivity|].
  simpl. rewrite last_last. reflexivity.
Qed.

Lemma last_error_cons {A : Type} (l : list A) (a b : A) :
  last_error (a :: b :: l) = last_error (b :: l).
Proof. unfold last_error. rewrite last_cons_default. reflexivity. Qed.

Lemma last_error_suffix {A : Type} (l1 l2 : list A) :
  l2 <> [] -> last_error (l1 ++ l2) = last_error l2.
Proof.
  intros Hne. induction l1 as [|a l1 IH]; [reflexivity|].
  simpl app. destruct (l1 ++ l2) as [|b l] eqn:E.
  - apply app_eq_nil in E. destruct E; congruence.
  - rewrite last_error_cons. exact IH.
Qed.

(** A route that visits a code twice can be cut short. *)
Lemma chain_shorten (nbr : string -> list string) (codes : list string) :
  forall x, chain nbr (x :: codes) ->
    NoDup (x :: codes)
    \/ exists codes', chain nbr (x :: codes')
                      /\ last_error (x :: codes') = last_error (x :: codes)
                      /\ List.length codes' < List.length codes.
Proof.
  induction codes as [|y codes IH]; intros x H.
  - left. constructor; [intros [] | constructor].
  - destruct H as [Hxy H].
    destruct (IH y H) as [Hnd|(codes' & Hc & Hl & Hlen)].
    + destruct (in_dec string_dec x (y :: codes)) as [Hin|Hout].
      * right. apply in_split in Hin. destruct Hin as (l1 & l2 & E).
        exists l2. split; [|split].
        -- rewrite E in H. exact (chain_suffix nbr l1 _ H).
        -- rewrite E.
           change (x :: l1 ++ x :: l2) with ((x :: l1) ++ x :: l2).
           rewrite last_error_suffix by discriminate. reflexivity.
        -- rewrite E, length_app. simpl. lia.
      * left. constructor; assumption.
    + right. exists (y :: codes'). split; [|split].
      * split; [exact Hxy | exact Hc].
      * rewrite !last_error_cons. exact Hl.
      * simpl. lia.
Qed.

(** A shortest route visits no code twice. *)
Lemma shortest_route_NoDup (routes_csv : list Route) (start stop : string)
  (codes : list string) :
  connects routes_csv start stop codes ->
  (forall other, connects routes_csv start stop other ->
     List.length codes <= List.length other) ->
  NoDup codes.
Proof.
  intros (Hc & Hs & Hd) Hmin.
  destruct codes as [|x codes]; [constructor|].
  destruct (chain_shorten _ codes x Hc) as [Hnd|(codes' & Hc' & Hl & Hlen)];
    [exact Hnd|].
  exfalso.
  assert (Hother : connects routes_csv start stop (x :: codes')).
  { split; [exact Hc'|]. split; [exact Hs | rewrite Hl; exact Hd]. }
  specialize (Hmin _ Hother). simpl in Hmin. lia.
Qed.

(** ** The leaves of a search tree *)

Lemma last_map_snd (p : list Step) (d : Step) :
  last (map snd p) (snd d) = snd (last p d).
Proof.
  induction p as [|a p IH]; [reflexivity|].
  destruct p as [|b p]; [reflexivity|]. exact IH.
Qed.

Lemma ref_name_last (r : NodeRef) : ref_name r = last (ref_names r) "".
Proof. unfold ref_name, ref_names. symmetry. apply (last_map_snd _ (0, "")). Qed.

Lemma item_name_node_path (r : NodeRef) :
  map item_name (node_path r) = ref_names r.
Proof. unfold node_path, ref_names. rewrite map_map. reflexivity. Qed.

(** The path of a leaf of the tree of depth [k] is a chain of neighbours
    from the root, of at most [k] hops; a leaf higher up is a code without
    neighbours. *)
Lemma leaves_unfold_sound (nbr : string -> list string) (t : Side) (k : nat) :
  forall (x : string) (above : list Step) (i : nat) (r : NodeRef),
    In r (leaves_at t above i (unfold_tree nbr k x)) ->
    exists codes,
      ref_names r = map snd above ++ x :: codes
      /\ chain nbr (x :: codes)
      /\ List.length codes <= k
      /\ (List.length codes = k \/ nbr (last codes x) = []).
Proof.
  induction k as [|k IH]; intros x above i r Hin.
  - simpl in Hin. destruct Hin as [<-|[]]. exists [].
    unfold ref_names. simpl. rewrite map_app. simpl. auto.
  - change (unfold_tree nbr (S k) x)
      with (mkNode x (map (unfold_tree nbr k) (nbr x))) in Hin.
    destruct (map (unfold_tree nbr k) (nbr x)) as [|c cs] eqn:E.
    + simpl in Hin. destruct Hin as [<-|[]]. exists [].
      unfold ref_names. simpl. rewrite map_app. simpl.
      repeat split; [lia|]. right. destruct (nbr x); [reflexivity | discriminate].
    + apply leaves_at_children in Hin. destruct Hin as (n & child & Hn & Hr).
      rewrite <- E in Hn. apply nth_error_In in Hn.
      apply in_map_iff in Hn. destruct Hn as (y & <- & Hy).
      destruct (IH _ _ _ _ Hr) as (codes & Hnames & Hc & Hlen & Hend).
      exists (y :: codes).
      split; [rewrite Hnames, map_app, <- app_assoc; reflexivity|].
      split; [split; assumption|].
      split; [simpl; lia|]. rewrite last_cons_default. simpl List.length.
      destruct Hend as [Hend|Hend]; [left; lia | right; exact Hend].
Qed.

(** Every chain of [k] hops from the root is the path of a leaf. *)
Lemma leaves_unfold_complete (nbr : string -> list string) (t : Side) (k : nat) :
  forall (x : string) (codes : list string) (above : list Step) (i : nat),
    chain nbr (x :: codes) ->
    List.length codes = k ->
    exists r, In r (leaves_at t above i (unfold_tree nbr k x))
              /\ ref_names r = map snd above ++ x :: codes.
Proof.
  induction k as [|k IH]; intros x codes above i Hc Hlen.
  - destruct codes; [|discriminate]. eexists. split; [left; reflexivity|].
    unfold ref_names. simpl. rewrite map_app. reflexivity.
  - destruct codes as [|y codes]; [discriminate|].
    destruct Hc as [Hy Hc]. injection Hlen as Hlen.
    change (unfold_tree nbr (S k) x)
      with (mkNode x (map (unfold_tree nbr k) (nbr x))).
    destruct (In_nth_error _ _ Hy) as [n Hn].
    apply (map_nth_error (unfold_tree nbr k)) in Hn.
    destruct (map (unfold_tree nbr k) (nbr x)) as [|c cs] eqn:E;
      [destruct n; discriminate|].
    destruct (IH y codes (above ++ [(i, x)]) n Hc Hlen) as (r & Hr & Hnames).
    exists r. split.
    + apply leaves_at_children. exists n, (unfold_tree nbr k y). auto.
    + rewrite Hnames, map_app, <- app_assoc. reflexivity.
Qed.

Lemma leaves_unfold_names (nbr : string -> list string) (t : Side) (k : nat)
  (x : string) (r : NodeRef) :
  In r (leaves t (unfold_tree nbr k x)) ->
  exists codes,
    ref_names r = x :: codes
    /\ chain nbr (x :: codes)
    /\ List.length codes <= k
    /\ (List.length codes = k \/ nbr (last codes x) = []).
Proof. intros H. exact (leaves_unfold_sound nbr t k x [] 0 r H). Qed.

Lemma leaves_unfold_reach (nbr : string -> list string) (t : Side) (k : nat)
  (x : string) (codes : list string) :
  chain nbr (x :: codes) -> List.length codes = k ->
  exists r, In r (leaves t (unfold_tree nbr k x)) /\ ref_names r = x :: codes.
Proof. intros Hc Hlen. exact (leaves_unfold_complete nbr t k x codes [] 0 Hc Hlen). Qed.

(** ** One activation of [find_routes] *)

Lemma py_in_codes (x : string) (l : list string) :
  py_in (EStr x) (map EStr l) = true <-> In x l.
Proof.
  unfold py_in. rewrite existsb_exists. split.
  - intros (e & He & Hx). apply in_map_iff in He. destruct He as (y & <- & Hy).
    simpl in Hx. apply String.eqb_eq in Hx. subst. exact Hy.
  - intros H. exists (EStr x). split; [apply in_map, H | apply String.eqb_refl].
Qed.

Lemma py_in_code_nodes (x : string) (l : list NodeRef) :
  py_in (EStr x) (map ENode l) = false.
Proof. unfold py_in. induction l as [|r l IH]; [reflexivity | exact IH]. Qed.

(** Nodes of the stop tree are not found among nodes of the start tree. *)
Lemma compare_nodes_apart (a b : list NodeRef) :
  (forall r, In r a -> ref_tree r = StopTree) ->
  (forall r, In r b -> ref_tree r = StartTree) ->
  compare (map ENode a) (map ENode b) = [].
Proof.
  intros Ha Hb. unfold compare.
  induction a as [|r a IH]; [reflexivity|].
  simpl. replace (py_in (ENode r) (map ENode b)) with false.
  - apply IH. intros r' Hr'. apply Ha. right. exact Hr'.
  - symmetry. apply not_true_is_false. intros H.
    unfold py_in in H. apply existsb_exists in H. destruct H as (e & He & Heq).
    apply in_map_iff in He. destruct He as (r' & <- & Hr').
    simpl in Heq. apply ref_eqb_tree in Heq.
    rewrite (Ha r (or_introl eq_refl)), (Hb r' Hr') in Heq. discriminate.
Qed.

Lemma compare_leaves (start_node stop_node : Node) :
  compare (map ENode (leaves StopTree stop_node))
          (map ENode (leaves StartTree start_node)) = [].
Proof. apply compare_nodes_apart; intros r; apply leaves_tree. Qed.

Lemma compare_node_row_nodes (n : NodeRef) (b : list NodeRef) :
  compare_node_row (ENode n) (map ENode b)
  = Returned (flat_map (fun n2 =>
      if (ref_name n2 =? ref_name n)%string
      then [((n, ref_parent n), (n2, ref_parent n2))] else []) b).
Proof.
  induction b as [|n2 b IH]; [reflexivity|].
  simpl. rewrite IH. simpl.
  destruct (ref_name n2 =? ref_name n)%string; reflexivity.
Qed.

Lemma compare_node_nodes (a b : list NodeRef) :
  compare_node (map ENode a) (map ENode b) = Returned (matches_of a b).
Proof.
  induction a as [|n a IH]; [reflexivity|].
  simpl. rewrite compare_node_row_nodes, IH. reflexivity.
Qed.

Lemma in_matches_of (a b : list NodeRef) (m : WithParent * WithParent) :
  In m (matches_of a b) <->
  exists n n2, In n a /\ In n2 b /\ ref_name n2 = ref_name n
               /\ m = ((n, ref_parent n), (n2, ref_parent n2)).
Proof.
  unfold matches_of. rewrite in_flat_map. split.
  - intros (n & Hn & H). apply in_flat_map in H. destruct H as (n2 & Hn2 & H).
    destruct (ref_name n2 =? ref_name n)%string eqn:E; [|destruct H].
    destruct H as [<-|[]]. apply String.eqb_eq in E. exists n, n2. auto.
  - intros (n & n2 & Hn & Hn2 & E & ->). exists n. split; [exact Hn|].
    apply in_flat_map. exists n2. split; [exact Hn2|].
    apply String.eqb_eq in E. rewrite E. left. reflexivity.
Qed.

(** *** A direct route *)

Lemma find_routes_body_direct (routes_csv : list Route) (start stop : string)
  (start_list destination_list : list Elem) (start_node stop_node : Node) :
  py_in (EStr stop) start_list = true ->
  find_routes_body routes_csv start stop start_list destination_list
    start_node stop_node = Done (Returned [[start; stop]]).
Proof. intros H. unfold find_routes_body. rewrite H. reflexivity. Qed.

(** C6. When the destination is among the codes [find_possible_destinations]
    gives for the start, the first activation of [find_routes] returns the
    one path of the two codes: it neither matches leaves nor adds a level
    to a tree, and any budget of at least one activation is enough. *)
Theorem direct_route_returned_at_once :
  forall (routes_csv : list Route) (start_code destination_code : string)
         (budget : nat),
    In destination_code (find_possible_destinations routes_csv start_code) ->
    find_routes_body routes_csv start_code destination_code
      (map EStr (find_possible_destinations routes_csv start_code))
      (map EStr (find_possible_starts routes_csv destination_code))
      (build_search_tree (leaf start_code)
         (find_possible_destinations routes_csv start_code)
         (find_possible_destinations routes_csv))
      (build_search_tree (leaf destination_code)
         (find_possible_starts routes_csv destination_code)
         (find_possible_starts routes_csv))
    = Done (Returned [[start_code; destination_code]])
    /\ all_possible_routes routes_csv (S budget) start_code destination_code
       = Returned [[start_code; destination_code]].
Proof.
  intros routes_csv start_code destination_code budget Hin.
  apply py_in_codes in Hin. split.
  - apply find_routes_body_direct, Hin.
  - unfold all_possible_routes. simpl find_routes.
    rewrite find_routes_body_direct by exact Hin. reflexivity.
Qed.

Lemma direct_route_returned_at_once_witness :
  all_possible_routes
    [mkRoute 24 "ACC" "LOS" 0; mkRoute 24 "LOS" "NBO" 1; mkRoute 7 "ACC" "NBO" 2]
    (S 0) "ACC" "NBO"
  = Returned [["ACC"; "NBO"]].
Proof.
  apply (direct_route_returned_at_once
           [mkRoute 24 "ACC" "LOS" 0; mkRoute 24 "LOS" "NBO" 1; mkRoute 7 "ACC" "NBO" 2]
           "ACC" "NBO" 0).
  vm_compute. right. left. reflexivity.
Defined.

(** *** Which tree grows *)

Lemma after_matching_call (routes_csv : list Route)
  (matched : list (WithParent * WithParent)) (start_node stop_node : Node)
  (sl dl : list Elem) (sn dn : Node) :
  after_matching routes_csv matched start_node stop_node = Call sl dl sn dn ->
  matched = []
  /\ sl = map ENode (leaves StartTree sn)
  /\ dl = map ENode (leaves StopTree dn)
  /\ (height start_node = height stop_node ->
      sn = grow_start routes_csv start_node /\ dn = stop_node)
  /\ (height start_node <> height stop_node ->
      sn = start_node /\ dn = grow_stop routes_csv stop_node).
Proof.
  unfold after_matching, node_eq_int. rewrite andb_false_r.
  destruct matched as [|m matched]; simpl; [|discriminate].
  destruct (height start_node =? height stop_node)%nat eqn:E; intros H;
    injection H as <- <- <- <-;
    [apply Nat.eqb_eq in E | apply Nat.eqb_neq in E];
    repeat split; try reflexivity; intros; try contradiction.
Qed.

(** C4, as stated, fails. With both trees one level high and no common
    leaf, the next level is added to the start tree and the stop tree is
    passed on as it is, although a further level could be added to it.
    And when the start has no departures at all, so that its tree is the
    lower one, it is the stop tree that receives the next level. *)
Lemma tie_grows_start_tree :
  let routes_csv := [mkRoute 1 "A" "B" 0; mkRoute 1 "B" "E" 0;
                     mkRoute 1 "C" "D" 0; mkRoute 1 "F" "C" 0] in
  let start_node := mkNode "A" [leaf "B"] in
  let stop_node := mkNode "D" [leaf "C"] in
  (height start_node = height stop_node
   /\ find_routes_body routes_csv "A" "D" [EStr "B"] [EStr "C"] start_node stop_node
      = Call (map ENode (leaves StartTree (mkNode "A" [mkNode "B" [leaf "E"]])))
             (map ENode (leaves StopTree stop_node))
             (mkNode "A" [mkNode "B" [leaf "E"]]) stop_node
   /\ grow_stop routes_csv stop_node = mkNode "D" [mkNode "C" [leaf "F"]])
  /\ (height (leaf "G") < height stop_node
      /\ find_routes_body routes_csv "G" "D" [] [EStr "C"] (leaf "G") stop_node
         = Call (map ENode (leaves StartTree (leaf "G")))
                (map ENode (leaves StopTree (mkNode "D" [mkNode "C" [leaf "F"]])))
                (leaf "G") (mkNode "D" [mkNode "C" [leaf "F"]])).
Proof.
  intros routes_csv start_node stop_node.
  split; [split; [reflexivity|split; reflexivity]|].
  split; [unfold lt; reflexivity | reflexivity].
Qed.

(** C4, amended. An activation of [find_routes] that calls itself again
    adds the next level to the start tree when both trees have the same
    height, and to the stop tree when the heights differ; the other tree is
    passed on unchanged, and the lists passed on are the leaves of the two
    trees. *)
Theorem find_routes_grows_one_tree :
  forall (routes_csv : list Route) (start stop : string)
         (start_list destination_list : list Elem) (start_node stop_node : Node)
         (sl dl : list Elem) (sn dn : Node),
    find_routes_body routes_csv start stop start_list destination_list
      start_node stop_node = Call sl dl sn dn ->
    (height start_node = height stop_node ->
       sn = grow_start routes_csv start_node /\ dn = stop_node)
    /\ (height start_node <> height stop_node ->
          sn = start_node /\ dn = grow_stop routes_csv stop_node)
    /\ sl = map ENode (leaves StartTree sn)
    /\ dl = map ENode (leaves StopTree dn).
Proof.
  intros routes_csv start stop start_list destination_list start_node stop_node
         sl dl sn dn.
  unfold find_routes_body.
  destruct (py_in (EStr stop) start_list); [discriminate|].
  assert (Hafter : forall matched,
    after_matching routes_csv matched start_node stop_node = Call sl dl sn dn ->
    (height start_node = height stop_node ->
       sn = grow_start routes_csv start_node /\ dn = stop_node)
    /\ (height start_node <> height stop_node ->
          sn = start_node /\ dn = grow_stop routes_csv stop_node)
    /\ sl = map ENode (leaves StartTree sn)
    /\ dl = map ENode (leaves StopTree dn)).
  { intros matched H. apply after_matching_call in H. tauto. }
  destruct (height start_node <? 2)%nat.
  - destruct (paths_by_name (compare destination_list start_list)
                start_node stop_node) as [matched_path| | |]; try discriminate.
    destruct (negb (List.length matched_path =? 0)%nat); [discriminate|].
    apply Hafter.
  - destruct (compare_node start_list destination_list) as [matched| | |];
      try discriminate.
    apply Hafter.
Qed.

Lemma find_routes_grows_one_tree_witness :
  let routes_csv := [mkRoute 1 "A" "B" 0; mkRoute 1 "B" "E" 0;
                     mkRoute 1 "C" "D" 0; mkRoute 1 "F" "C" 0] in
  (height (mkNode "A" [leaf "B"]) = height (mkNode "D" [leaf "C"]) ->
     mkNode "A" [mkNode "B" [leaf "E"]] = grow_start routes_csv (mkNode "A" [leaf "B"])
     /\ mkNode "D" [leaf "C"] = mkNode "D" [leaf "C"])
  /\ (height (mkNode "A" [leaf "B"]) <> height (mkNode "D" [leaf "C"]) ->
        mkNode "A" [mkNode "B" [leaf "E"]] = mkNode "A" [leaf "B"]
        /\ mkNode "D" [leaf "C"] = grow_stop routes_csv (mkNode "D" [leaf "C"]))
  /\ map ENode (leaves StartTree (mkNode "A" [mkNode "B" [leaf "E"]]))
     = map ENode (leaves StartTree (mkNode "A" [mkNode "B" [leaf "E"]]))
  /\ map ENode (leaves StopTree (mkNode "D" [leaf "C"]))
     = map ENode (leaves StopTree (mkNode "D" [leaf "C"])).
Proof.
  intros routes_csv.
  apply (find_routes_grows_one_tree routes_csv "A" "D" [EStr "B"] [EStr "C"]).
  reflexivity.
Defined.

(** ** The depth guard *)

Lemma no_exit_bind {A B : Type} (m : Outcome A) (k : A -> Outcome B) :
  no_exit m -> (forall a, no_exit (k a)) -> no_exit (bind m k).
Proof.
  intros Hm Hk code. destruct m as [a|c|e|]; simpl.
  - apply Hk.
  - intros _. exact (Hm c eq_refl).
  - discriminate.
  - discriminate.
Qed.

Lemma no_exit_returned {A : Type} (a : A) : no_exit (Returned a).
Proof. intros code. discriminate. Qed.

Lemma no_exit_raised {A : Type} (e : PyExn) : no_exit (@Raised A e).
Proof. intros code. discriminate. Qed.

Lemma no_exit_unfinished {A : Type} : no_exit (@Unfinished A).
Proof. intros code. discriminate. Qed.

Create HintDb exits.

#[local] Hint Resolve no_exit_returned no_exit_raised no_exit_unfinished : exits.

Lemma as_node_no_exit (e : Elem) : no_exit (as_node e).
Proof. destruct e; simpl; auto with exits. Qed.

Lemma compare_node_row_no_exit (city : Elem) (l : list Elem) :
  no_exit (compare_node_row city l).
Proof.
  induction l as [|city2 l IH]; simpl; auto with exits.
  apply no_exit_bind; [apply as_node_no_exit|]. intros n2.
  apply no_exit_bind; [apply as_node_no_exit|]. intros n.
  apply no_exit_bind; [exact IH|]. intros more. auto with exits.
Qed.

Lemma compare_node_no_exit (a b : list Elem) : no_exit (compare_node a b).
Proof.
  induction a as [|city a IH]; simpl; auto with exits.
  apply no_exit_bind; [apply compare_node_row_no_exit|]. intros row.
  apply no_exit_bind; [exact IH|]. intros more. auto with exits.
Qed.

Lemma get_path_from_leaves_no_exit (node : NodeRef) (parent : option NodeRef)
  (l : list NodeRef) : no_exit (get_path_from_leaves node parent l).
Proof.
  induction l as [|some_node l IH]; simpl; auto with exits.
  destruct (ref_name some_node =? ref_name node)%string; [|exact IH].
  destruct parent as [p|]; auto with exits.
  destruct (side_eqb (ref_tree some_node) (ref_tree p)
            && steps_eqb (removelast (ref_path some_node)) (ref_path p));
    auto with exits.
Qed.

Lemma reversed_no_exit (p : option PyPath) : no_exit (reversed p).
Proof. destruct p; simpl; auto with exits. Qed.

Lemma append_new_no_exit (items : PyPath) :
  forall temp, no_exit (append_new temp items).
Proof.
  induction items as [|it items IH]; intros temp; simpl; auto with exits.
  destruct (last_error temp) as [l|]; auto with exits.
  destruct (negb (l =? item_name it)%string); apply IH.
Qed.

Lemma clean_path_no_exit (paths_list : list (option PyPath * option PyPath)) :
  no_exit (clean_path paths_list).
Proof.
  induction paths_list as [|[first second] rest IH]; simpl; auto with exits.
  apply no_exit_bind.
  - unfold clean_one. simpl. destruct first as [first|]; auto with exits.
    destruct second as [second|]; auto with exits. apply append_new_no_exit.
  - intros temp. apply no_exit_bind; [exact IH|]. intros more. auto with exits.
Qed.

Lemma paths_by_name_no_exit (matched : list Elem) (start_node stop_node : Node) :
  no_exit (paths_by_name matched start_node stop_node).
Proof.
  induction matched as [|city rest IH]; simpl; auto with exits.
  apply no_exit_bind; [apply reversed_no_exit|]. intros backward.
  apply no_exit_bind; [exact IH|]. intros more. auto with exits.
Qed.

Lemma paths_from_tree_no_exit (matched : list (WithParent * WithParent))
  (start_node stop_node : Node) :
  no_exit (paths_from_tree matched start_node stop_node).
Proof.
  induction matched as [|city rest IH]; simpl; auto with exits.
  apply no_exit_bind; [apply get_path_from_leaves_no_exit|]. intros reverse_path.
  apply no_exit_bind; [apply get_path_from_leaves_no_exit|]. intros forward.
  apply no_exit_bind; [apply reversed_no_exit|]. intros backward.
  apply no_exit_bind; [exact IH|]. intros more. auto with exits.
Qed.

Lemma after_matching_no_exit (routes_csv : list Route)
  (matched : list (WithParent * WithParent)) (start_node stop_node : Node)
  (o : Outcome (list (list string))) :
  after_matching routes_csv matched start_node stop_node = Done o -> no_exit o.
Proof.
  unfold after_matching, node_eq_int. rewrite andb_false_r.
  destruct (negb (List.length matched =? 0)%nat).
  - intros H. injection H as <-.
    apply no_exit_bind; [apply paths_from_tree_no_exit|].
    intros matched_path. apply clean_path_no_exit.
  - destruct (height start_node =? height stop_node)%nat; discriminate.
Qed.

Lemma find_routes_body_no_exit (routes_csv : list Route) (start stop : string)
  (start_list destination_list : list Elem) (start_node stop_node : Node)
  (o : Outcome (list (list string))) :
  find_routes_body routes_csv start stop start_list destination_list
    start_node stop_node = Done o ->
  no_exit o.
Proof.
  unfold find_routes_body.
  destruct (py_in (EStr stop) start_list).
  { intros H. injection H as <-. auto with exits. }
  destruct (height start_node <? 2)%nat.
  - pose proof (paths_by_name_no_exit (compare destination_list start_list)
                  start_node stop_node) as Hp.
    destruct (paths_by_name (compare destination_list start_list)
                start_node stop_node) as [matched_path|c|e|].
    + destruct (negb (List.length matched_path =? 0)%nat).
      * intros H. injection H as <-. apply clean_path_no_exit.
      * apply after_matching_no_exit.
    + exfalso. exact (Hp c eq_refl).
    + intros H. injection H as <-. auto with exits.
    + intros H. injection H as <-. auto with exits.
  - pose proof (compare_node_no_exit start_list destination_list) as Hc.
    destruct (compare_node start_list destination_list) as [matched|c|e|].
    + apply after_matching_no_exit.
    + exfalso. exact (Hc c eq_refl).
    + intros H. injection H as <-. auto with exits.
    + intros H. injection H as <-. auto with exits.
Qed.

(** No activation of [find_routes] reaches the [sys.exit] behind the depth
    guard. *)
Lemma find_routes_no_exit (routes_csv : list Route) (start stop : string)
  (budget : nat) :
  forall (start_list destination_list : list Elem) (start_node stop_node : Node),
    no_exit (find_routes routes_csv budget start stop start_list destination_list
               start_node stop_node).
Proof.
  induction budget as [|budget IH]; intros sl dl sn dn; simpl; auto with exits.
  destruct (find_routes_body routes_csv start stop sl dl sn dn) as [o|sl' dl' sn' dn']
    eqn:E.
  - exact (find_routes_body_no_exit _ _ _ _ _ _ _ _ E).
  - apply IH.
Qed.

(** An activation that calls itself with its own arguments never ends. *)
Lemma find_routes_repeats (routes_csv : list Route) (start stop : string)
  (start_list destination_list : list Elem) (start_node stop_node : Node) :
  find_routes_body routes_csv start stop start_list destination_list
    start_node stop_node
  = Call start_list destination_list start_node stop_node ->
  forall budget,
    find_routes routes_csv budget start stop start_list destination_list
      start_node stop_node = Unfinished.
Proof.
  intros Hbody budget. induction budget as [|budget IH]; [reflexivity|].
  simpl. rewrite Hbody. exact IH.
Qed.

(** ** Reading the paths back *)

Lemma ref_names_split (r : NodeRef) :
  ref_path r <> [] ->
  ref_names r = map snd (removelast (ref_path r)) ++ [ref_name r].
Proof.
  intros Hne. unfold ref_names, ref_name.
  rewrite (app_removelast_last (0, "") Hne) at 1.
  rewrite map_app. reflexivity.
Qed.

Lemma ref_parent_some (r p : NodeRef) :
  ref_parent r = Some p ->
  ref_tree p = ref_tree r /\ ref_path p = removelast (ref_path r)
  /\ ref_path p <> [] /\ ref_path r <> [].
Proof.
  unfold ref_parent. destruct (ref_path r) as [|a [|b l]] eqn:E; try discriminate.
  intros H. injection H as <-. simpl. repeat split; discriminate.
Qed.

(** [get_path_from_tree] asked for a leaf of the tree and its parent finds a
    leaf with the same codes along its path. *)
Lemma get_path_from_leaves_found (r p : NodeRef) (some_nodes : list NodeRef) :
  In r some_nodes ->
  ref_parent r = Some p ->
  exists path,
    get_path_from_leaves r (Some p) some_nodes = Returned (Some path)
    /\ map item_name path = ref_names r.
Proof.
  intros Hin Hp.
  destruct (ref_parent_some r p Hp) as (Ht & Hpath & Hpne & Hrne).
  induction some_nodes as [|some_node rest IH]; [destruct Hin|].
  simpl.
  destruct (ref_name some_node =? ref_name r)%string eqn:En.
  - destruct (side_eqb (ref_tree some_node) (ref_tree p)
              && steps_eqb (removelast (ref_path some_node)) (ref_path p)) eqn:Ep.
    + exists (node_path some_node). split; [reflexivity|].
      rewrite item_name_node_path.
      apply andb_true_iff in Ep. destruct Ep as [_ Ep].
      apply steps_eqb_eq in Ep. apply String.eqb_eq in En.
      assert (Hsne : ref_path some_node <> []).
      { intros E. rewrite E in Ep. simpl in Ep. congruence. }
      rewrite (ref_names_split some_node Hsne), (ref_names_split r Hrne).
      rewrite Ep, Hpath, En. reflexivity.
    + apply IH. destruct Hin as [->|Hin]; [|exact Hin].
      exfalso. rewrite Ht, Hpath in Ep.
      assert (E1 : side_eqb (ref_tree r) (ref_tree r) = true)
        by (apply side_eqb_eq; reflexivity).
      assert (E2 : steps_eqb (removelast (ref_path r)) (removelast (ref_path r)) = true)
        by (apply steps_eqb_eq; reflexivity).
      rewrite E1, E2 in Ep. discriminate.
  - apply IH. destruct Hin as [->|Hin]; [|exact Hin].
    rewrite String.eqb_refl in En. discriminate.
Qed.

Lemma last_error_in {A : Type} (l : list A) (a : A) :
  last_error l = Some a -> In a l.
Proof.
  destruct l as [|b l]; [discriminate|].
  destruct (@exists_last _ (b :: l)) as (l' & x & E); [discriminate|].
  rewrite E, last_error_app. intros H. injection H as <-.
  apply in_or_app. right. left. reflexivity.
Qed.

(** Items that do not occur yet are all appended. *)
Lemma append_new_fresh (items : PyPath) :
  forall temp,
    temp <> [] ->
    NoDup (temp ++ map item_name items) ->
    append_new temp items = Returned (temp ++ map item_name items).
Proof.
  induction items as [|it items IH]; intros temp Hne Hnd.
  - simpl. rewrite app_nil_r. reflexivity.
  - simpl. destruct (last_error temp) as [l|] eqn:El.
    + assert (Hl : In l temp) by (apply last_error_in, El).
      assert (Hneq : (l =? item_name it)%string = false).
      { apply String.eqb_neq. intros ->.
        apply NoDup_remove_2 in Hnd. apply Hnd.
        apply in_or_app. left. exact Hl. }
      rewrite Hneq. simpl.
      rewrite IH.
      * rewrite <- app_assoc. reflexivity.
      * destruct temp; discriminate.
      * rewrite <- app_assoc. exact Hnd.
    + destruct temp; [congruence | discriminate].
Qed.

(** A forward path and a backward path that end in the same code give the
    route through that code, when the route visits no code twice. *)
Lemma clean_one_route (f b : PyPath) (xs ys : list string) (v : string) :
  map item_name f = xs ++ [v] ->
  map item_name b = ys ++ [v] ->
  NoDup (xs ++ v :: rev ys) ->
  clean_one (Some f, Some (rev b)) = Returned (xs ++ v :: rev ys).
Proof.
  intros Hf Hb Hnd. unfold clean_one. simpl. rewrite Hf.
  assert (Hrev : map item_name (rev b) = v :: rev ys).
  { rewrite map_rev, Hb, rev_app_distr. reflexivity. }
  destruct (rev b) as [|it items]; [discriminate|].
  simpl in Hrev. injection Hrev as Hit Hitems.
  simpl. rewrite last_error_app, Hit, String.eqb_refl. simpl.
  rewrite append_new_fresh.
  - rewrite Hitems, <- app_assoc. reflexivity.
  - destruct xs; discriminate.
  - rewrite Hitems, <- app_assoc. exact Hnd.
Qed.

Lemma hd_error_rev {A : Type} (l : list A) : hd_error (rev l) = last_error l.
Proof.
  destruct l as [|a l]; [reflexivity|].
  destruct (@exists_last _ (a :: l)) as (l' & x & E); [discriminate|].
  rewrite E, rev_app_distr, last_error_app. reflexivity.
Qed.

Lemma chain_last_neighbour (nbr : string -> list string) (codes : list string) :
  forall x, chain nbr (x :: codes) -> codes <> [] ->
    exists a, In (last codes x) (nbr a).
Proof.
  induction codes as [|y codes IH]; intros x Hc Hne; [congruence|].
  destruct Hc as [Hxy Hc]. destruct codes as [|z codes].
  - exists x. exact Hxy.
  - destruct (IH y Hc) as [a Ha]; [discriminate|].
    exists a. rewrite last_cons_default. rewrite last_cons_default in Ha.
    rewrite last_cons_default. exact Ha.
Qed.

(** ** A round of matching *)

(** A leaf of a tree that is not a single node: its path ends in its own
    code, below at least the root, and it has a parent. *)
Lemma leaf_below_root (nbr : string -> list string) (t : Side) (k : nat)
  (x : string) (r : NodeRef) :
  In r (leaves t (unfold_tree nbr k x)) ->
  height (unfold_tree nbr k x) <> 0 ->
  exists (codes : list string) (v : string) (p : NodeRef),
    ref_names r = (x :: codes) ++ [v]
    /\ chain nbr ((x :: codes) ++ [v])
    /\ S (List.length codes) <= k
    /\ ref_parent r = Some p
    /\ ref_name r = v.
Proof.
  intros Hin Hh.
  destruct (leaves_unfold_names nbr t k x r Hin) as (cs & Hnames & Hc & Hlen & _).
  destruct (leaves_at_shape t _ [] 0 r Hin) as [_ (below & Hpath & Hbelow)].
  assert (Hne : below <> []).
  { intros E. apply Hh, height_leaf_iff, Hbelow, E. }
  simpl in Hpath.
  assert (Hcs : cs = map snd below).
  { unfold ref_names in Hnames. rewrite Hpath in Hnames. simpl in Hnames.
    injection Hnames as _ Hn. symmetry. exact Hn. }
  assert (Hcsne : cs <> []).
  { rewrite Hcs. destruct below; [congruence | discriminate]. }
  destruct (exists_last Hcsne) as (codes & v & E).
  assert (Hpar : exists p, ref_parent r = Some p).
  { unfold ref_parent. rewrite Hpath. destruct below as [|b l]; [congruence|].
    eexists. reflexivity. }
  destruct Hpar as [p Hp].
  exists codes, v, p. rewrite E in Hnames, Hc, Hlen.
  split; [exact Hnames|]. split; [exact Hc|].
  split; [rewrite length_app in Hlen; simpl in Hlen; lia|].
  split; [exact Hp|].
  rewrite ref_name_last, Hnames.
  change (x :: codes ++ [v]) with ((x :: codes) ++ [v]). apply last_last.
Qed.

Section Rounds.

Variable routes_csv : list Route.
Variables start stop : string.
Variables hf hb : nat.

Local Abbreviation fwd := (find_possible_destinations routes_csv).
Local Abbreviation bwd := (find_possible_starts routes_csv).
Local Abbreviation start_node := (unfold_tree fwd hf start).
Local Abbreviation stop_node := (unfold_tree bwd hb stop).

Hypothesis start_height : height start_node <> 0.
Hypothesis stop_height : height stop_node <> 0.

(** Two leaves with the same code give a route through that code. *)
Lemma leaves_meet (n n2 : NodeRef) :
  In n (leaves StartTree start_node) ->
  In n2 (leaves StopTree stop_node) ->
  ref_name n2 = ref_name n ->
  exists (xs ys : list string) (v : string) (p p2 : NodeRef),
    ref_names n = xs ++ [v]
    /\ ref_names n2 = ys ++ [v]
    /\ ref_parent n = Some p
    /\ ref_parent n2 = Some p2
    /\ connects routes_csv start stop (xs ++ v :: rev ys)
    /\ List.length (xs ++ v :: rev ys) <= hf + hb + 1.
Proof.
  intros Hn Hn2 Hname.
  destruct (leaf_below_root _ _ _ _ _ Hn start_height)
    as (cf & v & p & Hnf & Hcf & Hlf & Hpf & Hvf).
  destruct (leaf_below_root _ _ _ _ _ Hn2 stop_height)
    as (cb & v2 & p2 & Hnb & Hcb & Hlb & Hpb & Hvb).
  assert (E : v2 = v) by congruence. rewrite E in Hnb, Hcb. clear E Hvb v2.
  exists (start :: cf), (stop :: cb), v, p, p2.
  split; [exact Hnf|]. split; [exact Hnb|].
  split; [exact Hpf|]. split; [exact Hpb|]. split.
  - split; [|split].
    + apply chain_join; [exact Hcf|].
      apply (chain_rev bwd fwd) in Hcb.
      * rewrite rev_app_distr in Hcb. exact Hcb.
      * intros a b H. apply starts_destinations, H.
    + reflexivity.
    + change (rev (stop :: cb)) with (rev cb ++ [stop]).
      change ((start :: cf) ++ v :: rev cb ++ [stop])
        with ((start :: cf) ++ (v :: rev cb) ++ [stop]).
      rewrite app_assoc. apply last_error_app.
  - rewrite length_app. simpl. rewrite length_app, length_rev. simpl. lia.
Qed.

(** A route of [hf + hb] hops runs through the code of a leaf of each
    tree. *)
Lemma route_meets_leaves (other : list string) :
  connects routes_csv start stop other ->
  List.length other = hf + hb + 1 ->
  exists n n2, In n (leaves StartTree start_node)
               /\ In n2 (leaves StopTree stop_node)
               /\ ref_name n2 = ref_name n.
Proof.
  intros (Hc & Hs & Hd) Hlen.
  assert (Hsplit : other = firstn hf other ++ skipn hf other)
    by (symmetry; apply firstn_skipn).
  assert (Hpre : List.length (firstn hf other) = hf)
    by (rewrite length_firstn; lia).
  assert (Hpost : List.length (skipn hf other) = hb + 1)
    by (rewrite length_skipn; lia).
  set (pre := firstn hf other) in *.
  destruct (skipn hf other) as [|v post] eqn:Epost; [simpl in Hpost; lia|].
  simpl in Hpost.
  (* the forward half *)
  assert (Hfhalf : chain fwd (pre ++ [v])).
  { rewrite Hsplit in Hc.
    change (pre ++ v :: post) with (pre ++ [v] ++ post) in Hc.
    rewrite app_assoc in Hc. exact (chain_prefix _ _ _ Hc). }
  assert (Hbhalf : chain bwd (rev (v :: post))).
  { apply (chain_rev fwd bwd).
    - intros a b H. apply starts_destinations, H.
    - rewrite Hsplit in Hc. exact (chain_suffix _ _ _ Hc). }
  assert (Hfhd : exists cf, pre ++ [v] = start :: cf /\ List.length cf = hf).
  { rewrite Hsplit in Hs. destruct pre as [|a pre'].
    - simpl in Hs. injection Hs as ->. exists []. simpl in Hpre. auto.
    - simpl in Hs. injection Hs as ->. exists (pre' ++ [v]).
      split; [reflexivity|]. rewrite length_app. simpl in *. lia. }
  assert (Hbhd : exists cb, rev (v :: post) = stop :: cb /\ List.length cb = hb).
  { assert (Hh : hd_error (rev (v :: post)) = Some stop).
    { rewrite hd_error_rev. rewrite Hsplit in Hd.
      rewrite last_error_suffix in Hd by discriminate. exact Hd. }
    destruct (rev (v :: post)) as [|a cb] eqn:E; [discriminate|].
    simpl in Hh. injection Hh as ->. exists cb. split; [reflexivity|].
    assert (Hl : List.length (rev (v :: post)) = S (List.length cb))
      by (rewrite E; reflexivity).
    rewrite length_rev in Hl. simpl in Hl. lia. }
  destruct Hfhd as (cf & Ef & Hlf). destruct Hbhd as (cb & Eb & Hlb).
  rewrite Ef in Hfhalf. rewrite Eb in Hbhalf.
  destruct (leaves_unfold_reach fwd StartTree hf start cf Hfhalf Hlf) as (n & Hn & Hnn).
  destruct (leaves_unfold_reach bwd StopTree hb stop cb Hbhalf Hlb) as (n2 & Hn2 & Hnn2).
  exists n, n2. split; [exact Hn|]. split; [exact Hn2|].
  rewrite !ref_name_last, Hnn, Hnn2, <- Ef, <- Eb.
  change (rev (v :: post)) with (rev post ++ [v]).
  rewrite !last_last. reflexivity.
Qed.

(** The second loop of [find_routes] on the pairs of [compare_node]. *)
Lemma paths_from_tree_entries (matched : list (WithParent * WithParent)) :
  (forall m, In m matched ->
     In m (matches_of (leaves StartTree start_node) (leaves StopTree stop_node))) ->
  exists matched_path,
    paths_from_tree matched start_node stop_node = Returned matched_path
    /\ List.length matched_path = List.length matched
    /\ Forall (route_entry routes_csv start stop (hf + hb + 1)) matched_path.
Proof.
  induction matched as [|m rest IH]; intros Hall.
  - exists []. split; [reflexivity|]. split; [reflexivity | constructor].
  - destruct IH as (more & Hmore & Hlen & Hgood).
    { intros m' Hm'. apply Hall. right. exact Hm'. }
    assert (Hm := Hall m (or_introl eq_refl)).
    apply in_matches_of in Hm. destruct Hm as (n & n2 & Hn & Hn2 & Hname & ->).
    destruct (leaves_meet n n2 Hn Hn2 Hname)
      as (xs & ys & v & p & p2 & Hxs & Hys & Hp & Hp2 & Hroute & Hbound).
    destruct (get_path_from_leaves_found n2 p2 _ Hn2 Hp2) as (b & Hb & Hbn).
    destruct (get_path_from_leaves_found n p _ Hn Hp) as (f & Hf & Hfn).
    exists ((Some f, Some (rev b)) :: more).
    split; [|split].
    + simpl. unfold get_path_from_tree. rewrite Hp, Hp2, Hb. simpl.
      rewrite Hf. simpl. rewrite Hmore. reflexivity.
    + simpl. rewrite Hlen. reflexivity.
    + constructor; [|exact Hgood].
      exists f, b, xs, ys, v. rewrite Hfn, Hbn. auto.
Qed.

Hypothesis nothing_shorter :
  forall other, connects routes_csv start stop other ->
    hf + hb + 1 <= List.length other.

(** [clean_path] on such entries gives shortest routes. *)
Lemma clean_path_entries (matched_path : list (option PyPath * option PyPath)) :
  Forall (route_entry routes_csv start stop (hf + hb + 1)) matched_path ->
  exists res,
    clean_path matched_path = Returned res
    /\ List.length res = List.length matched_path
    /\ Forall (shortest_route routes_csv start stop) res.
Proof.
  induction 1 as [|entry rest Hentry _ IH].
  - exists []. split; [reflexivity|]. split; [reflexivity | constructor].
  - destruct IH as (more & Hmore & Hlen & Hgood).
    destruct Hentry as (f & b & xs & ys & v & -> & Hf & Hb & Hroute & Hbound).
    assert (Hshort : shortest_route routes_csv start stop (xs ++ v :: rev ys)).
    { split; [exact Hroute|]. intros other Hother.
      specialize (nothing_shorter other Hother). lia. }
    exists ((xs ++ v :: rev ys) :: more). split; [|split].
    + simpl. rewrite (clean_one_route f b xs ys v Hf Hb).
      * simpl. rewrite Hmore. reflexivity.
      * apply (shortest_route_NoDup routes_csv start stop); apply Hshort.
    + simpl. rewrite Hlen. reflexivity.
    + constructor; assumption.
Qed.

(** When no two leaves carry the same code, every route has more than
    [hf + hb] hops. *)
Lemma no_match_no_route :
  matches_of (leaves StartTree start_node) (leaves StopTree stop_node) = [] ->
  forall other, connects routes_csv start stop other ->
    hf + hb + 2 <= List.length other.
Proof.
  intros Hnone other Hother.
  assert (Hge := nothing_shorter other Hother).
  destruct (Nat.eq_dec (List.length other) (hf + hb + 1)) as [Heq|Hneq]; [|lia].
  exfalso.
  destruct (route_meets_leaves other Hother Heq) as (n & n2 & Hn & Hn2 & Hname).
  assert (Hin : In ((n, ref_parent n), (n2, ref_parent n2))
                  (matches_of (leaves StartTree start_node)
                              (leaves StopTree stop_node))).
  { apply in_matches_of. exists n, n2. auto. }
  rewrite Hnone in Hin. destruct Hin.
Qed.

End Rounds.

(** ** The search, level by level *)

Lemma is_leaf_height (n : Node) : height n <> 0 -> is_leaf n = false.
Proof.
  intros H. unfold is_leaf. destruct (children n) eqn:E; [|reflexivity].
  exfalso. apply H, height_leaf_iff, E.
Qed.

Lemma grow_start_unfold (routes_csv : list Route) (k : nat) (x : string) :
  height (unfold_tree (find_possible_destinations routes_csv) k x) <> 0 ->
  grow_start routes_csv (unfold_tree (find_possible_destinations routes_csv) k x)
  = unfold_tree (find_possible_destinations routes_csv) (S k) x.
Proof.
  intros H. unfold grow_start, build_search_tree.
  rewrite (is_leaf_height _ H). apply expand_leaves_unfold_tree.
Qed.

Lemma grow_stop_unfold (routes_csv : list Route) (k : nat) (x : string) :
  height (unfold_tree (find_possible_starts routes_csv) k x) <> 0 ->
  grow_stop routes_csv (unfold_tree (find_possible_starts routes_csv) k x)
  = unfold_tree (find_possible_starts routes_csv) (S k) x.
Proof.
  intros H. unfold grow_stop, build_search_tree.
  rewrite (is_leaf_height _ H). apply expand_leaves_unfold_tree.
Qed.

Lemma after_matching_none (routes_csv : list Route) (start_node stop_node : Node) :
  after_matching routes_csv [] start_node stop_node
  = if (height start_node =? height stop_node)%nat
    then Call (map ENode (leaves StartTree (grow_start routes_csv start_node)))
              (map ENode (leaves StopTree stop_node))
              (grow_start routes_csv start_node) stop_node
    else Call (map ENode (leaves StartTree start_node))
              (map ENode (leaves StopTree (grow_stop routes_csv stop_node)))
              start_node (grow_stop routes_csv stop_node).
Proof.
  unfold after_matching, node_eq_int. rewrite andb_false_r. reflexivity.
Qed.

Lemma after_matching_some (routes_csv : list Route)
  (matched : list (WithParent * WithParent)) (start_node stop_node : Node) :
  matched <> [] ->
  after_matching routes_csv matched start_node stop_node
  = Done (matched_path <- paths_from_tree matched start_node stop_node ;;
          clean_path matched_path).
Proof.
  intros H. unfold after_matching, node_eq_int. rewrite andb_false_r.
  destruct matched; [congruence | reflexivity].
Qed.

Lemma find_routes_S (routes_csv : list Route) (budget : nat) (start stop : string)
  (start_list destination_list : list Elem) (start_node stop_node : Node) :
  find_routes routes_csv (S budget) start stop start_list destination_list
    start_node stop_node
  = match find_routes_body routes_csv start stop start_list destination_list
            start_node stop_node with
    | Done o => o
    | Call sl dl sn dn => find_routes routes_csv budget start stop sl dl sn dn
    end.
Proof. reflexivity. Qed.

(** An activation on the leaves of two trees, the start tree at least two
    levels high. *)
Lemma find_routes_body_high (routes_csv : list Route) (start stop : string)
  (start_node stop_node : Node) :
  2 <= height start_node ->
  find_routes_body routes_csv start stop
    (map ENode (leaves StartTree start_node))
    (map ENode (leaves StopTree stop_node)) start_node stop_node
  = after_matching routes_csv
      (matches_of (leaves StartTree start_node) (leaves StopTree stop_node))
      start_node stop_node.
Proof.
  intros H. unfold find_routes_body.
  rewrite py_in_code_nodes.
  replace (height start_node <? 2)%nat with false
    by (symmetry; apply Nat.ltb_ge, H).
  rewrite compare_node_nodes. reflexivity.
Qed.

(** An activation on the leaves of two trees, the start tree less than two
    levels high: nothing is matched. *)
Lemma find_routes_body_low (routes_csv : list Route) (start stop : string)
  (start_node stop_node : Node) :
  height start_node < 2 ->
  find_routes_body routes_csv start stop
    (map ENode (leaves StartTree start_node))
    (map ENode (leaves StopTree stop_node)) start_node stop_node
  = after_matching routes_csv [] start_node stop_node.
Proof.
  intros H. unfold find_routes_body.
  rewrite py_in_code_nodes.
  replace (height start_node <? 2)%nat with true
    by (symmetry; apply Nat.ltb_lt, H).
  rewrite compare_leaves. reflexivity.
Qed.

(** From the second level of the start tree on, [find_routes] is still
    running or has returned shortest routes. *)
Lemma search_levels (routes_csv : list Route) (start stop : string) (budget : nat) :
  forall (hf hb : nat),
    2 <= hf -> 1 <= hb ->
    height (unfold_tree (find_possible_destinations routes_csv) hf start) = hf ->
    height (unfold_tree (find_possible_starts routes_csv) hb stop) = hb ->
    (forall other, connects routes_csv start stop other ->
       hf + hb + 1 <= List.length other) ->
    settled routes_csv start stop
      (find_routes routes_csv budget start stop
         (map ENode (leaves StartTree
            (unfold_tree (find_possible_destinations routes_csv) hf start)))
         (map ENode (leaves StopTree
            (unfold_tree (find_possible_starts routes_csv) hb stop)))
         (unfold_tree (find_possible_destinations routes_csv) hf start)
         (unfold_tree (find_possible_starts routes_csv) hb stop)).
Proof.
  induction budget as [|budget IH]; intros hf hb Hhf Hhb Hsh Hdh Hmin;
    [left; reflexivity|].
  rewrite find_routes_S.
  rewrite find_routes_body_high by lia.
  assert (Hs0 : height (unfold_tree (find_possible_destinations routes_csv) hf start)
                <> 0) by lia.
  assert (Hd0 : height (unfold_tree (find_possible_starts routes_csv) hb stop)
                <> 0) by lia.
  destruct (matches_of
              (leaves StartTree
                 (unfold_tree (find_possible_destinations routes_csv) hf start))
              (leaves StopTree
                 (unfold_tree (find_possible_starts routes_csv) hb stop)))
    as [|m ms] eqn:Em.
  - (* no common code: one more level *)
    assert (Hmin' := no_match_no_route routes_csv start stop hf hb Hs0 Hd0 Hmin Em).
    rewrite after_matching_none, Hsh, Hdh.
    destruct (hf =? hb)%nat.
    + rewrite grow_start_unfold by exact Hs0.
      destruct (unfold_tree_grows (find_possible_destinations routes_csv) hf start)
        as [Esame|Ehigher].
      * rewrite Esame. apply IH; assumption.
      * apply IH; try assumption; try lia.
        intros other Hother. specialize (Hmin' other Hother). lia.
    + rewrite grow_stop_unfold by exact Hd0.
      destruct (unfold_tree_grows (find_possible_starts routes_csv) hb stop)
        as [Esame|Ehigher].
      * rewrite Esame. apply IH; assumption.
      * apply IH; try assumption; try lia.
        intros other Hother. specialize (Hmin' other Hother). lia.
  - (* common codes: the routes through them *)
    rewrite after_matching_some by discriminate.
    destruct (paths_from_tree_entries routes_csv start stop hf hb Hs0 Hd0 (m :: ms))
      as (matched_path & Hpaths & Hlen & Hentries).
    { intros m' Hm'. rewrite Em. exact Hm'. }
    destruct (clean_path_entries routes_csv start stop hf hb Hs0 Hd0 Hmin
                matched_path Hentries)
      as (res & Hclean & Hlen' & Hshort).
    rewrite Hpaths. simpl bind. rewrite Hclean.
    right. exists res. split; [reflexivity|]. split; [|exact Hshort].
    destruct res; [simpl in *; lia | discriminate].
Qed.

(** While the start tree stays below two levels nothing is ever matched,
    and the search does not end. *)
Lemma low_start_unfinished (routes_csv : list Route) (start stop : string)
  (budget : nat) :
  forall (start_node stop_node : Node),
    (forall n, height (Nat.iter n (grow_start routes_csv) start_node) < 2) ->
    find_routes routes_csv budget start stop
      (map ENode (leaves StartTree start_node))
      (map ENode (leaves StopTree stop_node)) start_node stop_node
    = Unfinished.
Proof.
  induction budget as [|budget IH]; intros start_node stop_node Hlow;
    [reflexivity|].
  rewrite find_routes_S.
  rewrite find_routes_body_low by exact (Hlow 0).
  rewrite after_matching_none.
  destruct (height start_node =? height stop_node)%nat.
  - apply IH. intros n. rewrite <- Nat.iter_succ_r. apply Hlow.
  - apply IH. exact Hlow.
Qed.

(** A destination that no route reaches is never found, however far the
    start tree grows. *)
Lemma dead_stop_unfinished (routes_csv : list Route) (start stop : string)
  (budget : nat) :
  find_possible_starts routes_csv stop = [] ->
  forall k,
    height (unfold_tree (find_possible_destinations routes_csv) k start) <> 0 ->
    find_routes routes_csv budget start stop
      (map ENode (leaves StartTree
         (unfold_tree (find_possible_destinations routes_csv) k start)))
      (map ENode (leaves StopTree (mkNode stop [leaf stop])))
      (unfold_tree (find_possible_destinations routes_csv) k start)
      (mkNode stop [leaf stop])
    = Unfinished.
Proof.
  intros Hdead. induction budget as [|budget IH]; intros k Hk; [reflexivity|].
  rewrite find_routes_S.
  assert (Hbody :
    find_routes_body routes_csv start stop
      (map ENode (leaves StartTree
         (unfold_tree (find_possible_destinations routes_csv) k start)))
      (map ENode (leaves StopTree (mkNode stop [leaf stop])))
      (unfold_tree (find_possible_destinations routes_csv) k start)
      (mkNode stop [leaf stop])
    = after_matching routes_csv []
        (unfold_tree (find_possible_destinations routes_csv) k start)
        (mkNode stop [leaf stop])).
  { destruct (le_lt_dec 2
      (height (unfold_tree (find_possible_destinations routes_csv) k start)))
      as [Hhigh|Hlow].
    - rewrite find_routes_body_high by exact Hhigh. f_equal.
      destruct (matches_of _ _) as [|m ms] eqn:Em; [reflexivity|].
      exfalso.
      assert (Hm : In m (m :: ms)) by (left; reflexivity).
      rewrite <- Em in Hm. apply in_matches_of in Hm.
      destruct Hm as (n & n2 & Hn & Hn2 & Hname & _).
      destruct Hn2 as [<-|[]].
      destruct (leaf_below_root _ _ _ _ _ Hn Hk) as (codes & v & p & _ & Hc & _ & _ & Hv).
      destruct (chain_last_neighbour _ (codes ++ [v]) start Hc) as [a Ha].
      { destruct codes; discriminate. }
      rewrite last_last in Ha.
      assert (Hvstop : v = stop) by (rewrite <- Hv, <- Hname; reflexivity).
      rewrite Hvstop in Ha. apply starts_destinations in Ha.
      rewrite Hdead in Ha. destruct Ha.
    - apply find_routes_body_low. exact Hlow. }
  rewrite Hbody, after_matching_none.
  destruct (height (unfold_tree (find_possible_destinations routes_csv) k start)
            =? height (mkNode stop [leaf stop]))%nat.
  - rewrite grow_start_unfold by exact Hk.
    apply IH.
    destruct (unfold_tree_grows (find_possible_destinations routes_csv) k start)
      as [Esame|Ehigher]; [rewrite Esame; exact Hk | lia].
  - replace (grow_stop routes_csv (mkNode stop [leaf stop]))
      with (mkNode stop [leaf stop]).
    + apply IH. exact Hk.
    + unfold grow_stop, build_search_tree. simpl. rewrite Hdead. reflexivity.
Qed.

(** ** The first activation *)

Lemma build_first_level (nbr : string -> list string) (x : string) :
  build_search_tree (leaf x) (nbr x) nbr = unfold_tree nbr 1 x.
Proof. reflexivity. Qed.

Lemma height_unfold_pos (nbr : string -> list string) (k : nat) (x : string) :
  nbr x <> [] -> height (unfold_tree nbr (S k) x) <> 0.
Proof.
  intros Hne H. apply height_leaf_iff in H. simpl in H.
  destruct (nbr x); [congruence | discriminate].
Qed.

Lemma unfold_no_neighbours (nbr : string -> list string) (k : nat) (x : string) :
  nbr x = [] -> unfold_tree nbr k x = leaf x.
Proof. intros H. destruct k; [reflexivity|]. simpl. rewrite H. reflexivity. Qed.

(** In a tree of one level, [get_path] finds the neighbour it is asked
    for, right below the root. *)
Lemma get_path_first_level (nbr : string -> list string) (t : Side)
  (x y : string) :
  In y (nbr x) ->
  exists path, get_path (EStr y) t (unfold_tree nbr 1 x) = Some path
               /\ map item_name path = [x] ++ [y].
Proof.
  intros Hy. unfold get_path.
  assert (Hpos : height (unfold_tree nbr 1 x) <> 0).
  { apply height_unfold_pos. intros E. rewrite E in Hy. destruct Hy. }
  destruct (find (fun some_node => name_is some_node (EStr y))
              (leaves t (unfold_tree nbr 1 x))) as [r|] eqn:F.
  - apply find_some in F. destruct F as [Hr Hname].
    simpl in Hname. apply String.eqb_eq in Hname.
    destruct (leaf_below_root nbr t 1 x r Hr Hpos)
      as (codes & v & p & Hnames & _ & Hlen & _ & Hv).
    destruct codes; [|simpl in Hlen; lia].
    exists (node_path r). split; [reflexivity|].
    rewrite item_name_node_path, Hnames. congruence.
  - exfalso.
    destruct (leaves_unfold_reach nbr t 1 x [y]) as (r & Hr & Hnames);
      [split; [exact Hy | exact I] | reflexivity |].
    apply (find_none _ _ F) in Hr. simpl in Hr.
    rewrite ref_name_last, Hnames in Hr. simpl in Hr.
    rewrite String.eqb_refl in Hr. discriminate.
Qed.

Lemma in_compare_codes (a b : list string) (e : Elem) :
  In e (compare (map EStr a) (map EStr b)) <->
  exists x, e = EStr x /\ In x a /\ In x b.
Proof.
  unfold compare. rewrite filter_In, in_map_iff. split.
  - intros [(x & <- & Hx) Hb]. apply py_in_codes in Hb. exists x. auto.
  - intros (x & -> & Ha & Hb). split; [exists x; auto | apply py_in_codes, Hb].
Qed.

Lemma paths_by_name_cons (city : Elem) (rest : list Elem)
  (start_node stop_node : Node) :
  paths_by_name (city :: rest) start_node stop_node
  = (backward <- reversed (get_path city StopTree stop_node) ;;
     more <- paths_by_name rest start_node stop_node ;;
     Returned ((get_path city StartTree start_node, Some backward) :: more)).
Proof. reflexivity. Qed.

(** The first loop of [find_routes] on the codes common to both lists. *)
Lemma paths_by_name_entries (routes_csv : list Route) (start stop : string)
  (matched : list Elem) :
  (forall e, In e matched ->
     exists x, e = EStr x
               /\ In x (find_possible_starts routes_csv stop)
               /\ In x (find_possible_destinations routes_csv start)) ->
  exists matched_path,
    paths_by_name matched
      (unfold_tree (find_possible_destinations routes_csv) 1 start)
      (unfold_tree (find_possible_starts routes_csv) 1 stop)
    = Returned matched_path
    /\ List.length matched_path = List.length matched
    /\ Forall (route_entry routes_csv start stop 3) matched_path.
Proof.
  induction matched as [|e rest IH]; intros Hall.
  - exists []. split; [reflexivity|]. split; [reflexivity | constructor].
  - destruct IH as (more & Hmore & Hlen & Hgood).
    { intros e' He'. apply Hall. right. exact He'. }
    destruct (Hall e (or_introl eq_refl)) as (x & -> & Hb & Hf).
    destruct (get_path_first_level (find_possible_starts routes_csv) StopTree
                stop x Hb) as (b & Hbp & Hbn).
    destruct (get_path_first_level (find_possible_destinations routes_csv)
                StartTree start x Hf) as (f & Hfp & Hfn).
    exists ((Some f, Some (rev b)) :: more). split; [|split].
    + rewrite paths_by_name_cons, Hbp, Hfp. cbn [bind reversed].
      rewrite Hmore. reflexivity.
    + simpl. rewrite Hlen. reflexivity.
    + constructor; [|exact Hgood].
      exists f, b, [start], [stop], x.
      split; [reflexivity|]. split; [exact Hfn|]. split; [exact Hbn|]. split.
      * split; [|split; reflexivity].
        split; [exact Hf|]. split; [|exact I].
        apply starts_destinations, Hb.
      * simpl. lia.
Qed.

Lemma route_two_codes (routes_csv : list Route) (start stop : string)
  (other : list string) :
  start <> stop ->
  connects routes_csv start stop other -> 2 <= List.length other.
Proof.
  intros Hne (_ & Hs & Hd).
  destruct other as [|a [|b l]]; simpl in *; try lia; try discriminate.
  congruence.
Qed.

Lemma route_three_codes (routes_csv : list Route) (start stop : string)
  (other : list string) :
  start <> stop ->
  ~ In stop (find_possible_destinations routes_csv start) ->
  connects routes_csv start stop other -> 3 <= List.length other.
Proof.
  intros Hne Hdirect Hother.
  assert (H2 := route_two_codes _ _ _ _ Hne Hother).
  destruct Hother as (Hc & Hs & Hd).
  destruct other as [|a [|b [|c l]]]; simpl in *; try lia.
  exfalso. injection Hs as ->. injection Hd as ->. apply Hdirect, Hc.
Qed.

Lemma route_four_codes (routes_csv : list Route) (start stop : string)
  (other : list string) :
  start <> stop ->
  ~ In stop (find_possible_destinations routes_csv start) ->
  compare (map EStr (find_possible_starts routes_csv stop))
          (map EStr (find_possible_destinations routes_csv start)) = [] ->
  connects routes_csv start stop other -> 4 <= List.length other.
Proof.
  intros Hne Hdirect Hnone Hother.
  assert (H3 := route_three_codes _ _ _ _ Hne Hdirect Hother).
  destruct Hother as (Hc & Hs & Hd).
  destruct other as [|a [|b [|c [|d l]]]]; simpl in H3; try lia; [|simpl; lia].
  exfalso. simpl in Hs, Hd. injection Hs as ->. injection Hd as ->.
  destruct Hc as (Hab & Hbc & _).
  assert (Hin : In (EStr b)
                  (compare (map EStr (find_possible_starts routes_csv stop))
                     (map EStr (find_possible_destinations routes_csv start)))).
  { apply in_compare_codes. exists b. split; [reflexivity|].
    split; [apply starts_destinations, Hbc | exact Hab]. }
  rewrite Hnone in Hin. destruct Hin.
Qed.

(** A start without departures: its tree is a single node, then that node
    above a copy of itself, for good. *)
Lemma low_without_departures (routes_csv : list Route) (start : string) :
  find_possible_destinations routes_csv start = [] ->
  forall n, height (Nat.iter n (grow_start routes_csv) (leaf start)) < 2.
Proof.
  intros Hnone n.
  assert (H : Nat.iter n (grow_start routes_csv) (leaf start) = leaf start
              \/ Nat.iter n (grow_start routes_csv) (leaf start)
                 = mkNode start [leaf start]).
  { induction n as [|n IH]; [left; reflexivity|].
    right. simpl. destruct IH as [->| ->]; [reflexivity|].
    unfold grow_start, build_search_tree. simpl. rewrite Hnone. reflexivity. }
  destruct H as [->| ->]; simpl; lia.
Qed.

Lemma low_shift (routes_csv : list Route) (start_node : Node) :
  (forall n, height (Nat.iter n (grow_start routes_csv) start_node) < 2) ->
  forall n, height (Nat.iter n (grow_start routes_csv)
                      (grow_start routes_csv start_node)) < 2.
Proof. intros H n. rewrite <- Nat.iter_succ_r. apply H. Qed.

Lemma low_fixed (routes_csv : list Route) (start_node : Node) :
  grow_start routes_csv start_node = start_node ->
  height start_node < 2 ->
  forall n, height (Nat.iter n (grow_start routes_csv) start_node) < 2.
Proof.
  intros Hfix Hlow n.
  replace (Nat.iter n (grow_start routes_csv) start_node) with start_node;
    [exact Hlow|].
  induction n as [|n IH]; [reflexivity|]. simpl. rewrite <- IH. symmetry. exact Hfix.
Qed.

(** Between two different codes the search is still running, or has
    returned a non-empty list of shortest routes. *)
Lemma all_possible_routes_settled (routes_csv : list Route)
  (start_code destination_code : string) (budget : nat) :
  start_code <> destination_code ->
  settled routes_csv start_code destination_code
    (all_possible_routes routes_csv budget start_code destination_code).
Proof.
  intros Hne. destruct budget as [|budget]; [left; reflexivity|].
  unfold all_possible_routes. rewrite !build_first_level, find_routes_S.
  unfold find_routes_body.
  destruct (py_in (EStr destination_code)
              (map EStr (find_possible_destinations routes_csv start_code)))
    eqn:Edirect.
  { (* a direct route *)
    apply py_in_codes in Edirect.
    right. eexists. split; [reflexivity|]. split; [discriminate|].
    constructor; [|constructor]. split.
    - split; [|split; reflexivity]. split; [exact Edirect | exact I].
    - intros other Hother. exact (route_two_codes _ _ _ _ Hne Hother). }
  assert (Hdirect : ~ In destination_code
                      (find_possible_destinations routes_csv start_code)).
  { intros H. apply py_in_codes in H. congruence. }
  replace (height (unfold_tree (find_possible_destinations routes_csv) 1 start_code)
           <? 2)%nat with true
    by (symmetry; apply Nat.ltb_lt;
        pose proof (height_unfold_tree_le
                      (find_possible_destinations routes_csv) 1 start_code); lia).
  destruct (paths_by_name_entries routes_csv start_code destination_code
              (compare (map EStr (find_possible_starts routes_csv destination_code))
                 (map EStr (find_possible_destinations routes_csv start_code))))
    as (matched_path & Hpaths & Hlen & Hentries).
  { intros e He. apply in_compare_codes, He. }
  rewrite Hpaths.
  destruct matched_path as [|entry matched_path].
  - (* no common neighbour *)
    assert (Hnone : compare
                      (map EStr (find_possible_starts routes_csv destination_code))
                      (map EStr (find_possible_destinations routes_csv start_code))
                    = []).
    { destruct (compare _ _); [reflexivity | discriminate]. }
    simpl negb. cbv iota. rewrite after_matching_none.
    destruct (find_possible_destinations routes_csv start_code) as [|y ys] eqn:Ef.
    + (* the start has no departures *)
      rewrite (unfold_no_neighbours _ 1 start_code Ef).
      assert (Hlow := low_without_departures routes_csv start_code Ef).
      destruct (height (leaf start_code)
                =? height (unfold_tree (find_possible_starts routes_csv) 1
                             destination_code))%nat.
      * rewrite low_start_unfinished by (apply low_shift, Hlow).
        left. reflexivity.
      * rewrite low_start_unfinished by exact Hlow. left. reflexivity.
    + assert (Hs0 : height (unfold_tree (find_possible_destinations routes_csv) 1
                              start_code) <> 0).
      { apply height_unfold_pos. rewrite Ef. discriminate. }
      assert (Hs1 : height (unfold_tree (find_possible_destinations routes_csv) 1
                              start_code) = 1).
      { pose proof (height_unfold_tree_le
                      (find_possible_destinations routes_csv) 1 start_code). lia. }
      destruct (find_possible_starts routes_csv destination_code) as [|z zs] eqn:Eb.
      * (* nothing arrives at the destination *)
        rewrite (unfold_no_neighbours _ 1 destination_code Eb), Hs1.
        simpl Nat.eqb. cbv iota.
        replace (grow_stop routes_csv (leaf destination_code))
          with (mkNode destination_code [leaf destination_code]) by reflexivity.
        rewrite dead_stop_unfinished by assumption. left. reflexivity.
      * assert (Hd0 : height (unfold_tree (find_possible_starts routes_csv) 1
                                destination_code) <> 0).
        { apply height_unfold_pos. rewrite Eb. discriminate. }
        assert (Hd1 : height (unfold_tree (find_possible_starts routes_csv) 1
                                destination_code) = 1).
        { pose proof (height_unfold_tree_le
                        (find_possible_starts routes_csv) 1 destination_code). lia. }
        rewrite Hs1, Hd1. simpl Nat.eqb. cbv iota.
        rewrite grow_start_unfold by exact Hs0.
        destruct (unfold_tree_grows (find_possible_destinations routes_csv) 1
                    start_code) as [Esame|Ehigher].
        -- rewrite Esame.
           rewrite low_start_unfinished; [left; reflexivity|].
           apply low_fixed; [|lia].
           rewrite grow_start_unfold by exact Hs0. exact Esame.
        -- apply search_levels; try assumption; try lia.
           intros other Hother.
           assert (H4 : 4 <= List.length other).
           { apply (route_four_codes routes_csv start_code destination_code);
               try assumption.
             - rewrite Ef. exact Hdirect.
             - rewrite Ef, Eb. exact Hnone. }
           lia.
  - (* common neighbours: routes of two hops *)
    simpl negb. cbv iota.
    assert (Hin : exists x,
              In x (find_possible_starts routes_csv destination_code)
              /\ In x (find_possible_destinations routes_csv start_code)).
    { destruct (compare (map EStr (find_possible_starts routes_csv destination_code))
                  (map EStr (find_possible_destinations routes_csv start_code)))
        as [|e l] eqn:Ec; [discriminate|].
      assert (He : In e (e :: l)) by (left; reflexivity).
      rewrite <- Ec in He. apply in_compare_codes in He.
      destruct He as (x & _ & Hb & Hf). exists x. auto. }
    destruct Hin as (x & Hb & Hf).
    destruct (clean_path_entries routes_csv start_code destination_code 1 1)
      with (matched_path := entry :: matched_path)
      as (res & Hclean & Hlen' & Hshort).
    + apply height_unfold_pos. intros E. rewrite E in Hf. destruct Hf.
    + apply height_unfold_pos. intros E. rewrite E in Hb. destruct Hb.
    + intros other Hother.
      assert (H3 := route_three_codes _ _ _ _ Hne Hdirect Hother). simpl. lia.
    + exact Hentries.
    + rewrite Hclean. right. exists res. split; [reflexivity|].
      split; [|exact Hshort].
      destruct res; [discriminate Hlen' | discriminate].
Qed.

(** Whatever the search returns between two different codes is a non-empty
    list of shortest routes. *)
Lemma all_possible_routes_shortest (routes_csv : list Route)
  (start_code destination_code : string) (budget : nat)
  (res : list (list string)) :
  start_code <> destination_code ->
  all_possible_routes routes_csv budget start_code destination_code
    = Returned res ->
  res <> [] /\ Forall (shortest_route routes_csv start_code destination_code) res.
Proof.
  intros Hne Hres.
  destruct (all_possible_routes_settled routes_csv start_code destination_code
              budget Hne) as [Hun|(res' & Hret & Hgood)].
  - rewrite Hun in Hres. discriminate.
  - rewrite Hret in Hres. injection Hres as <-. exact Hgood.
Qed.

(** Where no route joins two codes, the search is still running at every
    budget. *)
Lemma all_possible_routes_unreachable (routes_csv : list Route)
  (start_code destination_code : string) (budget : nat) :
  (forall codes, ~ connects routes_csv start_code destination_code codes) ->
  all_possible_routes routes_csv budget start_code destination_code = Unfinished.
Proof.
  intros Hnone.
  assert (Hne : start_code <> destination_code).
  { intros E. apply (Hnone [start_code]).
    split; [exact I|]. split; [reflexivity | rewrite E; reflexivity]. }
  destruct (all_possible_routes_settled routes_csv start_code destination_code
              budget Hne) as [Hun|(res & _ & Hres & Hshort)]; [exact Hun|].
  exfalso. destruct res as [|p res]; [congruence|].
  inversion Hshort as [|? ? [Hp _] _]. exact (Hnone p Hp).
Qed.

(** C9, as stated, fails when the start is its own destination: by way of
    "B" the search returns a route that carries "A" twice. *)
Lemma round_trip_repeats_code :
  all_possible_routes [mkRoute 1 "A" "B" 0; mkRoute 1 "B" "A" 0] 1 "A" "A"
    = Returned [["A"; "B"; "A"]]
  /\ ~ NoDup ["A"; "B"; "A"].
Proof.
  split; [reflexivity|].
  intros H. inversion H as [|a l Hnotin _]. apply Hnotin. right. left. reflexivity.
Qed.

(** C9, amended. Between two different codes, the paths the search returns
    all have the same number of codes, none of them carries a code twice,
    and each is a route of the graph from the start to the destination
    than which no route is shorter. *)
Theorem routes_returned_are_shortest :
  forall (routes_csv : list Route) (start_code destination_code : string)
         (budget : nat) (res : list (list string)),
    start_code <> destination_code ->
    all_possible_routes routes_csv budget start_code destination_code
      = Returned res ->
    (forall p q, In p res -> In q res -> List.length p = List.length q)
    /\ (forall p, In p res ->
          NoDup p /\ shortest_route routes_csv start_code destination_code p).
Proof.
  intros routes_csv start_code destination_code budget res Hne Hres.
  destruct (all_possible_routes_shortest _ _ _ _ _ Hne Hres) as [_ Hshort].
  rewrite Forall_forall in Hshort. split.
  - intros p q Hp Hq.
    destruct (Hshort p Hp) as [Hcp Hmp]. destruct (Hshort q Hq) as [Hcq Hmq].
    specialize (Hmp q Hcq). specialize (Hmq p Hcp). lia.
  - intros p Hp. split; [|apply Hshort, Hp].
    destruct (Hshort p Hp) as [Hcp Hmp].
    exact (shortest_route_NoDup _ _ _ _ Hcp Hmp).
Qed.

Lemma routes_returned_are_shortest_witness :
  let routes_csv := [mkRoute 1 "A" "B" 0; mkRoute 1 "B" "C" 0; mkRoute 1 "C" "D" 0;
                     mkRoute 2 "A" "E" 0; mkRoute 2 "E" "F" 1; mkRoute 2 "F" "D" 0;
                     mkRoute 3 "D" "G" 0; mkRoute 3 "C" "A" 0] in
  let res := [["A"; "B"; "C"; "D"; "G"]; ["A"; "E"; "F"; "D"; "G"]] in
  all_possible_routes routes_csv 6 "A" "G" = Returned res
  /\ (forall p q, In p res -> In q res -> List.length p = List.length q)
  /\ (forall p, In p res -> NoDup p /\ shortest_route routes_csv "A" "G" p).
Proof.
  intros routes_csv res. split; [reflexivity|].
  apply (routes_returned_are_shortest routes_csv "A" "G" 6 res);
    [discriminate | reflexivity].
Defined.

(** ** The search between codes that no route joins *)

(** C1, on the code. The guard of [find_routes] compares the start tree
    itself with 5 and is never true, so no call of [find_routes] ends in
    the [sys.exit] behind it. Where no route joins the start and the
    destination, the search is therefore still calling itself whatever the
    budget; so it is between "A" and "B" in the table of the two routes
    from "A" to "C" and from "E" to "B". *)
Theorem find_routes_never_gives_up :
  (forall (routes_csv : list Route) (budget : nat) (start stop : string)
          (start_list destination_list : list Elem) (start_node stop_node : Node)
          (code : Z),
     find_routes routes_csv budget start stop start_list destination_list
       start_node stop_node <> Exited code)
  /\ (forall (routes_csv : list Route) (start_code destination_code : string)
             (budget : nat),
        (forall codes, ~ connects routes_csv start_code destination_code codes) ->
        all_possible_routes routes_csv budget start_code destination_code
          = Unfinished)
  /\ (forall budget : nat,
        all_possible_routes [mkRoute 1 "A" "C" 0; mkRoute 2 "E" "B" 0]
          budget "A" "B" = Unfinished).
Proof.
  split; [|split].
  - intros routes_csv budget start stop sl dl sn dn code.
    apply find_routes_no_exit.
  - intros routes_csv start_code destination_code budget Hnone.
    apply all_possible_routes_unreachable, Hnone.
  - intros [|budget]; [reflexivity|].
    unfold all_possible_routes. rewrite find_routes_S.
    set (routes_csv := [mkRoute 1 "A" "C" 0; mkRoute 2 "E" "B" 0]).
    replace (find_routes_body routes_csv "A" "B"
               (map EStr (find_possible_destinations routes_csv "A"))
               (map EStr (find_possible_starts routes_csv "B"))
               (build_search_tree (leaf "A")
                  (find_possible_destinations routes_csv "A")
                  (find_possible_destinations routes_csv))
               (build_search_tree (leaf "B")
                  (find_possible_starts routes_csv "B")
                  (find_possible_starts routes_csv)))
      with (Call (map ENode (leaves StartTree (mkNode "A" [leaf "C"])))
                 (map ENode (leaves StopTree (mkNode "B" [leaf "E"])))
                 (mkNode "A" [leaf "C"]) (mkNode "B" [leaf "E"]))
      by reflexivity.
    apply find_routes_repeats. reflexivity.
Qed.

(** ** What the search returns, for any two codes *)

Lemma last_error_some {A : Type} (l : list A) :
  l <> [] -> exists a, last_error l = Some a.
Proof. destruct l; [congruence | eexists; reflexivity]. Qed.

Lemma last_error_snoc_inv {A : Type} (l : list A) (a : A) :
  last_error l = Some a -> exists l', l = l' ++ [a].
Proof.
  destruct l as [|b l]; [discriminate|].
  destruct (@exists_last _ (b :: l)) as (l' & x & E); [discriminate|].
  rewrite E, last_error_app. intros H. injection H as <-. exists l'. reflexivity.
Qed.

(** Along a chain, [append_new] leaves out only codes that repeat the one
    before them: what it returns is still a chain, with the same first and
    the same last code. *)
Lemma append_new_chain (nbr : string -> list string) (items : PyPath) :
  forall temp,
    temp <> [] ->
    chain nbr (temp ++ map item_name items) ->
    exists r,
      append_new temp items = Returned r
      /\ chain nbr r
      /\ hd_error r = hd_error temp
      /\ last_error r = last_error (temp ++ map item_name items).
Proof.
  induction items as [|it items IH]; intros temp Hne Hc.
  - exists temp. simpl in *. rewrite app_nil_r in *. auto.
  - simpl. destruct (last_error_some temp Hne) as [l Hl]. rewrite Hl.
    destruct (l =? item_name it)%string eqn:E; simpl.
    + apply String.eqb_eq in E. subst l.
      destruct (last_error_snoc_inv temp _ Hl) as [t Et].
      assert (Hc' : chain nbr (temp ++ map item_name items)).
      { rewrite Et, <- app_assoc. simpl. apply chain_join.
        - rewrite Et in Hc. simpl in Hc. rewrite <- app_assoc in Hc.
          change (t ++ [item_name it] ++ item_name it :: map item_name items)
            with (t ++ [item_name it] ++ [item_name it] ++ map item_name items) in Hc.
          rewrite app_assoc in Hc. exact (chain_prefix _ _ _ Hc).
        - simpl in Hc. exact (chain_suffix _ _ _ Hc). }
      destruct (IH temp Hne Hc') as (r & Hr & Hcr & Hhd & Hlast).
      exists r. split; [exact Hr|]. split; [exact Hcr|]. split; [exact Hhd|].
      rewrite Hlast. simpl map.
      destruct items as [|it' items'].
      * simpl. rewrite app_nil_r, Hl. symmetry. apply last_error_app.
      * rewrite !last_error_suffix by discriminate.
        simpl map. rewrite last_error_cons. reflexivity.
    + assert (Hne' : temp ++ [item_name it] <> [])
        by (destruct temp; discriminate).
      assert (Hc' : chain nbr ((temp ++ [item_name it]) ++ map item_name items))
        by (rewrite <- app_assoc; exact Hc).
      destruct (IH _ Hne' Hc') as (r & Hr & Hcr & Hhd & Hlast).
      exists r. split; [exact Hr|]. split; [exact Hcr|]. split.
      * rewrite Hhd. destruct temp; [congruence | reflexivity].
      * rewrite Hlast, <- app_assoc. reflexivity.
Qed.

(** An entry that stands for a route is cleaned into a route. *)
Lemma clean_one_connects (routes_csv : list Route) (start stop : string)
  (bound : nat) (entry : option PyPath * option PyPath) :
  route_entry routes_csv start stop bound entry ->
  exists r, clean_one entry = Returned r /\ connects routes_csv start stop r.
Proof.
  intros (f & b & xs & ys & v & -> & Hf & Hb & (Hc & Hs & Hd) & _).
  unfold clean_one. simpl fst. simpl snd. cbv iota. rewrite Hf.
  assert (Hrev : map item_name (rev b) = v :: rev ys).
  { rewrite map_rev, Hb, rev_app_distr. reflexivity. }
  destruct (rev b) as [|it items]; [discriminate|].
  simpl in Hrev. injection Hrev as Hit Hitems.
  simpl append_new. rewrite last_error_app, Hit, String.eqb_refl. simpl negb. cbv iota.
  destruct (append_new_chain (find_possible_destinations routes_csv) items (xs ++ [v]))
    as (r & Hr & Hcr & Hhd & Hlast).
  - destruct xs; discriminate.
  - rewrite Hitems, <- app_assoc. exact Hc.
  - exists r. split; [exact Hr|]. split; [exact Hcr|]. split.
    + rewrite Hhd. destruct xs as [|x xs']; [|exact Hs].
      simpl in Hs |- *. exact Hs.
    + rewrite Hlast, Hitems, <- app_assoc. exact Hd.
Qed.

Lemma clean_path_connects (routes_csv : list Route) (start stop : string)
  (bound : nat) (matched_path : list (option PyPath * option PyPath)) :
  Forall (route_entry routes_csv start stop bound) matched_path ->
  exists res,
    clean_path matched_path = Returned res
    /\ List.length res = List.length matched_path
    /\ Forall (connects routes_csv start stop) res.
Proof.
  induction 1 as [|entry rest Hentry _ IH].
  - exists []. split; [reflexivity|]. split; [reflexivity | constructor].
  - destruct IH as (more & Hmore & Hlen & Hgood).
    destruct (clean_one_connects _ _ _ _ _ Hentry) as (r & Hr & Hcr).
    exists (r :: more). split; [|split].
    + simpl. rewrite Hr. simpl. rewrite Hmore. reflexivity.
    + simpl. rewrite Hlen. reflexivity.
    + constructor; assumption.
Qed.

(** On the leaves of two trees that are not single nodes, [find_routes] is
    still running or has returned routes of the graph. *)
Lemma search_any_levels (routes_csv : list Route) (start stop : string)
  (budget : nat) :
  forall (hf hb : nat),
    height (unfold_tree (find_possible_destinations routes_csv) hf start) <> 0 ->
    height (unfold_tree (find_possible_starts routes_csv) hb stop) <> 0 ->
    let o := find_routes routes_csv budget start stop
               (map ENode (leaves StartTree
                  (unfold_tree (find_possible_destinations routes_csv) hf start)))
               (map ENode (leaves StopTree
                  (unfold_tree (find_possible_starts routes_csv) hb stop)))
               (unfold_tree (find_possible_destinations routes_csv) hf start)
               (unfold_tree (find_possible_starts routes_csv) hb stop) in
    o = Unfinished
    \/ exists res, o = Returned res /\ res <> []
                   /\ Forall (connects routes_csv start stop) res.
Proof.
  induction budget as [|budget IH]; intros hf hb Hs0 Hd0; [left; reflexivity|].
  cbv zeta. rewrite find_routes_S.
  assert (Hnext_start :
    height (unfold_tree (find_possible_destinations routes_csv) (S hf) start) <> 0).
  { destruct (unfold_tree_grows (find_possible_destinations routes_csv) hf start)
      as [E|E]; [rewrite E; exact Hs0 | lia]. }
  assert (Hnext_stop :
    height (unfold_tree (find_possible_starts routes_csv) (S hb) stop) <> 0).
  { destruct (unfold_tree_grows (find_possible_starts routes_csv) hb stop)
      as [E|E]; [rewrite E; exact Hd0 | lia]. }
  assert (Hgrow : forall o,
    o = after_matching routes_csv []
          (unfold_tree (find_possible_destinations routes_csv) hf start)
          (unfold_tree (find_possible_starts routes_csv) hb stop) ->
    let o' := match o with
              | Done o => o
              | Call sl dl sn dn =>
                  find_routes routes_csv budget start stop sl dl sn dn
              end in
    o' = Unfinished
    \/ exists res, o' = Returned res /\ res <> []
                   /\ Forall (connects routes_csv start stop) res).
  { intros o ->. rewrite after_matching_none.
    destruct (height (unfold_tree (find_possible_destinations routes_csv) hf start)
              =? height (unfold_tree (find_possible_starts routes_csv) hb stop))%nat.
    - rewrite grow_start_unfold by exact Hs0. apply IH; assumption.
    - rewrite grow_stop_unfold by exact Hd0. apply IH; assumption. }
  destruct (le_lt_dec 2
    (height (unfold_tree (find_possible_destinations routes_csv) hf start)))
    as [Hhigh|Hlow].
  - rewrite find_routes_body_high by exact Hhigh.
    destruct (matches_of _ _) as [|m ms] eqn:Em.
    + apply Hgrow. reflexivity.
    + rewrite after_matching_some by discriminate.
      destruct (paths_from_tree_entries routes_csv start stop hf hb Hs0 Hd0 (m :: ms))
        as (matched_path & Hpaths & Hlen & Hentries).
      { intros m' Hm'. rewrite Em. exact Hm'. }
      destruct (clean_path_connects _ _ _ _ _ Hentries)
        as (res & Hclean & Hlen' & Hroutes).
      rewrite Hpaths. simpl bind. rewrite Hclean.
      right. exists res. split; [reflexivity|]. split; [|exact Hroutes].
      destruct res; [simpl in *; lia | discriminate].
  - rewrite find_routes_body_low by exact Hlow. apply Hgrow. reflexivity.
Qed.

(** The search is still running, or has returned a non-empty list of routes
    of the graph from the start to the destination. *)
Lemma all_possible_routes_routes (routes_csv : list Route)
  (start_code destination_code : string) (budget : nat) :
  all_possible_routes routes_csv budget start_code destination_code = Unfinished
  \/ exists res,
       all_possible_routes routes_csv budget start_code destination_code
         = Returned res
       /\ res <> []
       /\ Forall (connects routes_csv start_code destination_code) res.
Proof.
  destruct budget as [|budget]; [left; reflexivity|].
  unfold all_possible_routes. rewrite !build_first_level, find_routes_S.
  unfold find_routes_body.
  destruct (py_in (EStr destination_code)
              (map EStr (find_possible_destinations routes_csv start_code)))
    eqn:Edirect.
  { apply py_in_codes in Edirect.
    right. eexists. split; [reflexivity|]. split; [discriminate|].
    constructor; [|constructor].
    split; [|split; reflexivity]. split; [exact Edirect | exact I]. }
  replace (height (unfold_tree (find_possible_destinations routes_csv) 1 start_code)
           <? 2)%nat with true
    by (symmetry; apply Nat.ltb_lt;
        pose proof (height_unfold_tree_le
                      (find_possible_destinations routes_csv) 1 start_code); lia).
  destruct (paths_by_name_entries routes_csv start_code destination_code
              (compare (map EStr (find_possible_starts routes_csv destination_code))
                 (map EStr (find_possible_destinations routes_csv start_code))))
    as (matched_path & Hpaths & Hlen & Hentries).
  { intros e He. apply in_compare_codes, He. }
  rewrite Hpaths.
  destruct matched_path as [|entry matched_path].
  - simpl negb. cbv iota. rewrite after_matching_none.
    destruct (find_possible_destinations routes_csv start_code) as [|y ys] eqn:Ef.
    + rewrite (unfold_no_neighbours _ 1 start_code Ef).
      assert (Hlow := low_without_departures routes_csv start_code Ef).
      destruct (height (leaf start_code)
                =? height (unfold_tree (find_possible_starts routes_csv) 1
                             destination_code))%nat.
      * rewrite low_start_unfinished by (apply low_shift, Hlow).
        left. reflexivity.
      * rewrite low_start_unfinished by exact Hlow. left. reflexivity.
    + assert (Hs0 : height (unfold_tree (find_possible_destinations routes_csv) 1
                              start_code) <> 0).
      { apply height_unfold_pos. rewrite Ef. discriminate. }
      assert (Hs1 : height (unfold_tree (find_possible_destinations routes_csv) 1
                              start_code) = 1).
      { pose proof (height_unfold_tree_le
                      (find_possible_destinations routes_csv) 1 start_code). lia. }
      destruct (find_possible_starts routes_csv destination_code) as [|z zs] eqn:Eb.
      * rewrite (unfold_no_neighbours _ 1 destination_code Eb), Hs1.
        simpl Nat.eqb. cbv iota.
        replace (grow_stop routes_csv (leaf destination_code))
          with (mkNode destination_code [leaf destination_code]) by reflexivity.
        rewrite dead_stop_unfinished by assumption. left. reflexivity.
      * assert (Hd0 : height (unfold_tree (find_possible_starts routes_csv) 1
                                destination_code) <> 0).
        { apply height_unfold_pos. rewrite Eb. discriminate. }
        assert (Hd1 : height (unfold_tree (find_possible_starts routes_csv) 1
                                destination_code) = 1).
        { pose proof (height_unfold_tree_le
                        (find_possible_starts routes_csv) 1 destination_code). lia. }
        rewrite Hs1, Hd1. simpl Nat.eqb. cbv iota.
        rewrite grow_start_unfold by exact Hs0.
        apply search_any_levels; [|exact Hd0].
        destruct (unfold_tree_grows (find_possible_destinations routes_csv) 1
                    start_code) as [E|E]; [rewrite E; exact Hs0 | lia].
  - simpl negb. cbv iota.
    destruct (clean_path_connects _ _ _ _ _ Hentries)
      as (res & Hclean & Hlen' & Hroutes).
    rewrite Hclean. right. exists res. split; [reflexivity|].
    split; [|exact Hroutes].
    destruct res; [discriminate Hlen' | discriminate].
Qed.

(** X1. Whatever the two codes, the search from [main] never ends in an
    exception or in [sys.exit]: it is still running, or it has returned a
    non-empty list of paths, each of which starts at the start code, ends at
    the destination code and follows routes of [routes.csv] from one code
    to the next. *)
Theorem all_possible_routes_are_routes :
  forall (routes_csv : list Route) (start_code destination_code : string)
         (budget : nat),
    all_possible_routes routes_csv budget start_code destination_code = Unfinished
    \/ exists res,
         all_possible_routes routes_csv budget start_code destination_code
           = Returned res
         /\ res <> []
         /\ forall path, In path res ->
              hd_error path = Some start_code
              /\ last_error path = Some destination_code
              /\ chain (find_possible_destinations routes_csv) path.
Proof.
  intros routes_csv start_code destination_code budget.
  destruct (all_possible_routes_routes routes_csv start_code destination_code budget)
    as [H|(res & Hres & Hne & Hroutes)]; [left; exact H|].
  right. exists res. split; [exact Hres|]. split; [exact Hne|].
  intros path Hpath. rewrite Forall_forall in Hroutes.
  destruct (Hroutes path Hpath) as (Hc & Hs & Hd). auto.
Qed.

(** ** The search finds the routes there are *)

Lemma leaves_depth_le_height (t : Side) (n : Node) :
  forall (above : list Step) (i : nat) (r : NodeRef),
    In r (leaves_at t above i n) ->
    List.length (ref_path r) <= List.length above + 1 + height n.
Proof.
  induction n as [nm cs IH] using Node_children_ind. intros above i r Hin.
  destruct cs as [|c cs].
  - simpl in Hin. destruct Hin as [<-|[]]. simpl. rewrite length_app. simpl. lia.
  - apply leaves_at_children in Hin. destruct Hin as (k & child & Hk & Hr).
    rewrite Forall_forall in IH.
    assert (Hchild : In child (c :: cs)) by exact (nth_error_In _ _ Hk).
    specialize (IH child Hchild _ _ _ Hr).
    rewrite length_app in IH. simpl in IH.
    assert (Hmax : height child <= list_max (map height (c :: cs)))
      by (apply in_list_max, in_map, Hchild).
    change (height (mkNode nm (c :: cs))) with (S (list_max (map height (c :: cs)))).
    lia.
Qed.

(** A chain of [k] hops from a code makes its tree of depth [k] exactly [k]
    levels high. *)
Lemma height_unfold_chain (nbr : string -> list string) (k : nat) (x : string)
  (codes : list string) :
  chain nbr (x :: codes) -> List.length codes = k ->
  height (unfold_tree nbr k x) = k.
Proof.
  intros Hc Hlen.
  destruct (leaves_unfold_reach nbr StartTree k x codes Hc Hlen) as (r & Hr & Hnames).
  assert (Hd := leaves_depth_le_height StartTree _ [] 0 r Hr).
  assert (Hl : List.length (ref_path r) = S k).
  { unfold ref_names in Hnames. apply (f_equal (@List.length string)) in Hnames.
    rewrite length_map in Hnames. simpl in Hnames.
    rewrite <- Hlen. exact Hnames. }
  pose proof (height_unfold_tree_le nbr k x). simpl in Hd. lia.
Qed.

Lemma chain_take (nbr : string -> list string) (x : string) (l : list string)
  (k : nat) :
  chain nbr (x :: l) -> k <= List.length l ->
  exists c, chain nbr (x :: c) /\ List.length c = k.
Proof.
  intros Hc Hk. exists (firstn k l). split.
  - rewrite <- (firstn_skipn k l) in Hc.
    change (x :: firstn k l ++ skipn k l) with ((x :: firstn k l) ++ skipn k l) in Hc.
    exact (chain_prefix _ _ _ Hc).
  - rewrite length_firstn. lia.
Qed.

Lemma route_departs (routes_csv : list Route) (start stop : string)
  (codes : list string) (k : nat) :
  connects routes_csv start stop codes -> k < List.length codes ->
  exists c, chain (find_possible_destinations routes_csv) (start :: c)
            /\ List.length c = k.
Proof.
  intros (Hc & Hs & _) Hk. destruct codes as [|a l]; [discriminate|].
  simpl in Hs. injection Hs as ->. apply (chain_take _ _ l); [exact Hc|].
  simpl in Hk. lia.
Qed.

Lemma route_arrives (routes_csv : list Route) (start stop : string)
  (codes : list string) (k : nat) :
  connects routes_csv start stop codes -> k < List.length codes ->
  exists c, chain (find_possible_starts routes_csv) (stop :: c)
            /\ List.length c = k.
Proof.
  intros (Hc & _ & Hd) Hk.
  apply (chain_rev _ (find_possible_starts routes_csv)) in Hc;
    [|intros a b H; apply starts_destinations, H].
  rewrite <- hd_error_rev in Hd.
  destruct (rev codes) as [|a l] eqn:E; [discriminate|].
  simpl in Hd. injection Hd as ->. apply (chain_take _ _ l); [exact Hc|].
  assert (Hl : List.length (rev codes) = S (List.length l)) by (rewrite E; reflexivity).
  rewrite length_rev in Hl. lia.
Qed.

(** A search that has returned returns the same with a larger budget. *)
Lemma find_routes_more_budget (routes_csv : list Route) (start stop : string)
  (budget : nat) :
  forall (more : nat) (start_list destination_list : list Elem)
         (start_node stop_node : Node) (res : list (list string)),
    find_routes routes_csv budget start stop start_list destination_list
      start_node stop_node = Returned res ->
    find_routes routes_csv (budget + more) start stop start_list destination_list
      start_node stop_node = Returned res.
Proof.
  induction budget as [|budget IH]; intros more sl dl sn dn res; [discriminate|].
  change (S budget + more) with (S (budget + more)).
  rewrite !find_routes_S.
  destruct (find_routes_body routes_csv start stop sl dl sn dn); [auto|].
  apply IH.
Qed.

(** From the second level on, a route of [gap] codes more than the levels
    reached so far is found within [gap + 1] activations. *)
Lemma search_levels_finds (routes_csv : list Route) (start stop : string)
  (codes : list string) (gap : nat) :
  connects routes_csv start stop codes ->
  forall (hf hb : nat),
    2 <= hf -> 1 <= hb ->
    height (unfold_tree (find_possible_destinations routes_csv) hf start) = hf ->
    height (unfold_tree (find_possible_starts routes_csv) hb stop) = hb ->
    (forall other, connects routes_csv start stop other ->
       hf + hb + 1 <= List.length other) ->
    List.length codes = hf + hb + 1 + gap ->
    exists res,
      find_routes routes_csv (S gap) start stop
        (map ENode (leaves StartTree
           (unfold_tree (find_possible_destinations routes_csv) hf start)))
        (map ENode (leaves StopTree
           (unfold_tree (find_possible_starts routes_csv) hb stop)))
        (unfold_tree (find_possible_destinations routes_csv) hf start)
        (unfold_tree (find_possible_starts routes_csv) hb stop)
      = Returned res.
Proof.
  intros Hcodes. induction gap as [|gap IH]; intros hf hb Hhf Hhb Hsh Hdh Hmin Hlen;
    rewrite find_routes_S, find_routes_body_high by lia.
  - assert (Hs0 : height (unfold_tree (find_possible_destinations routes_csv) hf start)
                  <> 0) by lia.
    assert (Hd0 : height (unfold_tree (find_possible_starts routes_csv) hb stop)
                  <> 0) by lia.
    destruct (matches_of _ _) as [|m ms] eqn:Em.
    + exfalso.
      pose proof (no_match_no_route routes_csv start stop hf hb Hs0 Hd0 Hmin Em
                    codes Hcodes). lia.
    + rewrite after_matching_some by discriminate.
      destruct (paths_from_tree_entries routes_csv start stop hf hb Hs0 Hd0 (m :: ms))
        as (matched_path & Hpaths & _ & Hentries).
      { intros m' Hm'. rewrite Em. exact Hm'. }
      destruct (clean_path_connects _ _ _ _ _ Hentries) as (res & Hclean & _).
      rewrite Hpaths. simpl bind. rewrite Hclean. exists res. reflexivity.
  - assert (Hs0 : height (unfold_tree (find_possible_destinations routes_csv) hf start)
                  <> 0) by lia.
    assert (Hd0 : height (unfold_tree (find_possible_starts routes_csv) hb stop)
                  <> 0) by lia.
    destruct (matches_of _ _) as [|m ms] eqn:Em.
    + assert (Hmin' := no_match_no_route routes_csv start stop hf hb Hs0 Hd0 Hmin Em).
      rewrite after_matching_none, Hsh, Hdh.
      destruct (hf =? hb)%nat.
      * rewrite grow_start_unfold by exact Hs0.
        destruct (route_departs routes_csv start stop codes (S hf) Hcodes)
          as (c & Hc & Hlc); [lia|].
        apply IH;
          [lia | lia | exact (height_unfold_chain _ _ _ _ Hc Hlc) | exact Hdh
          | intros other Hother; specialize (Hmin' other Hother); lia | lia].
      * rewrite grow_stop_unfold by exact Hd0.
        destruct (route_arrives routes_csv start stop codes (S hb) Hcodes)
          as (c & Hc & Hlc); [lia|].
        apply IH;
          [lia | lia | exact Hsh | exact (height_unfold_chain _ _ _ _ Hc Hlc)
          | intros other Hother; specialize (Hmin' other Hother); lia | lia].
    + rewrite after_matching_some by discriminate.
      destruct (paths_from_tree_entries routes_csv start stop hf hb Hs0 Hd0 (m :: ms))
        as (matched_path & Hpaths & _ & Hentries).
      { intros m' Hm'. rewrite Em. exact Hm'. }
      destruct (clean_path_connects _ _ _ _ _ Hentries) as (res & Hclean & _).
      rewrite Hpaths. simpl bind. rewrite Hclean. exists res. reflexivity.
Qed.

(** Between two different codes joined by a route, the search returns
    within as many activations as the route has codes. *)
Lemma all_possible_routes_finds (routes_csv : list Route)
  (start_code destination_code : string) (codes : list string) :
  start_code <> destination_code ->
  connects routes_csv start_code destination_code codes ->
  exists res,
    all_possible_routes routes_csv (List.length codes) start_code destination_code
    = Returned res.
Proof.
  intros Hne Hcodes.
  assert (H2 := route_two_codes _ _ _ _ Hne Hcodes).
  destruct (List.length codes) as [|budget] eqn:Elen; [lia|].
  unfold all_possible_routes. rewrite !build_first_level, find_routes_S.
  unfold find_routes_body.
  destruct (py_in (EStr destination_code)
              (map EStr (find_possible_destinations routes_csv start_code)))
    eqn:Edirect.
  { eexists. reflexivity. }
  assert (Hdirect : ~ In destination_code
                      (find_possible_destinations routes_csv start_code)).
  { intros H. apply py_in_codes in H. congruence. }
  replace (height (unfold_tree (find_possible_destinations routes_csv) 1 start_code)
           <? 2)%nat with true
    by (symmetry; apply Nat.ltb_lt;
        pose proof (height_unfold_tree_le
                      (find_possible_destinations routes_csv) 1 start_code); lia).
  destruct (paths_by_name_entries routes_csv start_code destination_code
              (compare (map EStr (find_possible_starts routes_csv destination_code))
                 (map EStr (find_possible_destinations routes_csv start_code))))
    as (matched_path & Hpaths & Hlen & Hentries).
  { intros e He. apply in_compare_codes, He. }
  rewrite Hpaths.
  destruct matched_path as [|entry matched_path].
  - assert (Hnone : compare
                      (map EStr (find_possible_starts routes_csv destination_code))
                      (map EStr (find_possible_destinations routes_csv start_code))
                    = []).
    { destruct (compare _ _); [reflexivity | discriminate]. }
    assert (Hfour : forall other,
              connects routes_csv start_code destination_code other ->
              4 <= List.length other).
    { intros other Hother.
      exact (route_four_codes _ _ _ _ Hne Hdirect Hnone Hother). }
    assert (H4 := Hfour codes Hcodes).
    simpl negb. cbv iota. rewrite after_matching_none.
    destruct (route_departs routes_csv start_code destination_code codes 1 Hcodes)
      as (c1 & Hc1 & Hl1); [lia|].
    destruct (route_departs routes_csv start_code destination_code codes 2 Hcodes)
      as (c2 & Hc2 & Hl2); [lia|].
    destruct (route_arrives routes_csv start_code destination_code codes 1 Hcodes)
      as (d1 & Hd1 & Hm1); [lia|].
    assert (Hs1 := height_unfold_chain _ _ _ _ Hc1 Hl1).
    assert (Hs2 := height_unfold_chain _ _ _ _ Hc2 Hl2).
    assert (Hb1 := height_unfold_chain _ _ _ _ Hd1 Hm1).
    rewrite Hs1, Hb1. simpl Nat.eqb. cbv iota.
    rewrite grow_start_unfold by lia.
    assert (Hmin3 : forall other,
              connects routes_csv start_code destination_code other ->
              2 + 1 + 1 <= List.length other).
    { intros other Hother. specialize (Hfour other Hother). lia. }
    assert (Hlen3 : List.length codes = 2 + 1 + 1 + (List.length codes - 4)) by lia.
    destruct (search_levels_finds routes_csv start_code destination_code codes
                (List.length codes - 4) Hcodes 2 1 (le_n 2) (le_n 1) Hs2 Hb1
                Hmin3 Hlen3) as (res & Hres).
    exists res.
    replace budget
      with (S (List.length codes - 4) + (budget - S (List.length codes - 4)))
      by lia.
    apply find_routes_more_budget. exact Hres.
  - simpl negb. cbv iota.
    destruct (clean_path_connects _ _ _ _ _ Hentries) as (res & Hclean & _).
    exists res. exact Hclean.
Qed.

(** X2. Between two different codes that some route of the graph joins, the
    search from [main] does return: as many activations as the route has
    codes are enough, more activations give the same list, and the list is
    a non-empty list of shortest routes. *)
Theorem all_possible_routes_returns :
  forall (routes_csv : list Route) (start_code destination_code : string)
         (codes : list string),
    start_code <> destination_code ->
    connects routes_csv start_code destination_code codes ->
    exists res,
      (forall more,
         all_possible_routes routes_csv (List.length codes + more)
           start_code destination_code = Returned res)
      /\ res <> []
      /\ forall path, In path res ->
           shortest_route routes_csv start_code destination_code path.
Proof.
  intros routes_csv start_code destination_code codes Hne Hcodes.
  destruct (all_possible_routes_finds _ _ _ _ Hne Hcodes) as (res & Hres).
  exists res.
  destruct (all_possible_routes_shortest _ _ _ _ _ Hne Hres) as [Hnonempty Hshort].
  split; [|split; [exact Hnonempty | apply Forall_forall, Hshort]].
  intros more. unfold all_possible_routes in *.
  apply find_routes_more_budget. exact Hres.
Qed.

Lemma all_possible_routes_returns_witness :
  exists res,
    (forall more,
       all_possible_routes
         [mkRoute 1 "A" "B" 0; mkRoute 1 "B" "C" 0; mkRoute 2 "C" "D" 1;
          mkRoute 2 "D" "A" 0]
         (List.length ["A"; "B"; "C"; "D"] + more) "A" "D" = Returned res)
    /\ res <> []
    /\ forall path, In path res ->
         shortest_route
           [mkRoute 1 "A" "B" 0; mkRoute 1 "B" "C" 0; mkRoute 2 "C" "D" 1;
            mkRoute 2 "D" "A" 0] "A" "D" path.
Proof.
  apply (all_possible_routes_returns
           [mkRoute 1 "A" "B" 0; mkRoute 1 "B" "C" 0; mkRoute 2 "C" "D" 1;
            mkRoute 2 "D" "A" 0] "A" "D" ["A"; "B"; "C"; "D"]).
  - discriminate.
  - split; [|split; reflexivity].
    simpl. repeat split; vm_compute; auto.
Defined.

(** ** The trees the search builds *)

Lemma iter_grow_start (routes_csv : list Route) (start : string) (n : nat) :
  find_possible_destinations routes_csv start <> [] ->
  Nat.iter n (grow_start routes_csv)
    (build_search_tree (leaf start) (find_possible_destinations routes_csv start)
       (find_possible_destinations routes_csv))
  = unfold_tree (find_possible_destinations routes_csv) (S n) start.
Proof.
  intros Hne. induction n as [|n IH]; [apply build_first_level|].
  simpl Nat.iter. rewrite IH. apply grow_start_unfold, height_unfold_pos, Hne.
Qed.

Lemma iter_grow_stop (routes_csv : list Route) (stop : string) (n : nat) :
  find_possible_starts routes_csv stop <> [] ->
  Nat.iter n (grow_stop routes_csv)
    (build_search_tree (leaf stop) (find_possible_starts routes_csv stop)
       (find_possible_starts routes_csv))
  = unfold_tree (find_possible_starts routes_csv) (S n) stop.
Proof.
  intros Hne. induction n as [|n IH]; [apply build_first_level|].
  simpl Nat.iter. rewrite IH. apply grow_stop_unfold, height_unfold_pos, Hne.
Qed.

Lemma leaves_unfold_iff (nbr : string -> list string) (t : Side) (k : nat)
  (x : string) (codes : list string) :
  List.length codes = k ->
  (chain nbr (x :: codes) <->
   exists r, In r (leaves t (unfold_tree nbr k x)) /\ ref_names r = x :: codes).
Proof.
  intros Hlen. split.
  - intros Hc. exact (leaves_unfold_reach nbr t k x codes Hc Hlen).
  - intros (r & Hr & Hnames).
    destruct (leaves_unfold_names nbr t k x r Hr) as (codes' & Hn' & Hc & _).
    rewrite Hnames in Hn'. injection Hn' as ->. exact Hc.
Qed.

(** X3. After the tree of the start has been built by [main] and grown [n]
    more times by [find_routes], its leaves at full depth are the chains
    of routes that leave the start: [n + 1] codes after the start code are
    read along the path of a leaf exactly when each of them is a
    destination of a route from the code before it. *)
Theorem start_tree_holds_all_routes :
  forall (routes_csv : list Route) (start : string) (n : nat)
         (codes : list string),
    find_possible_destinations routes_csv start <> [] ->
    List.length codes = S n ->
    (chain (find_possible_destinations routes_csv) (start :: codes) <->
     exists r,
       In r (leaves StartTree
               (Nat.iter n (grow_start routes_csv)
                  (build_search_tree (leaf start)
                     (find_possible_destinations routes_csv start)
                     (find_possible_destinations routes_csv))))
       /\ ref_names r = start :: codes).
Proof.
  intros routes_csv start n codes Hne Hlen.
  rewrite iter_grow_start by exact Hne.
  apply leaves_unfold_iff, Hlen.
Qed.

Lemma start_tree_holds_all_routes_witness :
  chain (find_possible_destinations
           [mkRoute 1 "A" "B" 0; mkRoute 1 "B" "C" 0; mkRoute 1 "B" "A" 0])
        ("A" :: ["B"; "C"])
  <-> exists r,
        In r (leaves StartTree
                (Nat.iter 1
                   (grow_start
                      [mkRoute 1 "A" "B" 0; mkRoute 1 "B" "C" 0; mkRoute 1 "B" "A" 0])
                   (build_search_tree (leaf "A")
                      (find_possible_destinations
                         [mkRoute 1 "A" "B" 0; mkRoute 1 "B" "C" 0;
                          mkRoute 1 "B" "A" 0] "A")
                      (find_possible_destinations
                         [mkRoute 1 "A" "B" 0; mkRoute 1 "B" "C" 0;
                          mkRoute 1 "B" "A" 0]))))
        /\ ref_names r = "A" :: ["B"; "C"].
Proof.
  apply start_tree_holds_all_routes; [discriminate | reflexivity].
Defined.

(** X4. The same for the tree of the destination, read against the
    direction of the routes: the codes along the path of a leaf at full
    depth are, each, the source of a route into the code before it. *)
Theorem stop_tree_holds_all_routes :
  forall (routes_csv : list Route) (stop : string) (n : nat)
         (codes : list string),
    find_possible_starts routes_csv stop <> [] ->
    List.length codes = S n ->
    (chain (find_possible_destinations routes_csv) (rev (stop :: codes)) <->
     exists r,
       In r (leaves StopTree
               (Nat.iter n (grow_stop routes_csv)
                  (build_search_tree (leaf stop)
                     (find_possible_starts routes_csv stop)
                     (find_possible_starts routes_csv))))
       /\ ref_names r = stop :: codes).
Proof.
  intros routes_csv stop n codes Hne Hlen.
  rewrite iter_grow_stop by exact Hne.
  rewrite <- (leaves_unfold_iff _ StopTree (S n) stop codes Hlen). split.
  - intros H. apply (chain_rev _ (find_possible_starts routes_csv)) in H.
    + rewrite rev_involutive in H. exact H.
    + intros a b Hab. apply starts_destinations, Hab.
  - intros H. apply (chain_rev (find_possible_starts routes_csv)); [|exact H].
    intros a b Hab. apply starts_destinations, Hab.
Qed.

Lemma stop_tree_holds_all_routes_witness :
  chain (find_possible_destinations
           [mkRoute 1 "A" "B" 0; mkRoute 1 "B" "C" 0; mkRoute 1 "B" "A" 0])
        (rev ("C" :: ["B"; "A"]))
  <-> exists r,
        In r (leaves StopTree
                (Nat.iter 1
                   (grow_stop
                      [mkRoute 1 "A" "B" 0; mkRoute 1 "B" "C" 0; mkRoute 1 "B" "A" 0])
                   (build_search_tree (leaf "C")
                      (find_possible_starts
                         [mkRoute 1 "A" "B" 0; mkRoute 1 "B" "C" 0;
                          mkRoute 1 "B" "A" 0] "C")
                      (find_possible_starts
                         [mkRoute 1 "A" "B" 0; mkRoute 1 "B" "C" 0;
                          mkRoute 1 "B" "A" 0]))))
        /\ ref_names r = "C" :: ["B"; "A"].
Proof.
  apply stop_tree_holds_all_routes; [discriminate | reflexivity].
Defined.

Lemma list_max_map_between (f g : Node -> nat) (cs : list Node) :
  Forall (fun c => f c <= g c <= S (f c)) cs ->
  list_max (map f cs) <= list_max (map g cs) <= S (list_max (map f cs)).
Proof.
  induction 1 as [|c cs Hc _ IH]; simpl; lia.
Qed.

Lemma height_expand_leaves (list_function : string -> list string) (n : Node) :
  height n <= height (expand_leaves list_function n) <= S (height n).
Proof.
  induction n as [nm cs IH] using Node_children_ind.
  destruct cs as [|c cs].
  - change (expand_leaves list_function (mkNode nm []))
      with (mkNode nm (map leaf (list_function nm))).
    change (height (mkNode nm [])) with 0.
    destruct (list_function nm) as [|y ys]; [simpl; lia|].
    assert (Hz : list_max (map height (map leaf (y :: ys))) <= 0).
    { apply list_max_le. rewrite Forall_forall. intros h Hh.
      apply in_map_iff in Hh. destruct Hh as (c & <- & Hc).
      apply in_map_iff in Hc. destruct Hc as (z & <- & _). simpl. lia. }
    change (height (mkNode nm (map leaf (y :: ys))))
      with (S (list_max (map height (map leaf (y :: ys))))).
    lia.
  - change (expand_leaves list_function (mkNode nm (c :: cs)))
      with (mkNode nm (map (expand_leaves list_function) (c :: cs))).
    change (height (mkNode nm (c :: cs))) with (S (list_max (map height (c :: cs)))).
    change (height (mkNode nm (map (expand_leaves list_function) (c :: cs))))
      with (S (list_max (map height (map (expand_leaves list_function) (c :: cs))))).
    rewrite map_map.
    pose proof (list_max_map_between height
                  (fun c => height (expand_leaves list_function c)) (c :: cs) IH).
    lia.
Qed.

(** X5. [build_search_tree] keeps the name of the root, never makes the
    tree lower and never adds more than one level. *)
Theorem build_search_tree_one_level :
  forall (node : Node) (possible_list : list string)
         (list_function : string -> list string),
    name (build_search_tree node possible_list list_function) = name node
    /\ height node <= height (build_search_tree node possible_list list_function)
    /\ height (build_search_tree node possible_list list_function)
       <= S (height node).
Proof.
  intros [nm cs] possible_list list_function. unfold build_search_tree.
  destruct cs as [|c cs].
  - change (is_leaf (mkNode nm [])) with true. cbv iota.
    split; [reflexivity|].
    change (height (mkNode nm [])) with 0.
    destruct possible_list as [|y ys]; [simpl; lia|].
    assert (Hz : list_max (map height (map leaf (y :: ys))) <= 0).
    { apply list_max_le. rewrite Forall_forall. intros h Hh.
      apply in_map_iff in Hh. destruct Hh as (c & <- & Hc).
      apply in_map_iff in Hc. destruct Hc as (z & <- & _). simpl. lia. }
    change (height (mkNode (name (mkNode nm [])) (map leaf (y :: ys))))
      with (S (list_max (map height (map leaf (y :: ys))))).
    lia.
  - change (is_leaf (mkNode nm (c :: cs))) with false. cbv iota.
    split; [reflexivity|].
    apply height_expand_leaves.
Qed.

(** ** Looking paths up and cleaning them *)

Lemma leaf_has_parent (t : Side) (tree : Node) (r : NodeRef) :
  In r (leaves t tree) -> children tree <> [] ->
  exists p, ref_parent r = Some p.
Proof.
  intros Hin Hch.
  destruct (leaves_at_shape t tree [] 0 r Hin) as [_ (below & Hpath & Hbelow)].
  simpl in Hpath. unfold ref_parent. rewrite Hpath.
  destruct below as [|b l]; [exfalso; apply Hch, Hbelow; reflexivity|].
  eexists. reflexivity.
Qed.

(** X6. In a tree that is more than a single node, [get_path_from_tree]
    asked for a leaf and the parent of that leaf returns a path, and the
    codes along that path are the codes along the path of the leaf, down
    to the code of the leaf itself. *)
Theorem get_path_from_tree_finds_leaf :
  forall (t : Side) (tree : Node) (r : NodeRef),
    In r (leaves t tree) ->
    children tree <> [] ->
    exists path,
      get_path_from_tree r (ref_parent r) t tree = Returned (Some path)
      /\ map item_name path = ref_names r
      /\ last_error (map item_name path) = Some (ref_name r).
Proof.
  intros t tree r Hin Hch.
  destruct (leaf_has_parent t tree r Hin Hch) as [p Hp].
  rewrite Hp.
  destruct (get_path_from_leaves_found r p (leaves t tree) Hin Hp)
    as (path & Hpath & Hnames).
  exists path. split; [exact Hpath|]. split; [exact Hnames|].
  rewrite Hnames.
  destruct (ref_parent_some r p Hp) as (_ & _ & _ & Hne).
  rewrite (ref_names_split r Hne). apply last_error_app.
Qed.

Lemma get_path_from_tree_finds_leaf_witness :
  exists path,
    get_path_from_tree (mkRef StartTree [(0, "A"); (1, "C")])
      (ref_parent (mkRef StartTree [(0, "A"); (1, "C")])) StartTree
      (mkNode "A" [leaf "B"; leaf "C"]) = Returned (Some path)
    /\ map item_name path = ref_names (mkRef StartTree [(0, "A"); (1, "C")])
    /\ last_error (map item_name path)
       = Some (ref_name (mkRef StartTree [(0, "A"); (1, "C")])).
Proof.
  apply get_path_from_tree_finds_leaf.
  - right. left. reflexivity.
  - discriminate.
Defined.

(** X7. [get_path] asked for a code returns the path of a leaf that carries
    this code, and returns [None] exactly when no leaf carries it; asked
    for a node object instead of a code it always returns [None]. *)
Theorem get_path_by_code :
  forall (t : Side) (tree : Node) (code : string),
    (forall path, get_path (EStr code) t tree = Some path ->
       exists r, In r (leaves t tree) /\ ref_name r = code
                 /\ map item_name path = ref_names r)
    /\ (get_path (EStr code) t tree = None <->
        forall r, In r (leaves t tree) -> ref_name r <> code)
    /\ (forall n, get_path (ENode n) t tree = None).
Proof.
  intros t tree code. unfold get_path. split; [|split].
  - intros path H.
    destruct (find (fun some_node => name_is some_node (EStr code)) (leaves t tree))
      as [r|] eqn:F; [|discriminate].
    simpl in H. injection H as <-.
    apply find_some in F. destruct F as [Hr Hname]. simpl in Hname.
    apply String.eqb_eq in Hname.
    exists r. split; [exact Hr|]. split; [exact Hname|].
    apply item_name_node_path.
  - split.
    + intros H r Hr.
      destruct (find (fun some_node => name_is some_node (EStr code)) (leaves t tree))
        as [r'|] eqn:F; [discriminate|].
      apply (find_none _ _ F) in Hr. simpl in Hr.
      apply String.eqb_neq, Hr.
    + intros H.
      destruct (find (fun some_node => name_is some_node (EStr code)) (leaves t tree))
        as [r'|] eqn:F; [|reflexivity].
      apply find_some in F. destruct F as [Hr Hname]. simpl in Hname.
      apply String.eqb_eq in Hname. exfalso. exact (H r' Hr Hname).
  - intros n. induction (leaves t tree) as [|r l IH]; [reflexivity|]. exact IH.
Qed.

(** What [append_new] appends comes from the items, in their order, and
    never repeats the code before it. *)
Lemma append_new_appends (items : PyPath) :
  forall (temp : list string) (l : string),
    last_error temp = Some l ->
    exists extra,
      append_new temp items = Returned (temp ++ extra)
      /\ incl extra (map item_name items)
      /\ adjacent_distinct (l :: extra).
Proof.
  induction items as [|it items IH]; intros temp l Hl.
  - exists []. simpl. rewrite app_nil_r.
    split; [reflexivity|]. split; [intros x []| exact I].
  - simpl. rewrite Hl. destruct (l =? item_name it)%string eqn:E; simpl.
    + destruct (IH temp l Hl) as (extra & Hr & Hincl & Hadj).
      exists extra. split; [exact Hr|]. split; [|exact Hadj].
      intros x Hx. right. apply Hincl, Hx.
    + destruct (IH (temp ++ [item_name it]) (item_name it)) as (extra & Hr & Hincl & Hadj).
      { apply last_error_app. }
      exists (item_name it :: extra). split; [|split].
      * rewrite Hr, <- app_assoc. reflexivity.
      * intros x [<-|Hx]; [left; reflexivity | right; apply Hincl, Hx].
      * split; [apply String.eqb_neq, E | exact Hadj].
Qed.

(** X8. Given pairs of a non-empty forward path and a backward path,
    [clean_path] returns one list of codes per pair: the codes of the
    forward path, followed by codes of the backward path in their order,
    of which only those are kept that differ from the code just before
    them. *)
Theorem clean_path_keeps_forward_path :
  forall (paths_list : list (option PyPath * option PyPath)),
    (forall entry, In entry paths_list ->
       exists f s, entry = (Some f, Some s) /\ f <> []) ->
    exists res,
      clean_path paths_list = Returned res
      /\ Forall2
           (fun entry r =>
              exists f s l extra,
                entry = (Some f, Some s)
                /\ last_error (map item_name f) = Some l
                /\ r = map item_name f ++ extra
                /\ incl extra (map item_name s)
                /\ adjacent_distinct (l :: extra))
           paths_list res.
Proof.
  induction paths_list as [|entry rest IH]; intros Hall.
  - exists []. split; [reflexivity | constructor].
  - destruct IH as (more & Hmore & Hrel).
    { intros e He. apply Hall. right. exact He. }
    destruct (Hall entry (or_introl eq_refl)) as (f & s & -> & Hne).
    destruct (last_error_some (map item_name f)) as [l Hl].
    { destruct f; [congruence | discriminate]. }
    destruct (append_new_appends s (map item_name f) l Hl)
      as (extra & Hr & Hincl & Hadj).
    exists ((map item_name f ++ extra) :: more). split.
    + simpl. unfold clean_one. simpl. rewrite Hr. simpl. rewrite Hmore. reflexivity.
    + constructor; [|exact Hrel].
      exists f, s, l, extra. auto.
Qed.

Lemma clean_path_keeps_forward_path_witness :
  exists res,
    clean_path [(Some [ItemStr "A"; ItemNode (0, "B")],
                 Some [ItemNode (0, "B"); ItemNode (2, "B"); ItemStr "C"])]
      = Returned res
    /\ Forall2
         (fun entry r =>
            exists f s l extra,
              entry = (Some f, Some s)
              /\ last_error (map item_name f) = Some l
              /\ r = map item_name f ++ extra
              /\ incl extra (map item_name s)
              /\ adjacent_distinct (l :: extra))
         [(Some [ItemStr "A"; ItemNode (0, "B")],
           Some [ItemNode (0, "B"); ItemNode (2, "B"); ItemStr "C"])] res.
Proof.
  apply clean_path_keeps_forward_path.
  intros entry [<-|[]]. eexists. eexists. split; [reflexivity | discriminate].
Defined.

(** ** Flight details and airlines *)

Lemma find_flight_details_In (routes_csv : list Route) (a b : string)
  (detail : Z * Z) :
  In detail (find_flight_details routes_csv a b) <->
  exists route, In route routes_csv
                /\ route_source route = a /\ route_dest route = b
                /\ detail = (route_airline route, route_stops route).
Proof.
  unfold find_flight_details. rewrite in_map_iff. split.
  - intros (r & <- & Hr). apply filter_In in Hr. destruct Hr as [Hr Hab].
    apply andb_true_iff in Hab. destruct Hab as [Ha Hb].
    apply String.eqb_eq in Ha. apply String.eqb_eq in Hb. exists r. auto.
  - intros (r & Hr & Ha & Hb & ->). exists r. split; [reflexivity|].
    apply filter_In. split; [exact Hr|].
    apply andb_true_iff. split; apply String.eqb_eq; assumption.
Qed.

Lemma find_flight_details_nonempty (routes_csv : list Route) (a b : string) :
  find_flight_details routes_csv a b <> [] <->
  In b (find_possible_destinations routes_csv a).
Proof.
  rewrite find_possible_destinations_In. split.
  - intros Hne. destruct (find_flight_details routes_csv a b) as [|d l] eqn:E;
      [congruence|].
    assert (Hd : In d (find_flight_details routes_csv a b))
      by (rewrite E; left; reflexivity).
    apply find_flight_details_In in Hd.
    destruct Hd as (r & Hr & Ha & Hb & _). exists r. auto.
  - intros (r & Hr & Ha & Hb) E.
    assert (Hd : In (route_airline r, route_stops r)
                   (find_flight_details routes_csv a b)).
    { apply find_flight_details_In. exists r. auto. }
    rewrite E in Hd. destruct Hd.
Qed.

(** X12. [find_flight_details] lists the airline and the stops of the
    routes from the first code to the second, one entry per route; it is
    non-empty exactly when the second code is among the destinations
    [find_possible_destinations] gives for the first, which is when the
    first is among the starts [find_possible_starts] gives for the
    second. *)
Theorem find_flight_details_of_neighbours :
  forall (routes_csv : list Route) (a b : string),
    (forall detail,
       In detail (find_flight_details routes_csv a b) <->
       exists route, In route routes_csv
                     /\ route_source route = a /\ route_dest route = b
                     /\ detail = (route_airline route, route_stops route))
    /\ (find_flight_details routes_csv a b <> [] <->
        In b (find_possible_destinations routes_csv a))
    /\ (find_flight_details routes_csv a b <> [] <->
        In a (find_possible_starts routes_csv b)).
Proof.
  intros routes_csv a b. split; [|split].
  - intros detail. apply find_flight_details_In.
  - apply find_flight_details_nonempty.
  - rewrite starts_destinations. apply find_flight_details_nonempty.
Qed.

(** X13. Every flight of a path the search returns has flight details:
    for two codes that follow each other in such a path,
    [find_flight_details] is not empty. *)
Theorem returned_paths_have_flight_details :
  forall (routes_csv : list Route) (start_code destination_code : string)
         (budget : nat) (res : list (list string)) (path before after : list string)
         (a b : string),
    all_possible_routes routes_csv budget start_code destination_code
      = Returned res ->
    In path res ->
    path = before ++ a :: b :: after ->
    find_flight_details routes_csv a b <> [].
Proof.
  intros routes_csv start_code destination_code budget res path before after a b
         Hres Hpath ->.
  destruct (all_possible_routes_routes routes_csv start_code destination_code budget)
    as [H|(res' & Hres' & _ & Hroutes)]; [congruence|].
  rewrite Hres in Hres'. injection Hres' as <-.
  rewrite Forall_forall in Hroutes. destruct (Hroutes _ Hpath) as (Hc & _).
  apply chain_suffix in Hc. destruct Hc as [Hab _].
  apply find_flight_details_nonempty, Hab.
Qed.

Lemma returned_paths_have_flight_details_witness :
  find_flight_details
    [mkRoute 1 "A" "B" 0; mkRoute 1 "B" "C" 0; mkRoute 2 "C" "D" 1;
     mkRoute 2 "D" "A" 0] "B" "C" <> [].
Proof.
  apply (returned_paths_have_flight_details
           [mkRoute 1 "A" "B" 0; mkRoute 1 "B" "C" 0; mkRoute 2 "C" "D" 1;
            mkRoute 2 "D" "A" 0] "A" "D" 4 [["A"; "B"; "C"; "D"]]
           ["A"; "B"; "C"; "D"] ["A"] ["D"] "B" "C").
  - reflexivity.
  - left. reflexivity.
  - reflexivity.
Defined.

Lemma find_first {A : Type} (f : A -> bool) (l : list A) (a : A) :
  find f l = Some a ->
  exists l1 l2, l = l1 ++ a :: l2 /\ f a = true
                /\ forall x, In x l1 -> f x = false.
Proof.
  induction l as [|b l IH]; [discriminate|].
  simpl. destruct (f b) eqn:E.
  - intros H. injection H as <-. exists [], l. split; [reflexivity|].
    split; [exact E | intros x []].
  - intros H. destruct (IH H) as (l1 & l2 & -> & Hfa & Hl1).
    exists (b :: l1), l2. split; [reflexivity|]. split; [exact Hfa|].
    intros x [<-|Hx]; [exact E | apply Hl1, Hx].
Qed.

(** X14. [find_airline] returns the IATA and ICAO codes of the first row of
    [airlines.csv] that has the asked id and is active, and returns [None]
    exactly when no row has both; [all_airlines] asks it once for every
    flight detail, in order. *)
Theorem find_airline_first_active :
  forall (airlines_csv : list Airline) (number : Z),
    (forall iata icao,
       find_airline airlines_csv number = Some (iata, icao) ->
       exists before airline after,
         airlines_csv = before ++ airline :: after
         /\ airline_id airline = number /\ airline_active airline = "Y"
         /\ airline_iata airline = iata /\ airline_icao airline = icao
         /\ forall other, In other before ->
              ~ (airline_id other = number /\ airline_active other = "Y"))
    /\ (find_airline airlines_csv number = None <->
        forall airline, In airline airlines_csv ->
          ~ (airline_id airline = number /\ airline_active airline = "Y"))
    /\ (forall flight_details,
          List.length (all_airlines airlines_csv flight_details)
            = List.length flight_details
          /\ forall i detail, nth_error flight_details i = Some detail ->
               nth_error (all_airlines airlines_csv flight_details) i
                 = Some (find_airline airlines_csv (fst detail))).
Proof.
  intros airlines_csv number.
  assert (Htest : forall a : Airline,
            ((airline_id a =? number)%Z && (airline_active a =? "Y")%string) = true
            <-> airline_id a = number /\ airline_active a = "Y").
  { intros a. rewrite andb_true_iff, Z.eqb_eq, String.eqb_eq. reflexivity. }
  split; [|split].
  - intros iata icao. unfold find_airline.
    destruct (find _ airlines_csv) as [a|] eqn:F; simpl; [|discriminate].
    intros H. injection H as <- <-.
    destruct (find_first _ _ _ F) as (l1 & l2 & E & Ha & Hl1).
    apply Htest in Ha. destruct Ha as [Hid Hact].
    exists l1, a, l2. repeat split; try assumption.
    intros other Hother Hboth. apply Htest in Hboth.
    rewrite (Hl1 other Hother) in Hboth. discriminate.
  - unfold find_airline. split.
    + intros H airline Hin Hboth.
      destruct (find _ airlines_csv) as [a|] eqn:F; [discriminate|].
      apply Htest in Hboth. rewrite (find_none _ _ F airline Hin) in Hboth.
      discriminate.
    + intros H. destruct (find _ airlines_csv) as [a|] eqn:F; [|reflexivity].
      apply find_some in F. destruct F as [Hin Ha]. apply Htest in Ha.
      exfalso. exact (H a Hin Ha).
  - intros flight_details. unfold all_airlines. split; [apply length_map|].
    intros i detail Hi.
    exact (map_nth_error (fun d => find_airline airlines_csv (fst d)) _ _ Hi).
Qed.

Lemma randint_exact (n i : nat) :
  i < n -> randint 0 (Z.of_nat n - 1) i = Returned (Z.of_nat i).
Proof.
  intros Hi. unfold randint.
  destruct (Z.of_nat n - 1 <? 0)%Z eqn:E; [apply Z.ltb_lt in E; lia|].
  f_equal. rewrite Z.mod_small by lia. lia.
Qed.

(** What [randomize_airline_list] returns was read at one index of both
    lists, from a usable code. *)
Lemma randomize_airline_list_returned (draws : list nat)
  (lists : list (option (string * string))) (flight_details : list (Z * Z))
  (label : string) (stops : Z) :
  randomize_airline_list draws lists flight_details = Returned (label, stops) ->
  exists (i : nat) (iata icao : string) (airline : Z),
    nth_error lists i = Some (Some (iata, icao))
    /\ nth_error flight_details i = Some (airline, stops)
    /\ usable label = true
    /\ (label = iata \/ label = icao).
Proof.
  induction draws as [|raw later IH]; simpl; [discriminate|].
  destruct (randint 0 (Z.of_nat (List.length lists) - 1) raw) as [random| | |];
    simpl; try discriminate.
  destruct (nth_error lists (Z.to_nat random)) as [[[iata icao]|]|] eqn:Hl;
    try discriminate.
  destruct (usable iata) eqn:Hia.
  - destruct (stops_at flight_details random) as [s| | |] eqn:Hs;
      simpl; try discriminate.
    intros H. injection H as <- <-.
    destruct (stops_at_returned _ _ _ Hs) as [a Ha].
    exists (Z.to_nat random), iata, icao, a. auto.
  - destruct (usable icao) eqn:Hic; [|exact IH].
    destruct (stops_at flight_details random) as [s| | |] eqn:Hs;
      simpl; try discriminate.
    intros H. injection H as <- <-.
    destruct (stops_at_returned _ _ _ Hs) as [a Ha].
    exists (Z.to_nat random), iata, icao, a. auto.
Qed.

(** X15. The label [randomize_airline_list] returns is never the empty
    string and never the null marker of the tables. *)
Theorem randomize_airline_list_label_usable :
  forall (draws : list nat) (lists : list (option (string * string)))
         (flight_details : list (Z * Z)) (label : string) (stops : Z),
    randomize_airline_list draws lists flight_details = Returned (label, stops) ->
    label <> "" /\ label <> null_code.
Proof.
  intros draws lists flight_details label stops H.
  destruct (randomize_airline_list_returned _ _ _ _ _ H)
    as (i & iata & icao & a & _ & _ & Hu & _).
  unfold usable in Hu. apply andb_true_iff in Hu. destruct Hu as [Hlen Hnull].
  split.
  - intros ->. discriminate.
  - intros ->. rewrite String.eqb_refl in Hnull. discriminate.
Qed.

Lemma randomize_airline_list_label_usable_witness :
  "BAW" <> "" /\ "BAW" <> null_code.
Proof.
  apply (randomize_airline_list_label_usable [4]
           [Some ("", "BAW"); Some ("AF", "AFR")] [(7, 1); (9, 0)]%Z "BAW" 1%Z).
  reflexivity.
Defined.

(** X16. Every candidate with a usable code can be drawn: when the raw
    number is the index of a candidate, the call returns at once, with the
    IATA code of that candidate if it is usable, otherwise with its ICAO
    code if that one is usable, and with the stops recorded at the same
    index. *)
Theorem randomize_airline_list_reaches_every_candidate :
  forall (lists : list (option (string * string))) (flight_details : list (Z * Z))
         (i : nat) (later : list nat) (iata icao : string) (airline stops : Z),
    nth_error lists i = Some (Some (iata, icao)) ->
    nth_error flight_details i = Some (airline, stops) ->
    (usable iata = true ->
       randomize_airline_list (i :: later) lists flight_details
       = Returned (iata, stops))
    /\ (usable iata = false -> usable icao = true ->
          randomize_airline_list (i :: later) lists flight_details
          = Returned (icao, stops)).
Proof.
  intros lists flight_details i later iata icao airline stops Hl Hf.
  assert (Hi : i < List.length lists)
    by (apply nth_error_Some; rewrite Hl; discriminate).
  split.
  - intros Hia. simpl. rewrite (randint_exact _ _ Hi). simpl.
    rewrite Nat2Z.id, Hl, Hia. unfold stops_at. rewrite Nat2Z.id, Hf. reflexivity.
  - intros Hia Hic. simpl. rewrite (randint_exact _ _ Hi). simpl.
    rewrite Nat2Z.id, Hl, Hia, Hic. unfold stops_at. rewrite Nat2Z.id, Hf.
    reflexivity.
Qed.

Lemma randomize_airline_list_reaches_every_candidate_witness :
  (usable "" = true ->
     randomize_airline_list [1; 0] [Some ("AF", "AFR"); Some ("", "BAW")]
       [(9, 0); (7, 1)]%Z = Returned ("", 1%Z))
  /\ (usable "" = false -> usable "BAW" = true ->
        randomize_airline_list [1; 0] [Some ("AF", "AFR"); Some ("", "BAW")]
          [(9, 0); (7, 1)]%Z = Returned ("BAW", 1%Z)).
Proof.
  apply (randomize_airline_list_reaches_every_candidate
           [Some ("AF", "AFR"); Some ("", "BAW")] [(9, 0); (7, 1)]%Z 1 [0]
           "" "BAW" 7%Z 1%Z); reflexivity.
Defined.

(** X17. On the lists [write_routes] and [write_optimal_route] hand over,
    the airlines [all_airlines] finds for the flight details and the
    flight details themselves, [randomize_airline_list] never fails on an
    index: it is still drawing, or it has returned, or it has raised
    [TypeError] because some flight detail has no active airline, or it has
    raised [ValueError] because there is no flight detail at all. *)
Theorem randomize_airline_list_on_flight_details :
  forall (airlines_csv : list Airline) (flight_details : list (Z * Z))
         (draws : list nat),
    let o := randomize_airline_list draws
               (all_airlines airlines_csv flight_details) flight_details in
    o = Unfinished
    \/ (exists label stops, o = Returned (label, stops))
    \/ (o = Raised TypeError
        /\ exists detail, In detail flight_details
                          /\ find_airline airlines_csv (fst detail) = None)
    \/ (o = Raised ValueError /\ flight_details = []).
Proof.
  intros airlines_csv flight_details draws. cbv zeta.
  assert (Hlen : List.length (all_airlines airlines_csv flight_details)
                 = List.length flight_details) by apply length_map.
  induction draws as [|raw later IH]; [left; reflexivity|].
  simpl.
  destruct (randint 0
              (Z.of_nat (List.length (all_airlines airlines_csv flight_details)) - 1)
              raw) as [random|c|e|] eqn:Hr.
  - apply randint_in_range in Hr. rewrite Hlen in Hr. simpl.
    destruct (nth_error flight_details (Z.to_nat random)) as [detail|] eqn:Hd;
      [|apply nth_error_None in Hd; lia].
    rewrite (map_nth_error (fun d => find_airline airlines_csv (fst d)) _ _ Hd
             : nth_error (all_airlines airlines_csv flight_details) (Z.to_nat random)
               = Some (find_airline airlines_csv (fst detail))).
    destruct (find_airline airlines_csv (fst detail)) as [[iata icao]|] eqn:Hfa.
    + unfold stops_at. rewrite Hd.
      destruct (usable iata); [right; left; simpl; eauto|].
      destruct (usable icao); [right; left; simpl; eauto|]. exact IH.
    + right. right. left. split; [reflexivity|].
      exists detail. split; [exact (nth_error_In _ _ Hd) | exact Hfa].
  - unfold randint in Hr.
    destruct (Z.of_nat (List.length (all_airlines airlines_csv flight_details)) - 1
              <? 0)%Z; discriminate.
  - unfold randint in Hr.
    destruct (Z.of_nat (List.length (all_airlines airlines_csv flight_details)) - 1
              <? 0)%Z eqn:E; [|discriminate].
    injection Hr as <-. simpl. right. right. right. split; [reflexivity|].
    apply Z.ltb_lt in E. rewrite Hlen in E.
    destruct flight_details as [|d l]; [reflexivity|]. exfalso.
    change (List.length (d :: l)) with (S (List.length l)) in E. lia.
  - unfold randint in Hr.
    destruct (Z.of_nat (List.length (all_airlines airlines_csv flight_details)) - 1
              <? 0)%Z; discriminate.
Qed.

(** X18. When the lists have the same length, hold at least one candidate,
    and every candidate has a usable IATA or ICAO code, the first draw
    already returns: nothing is drawn a second time. *)
Theorem randomize_airline_list_first_draw :
  forall (lists : list (option (string * string))) (flight_details : list (Z * Z))
         (raw : nat) (later : list nat),
    lists <> [] ->
    List.length lists = List.length flight_details ->
    (forall c, In c lists ->
       exists iata icao, c = Some (iata, icao)
                         /\ (usable iata = true \/ usable icao = true)) ->
    exists label stops,
      randomize_airline_list (raw :: later) lists flight_details
      = Returned (label, stops).
Proof.
  intros lists flight_details raw later Hne Hlen Hall. simpl.
  destruct (randint_nonempty (List.length lists) raw) as [random Hr].
  { destruct lists; [congruence | discriminate]. }
  rewrite Hr. simpl. apply randint_in_range in Hr.
  destruct (nth_error lists (Z.to_nat random)) as [c|] eqn:Hc;
    [|apply nth_error_None in Hc; lia].
  destruct (Hall c (nth_error_In _ _ Hc)) as (iata & icao & -> & Hu).
  assert (Hs : exists detail, nth_error flight_details (Z.to_nat random) = Some detail).
  { destruct (nth_error flight_details (Z.to_nat random)) as [d|] eqn:Hd;
      [eauto | apply nth_error_None in Hd; lia]. }
  destruct Hs as [detail Hd]. unfold stops_at. rewrite Hd.
  destruct (usable iata); [simpl; eauto|].
  destruct Hu as [Hu|Hu]; [discriminate|]. rewrite Hu. simpl. eauto.
Qed.

Lemma randomize_airline_list_first_draw_witness :
  exists label stops,
    randomize_airline_list (5 :: []) [Some ("AF", "AFR"); Some ("", "BAW")]
      [(9, 0); (7, 1)]%Z = Returned (label, stops).
Proof.
  apply randomize_airline_list_first_draw.
  - discriminate.
  - reflexivity.
  - intros c [<-|[<-|[]]]; eexists; eexists; (split; [reflexivity|]);
      [left | right]; reflexivity.
Defined.

(** ** From places to codes, from codes to positions *)

Lemma find_location_code_returned (airports_csv : list AirportPlace)
  (location country code : string) :
  find_location_code airports_csv location country = Returned code ->
  code <> null_code
  /\ exists airport, In airport airports_csv
       /\ place_city airport = location /\ place_country airport = country
       /\ airport_code (place_airport airport) = code.
Proof.
  unfold find_location_code.
  destruct (find _ _) as [c|] eqn:F; [|discriminate].
  intros H. injection H as <-. apply find_some in F. destruct F as [Hin Hc].
  split.
  - intros E. rewrite E, String.eqb_refl in Hc. discriminate.
  - apply in_map_iff in Hin. destruct Hin as (a & <- & Ha).
    apply filter_In in Ha. destruct Ha as [Ha Hb].
    apply andb_true_iff in Hb. destruct Hb as [Hcity Hcountry].
    apply String.eqb_eq in Hcity. apply String.eqb_eq in Hcountry.
    exists a. auto.
Qed.

(** X19. [find_location_code] either returns or leaves with exit status 2.
    A code it returns is not the null marker and is the code of an airport
    of the asked city and country; it leaves exactly when every airport of
    that city and country, if there is any, carries the null marker. *)
Theorem find_location_code_real_code :
  forall (airports_csv : list AirportPlace) (location country : string),
    (exists code,
       find_location_code airports_csv location country = Returned code
       /\ code <> null_code
       /\ exists airport, In airport airports_csv
            /\ place_city airport = location /\ place_country airport = country
            /\ airport_code (place_airport airport) = code)
    \/ (find_location_code airports_csv location country = Exited 2
        /\ forall airport, In airport airports_csv ->
             place_city airport = location -> place_country airport = country ->
             airport_code (place_airport airport) = null_code).
Proof.
  intros airports_csv location country.
  destruct (find_location_code airports_csv location country) as [code|c|e|] eqn:E.
  - left. exists code. split; [reflexivity|].
    exact (find_location_code_returned _ _ _ _ E).
  - right. unfold find_location_code in E.
    destruct (find _ _) as [c'|] eqn:F; [discriminate|].
    injection E as <-. split; [reflexivity|].
    intros airport Hin Hcity Hcountry.
    assert (Hcode : In (airport_code (place_airport airport))
                      (map (fun a => airport_code (place_airport a))
                         (filter (fun a => (place_city a =? location)%string
                                           && (place_country a =? country)%string)
                            airports_csv))).
    { apply (in_map (fun a => airport_code (place_airport a))).
      apply filter_In. split; [exact Hin|].
      apply andb_true_iff. split; apply String.eqb_eq; assumption. }
    apply (find_none _ _ F) in Hcode.
    apply negb_false_iff, String.eqb_eq in Hcode. exact Hcode.
  - unfold find_location_code in E. destruct (find _ _); discriminate.
  - unfold find_location_code in E. destruct (find _ _); discriminate.
Qed.

(** X20. A code [find_location_code] returns is known to
    [find_location]: the airports table has a position for it. *)
Theorem find_location_code_has_position :
  forall (airports_csv : list AirportPlace) (location country code : string),
    find_location_code airports_csv location country = Returned code ->
    exists position,
      find_location (map place_airport airports_csv) code = Some position.
Proof.
  intros airports_csv location country code H.
  destruct (find_location_code_returned _ _ _ _ H) as (_ & a & Hin & _ & _ & Hcode).
  unfold find_location.
  destruct (find (fun airport => (airport_code airport =? code)%string)
              (map place_airport airports_csv)) as [found|] eqn:F.
  - eexists. reflexivity.
  - exfalso.
    assert (Ha : In (place_airport a) (map place_airport airports_csv))
      by (apply in_map, Hin).
    apply (find_none _ _ F) in Ha. rewrite Hcode, String.eqb_refl in Ha.
    discriminate.
Qed.

Lemma find_location_code_has_position_witness :
  exists position,
    find_location
      (map place_airport
         [mkAirportPlace "Accra" "Ghana" (mkAirport null_code 5 0);
          mkAirportPlace "Accra" "Ghana" (mkAirport "ACC" 5 0)]) "ACC"
    = Some position.
Proof.
  apply (find_location_code_has_position
           [mkAirportPlace "Accra" "Ghana" (mkAirport null_code 5 0);
            mkAirportPlace "Accra" "Ghana" (mkAirport "ACC" 5 0)]
           "Accra" "Ghana" "ACC").
  reflexivity.
Defined.

Lemma located_some (positions : list Position) (tuples : list Coordinate) :
  located positions = Some tuples <-> positions = map Some tuples.
Proof.
  split.
  - revert tuples. induction positions as [|[c|] rest IH]; intros tuples H;
      simpl in H; try discriminate.
    + injection H as <-. reflexivity.
    + destruct (located rest) as [cs|]; [|discriminate].
      injection H as <-. simpl. rewrite (IH cs eq_refl). reflexivity.
  - intros ->. apply located_all.
Qed.

Lemma located_none (positions : list Position) :
  located positions = None <-> In None positions.
Proof.
  induction positions as [|[c|] rest IH]; simpl.
  - split; [discriminate | intros []].
  - destruct (located rest) as [cs|].
    + split; [discriminate|]. intros [H|H]; [discriminate|].
      apply IH in H. discriminate.
    + split; [intros _; right; apply IH; reflexivity | reflexivity].
  - split; [intros _; left; reflexivity | reflexivity].
Qed.

(** The selection, read on the candidates as pairs: what is kept is the
    incumbent or a candidate all of whose positions are known, and nothing
    that could have been kept is shorter. *)
Lemma best_of_selects (candidates : list (list Position * list string)) :
  forall (optimal_route : OptimalRoute),
    (best_of candidates optimal_route = None <->
     optimal_route = None
     /\ forall c, In c candidates -> located (fst c) = None)
    /\ forall p d,
         best_of candidates optimal_route = Some (p, d) ->
         (optimal_route = Some (p, d)
          \/ exists positions tuples,
               In (positions, p) candidates
               /\ located positions = Some tuples
               /\ d = calculate_total_distance tuples)
         /\ (forall p0 d0, optimal_route = Some (p0, d0) -> (d <= d0)%R)
         /\ (forall positions q tuples,
               In (positions, q) candidates ->
               located positions = Some tuples ->
               (d <= calculate_total_distance tuples)%R).
Proof.
  induction candidates as [|[positions path] rest IH]; intros acc.
  - simpl. split.
    + split; [intros ->; split; [reflexivity | intros c []] | intros [-> _]; reflexivity].
    + intros p d ->. split; [left; reflexivity|]. split.
      * intros p0 d0 H. injection H as _ <-. lra.
      * intros ps q ts [].
  - simpl best_of.
    destruct (located positions) as [tuples|] eqn:L.
    + assert (Hcase : exists acc',
                (match acc with
                 | None => best_of rest (Some (path, calculate_total_distance tuples))
                 | Some (_, best) =>
                     if Rgt_dec best (calculate_total_distance tuples)
                     then best_of rest (Some (path, calculate_total_distance tuples))
                     else best_of rest acc
                 end) = best_of rest (Some acc')
                /\ (snd acc' <= calculate_total_distance tuples)%R
                /\ (forall p0 d0, acc = Some (p0, d0) -> (snd acc' <= d0)%R)
                /\ (acc = Some acc'
                    \/ acc' = (path, calculate_total_distance tuples))).
      { destruct acc as [[p0 d0]|].
        - destruct (Rgt_dec d0 (calculate_total_distance tuples)) as [Hgt|Hle].
          + exists (path, calculate_total_distance tuples). simpl.
            split; [reflexivity|]. split; [lra|]. split; [|right; reflexivity].
            intros p1 d1 H. injection H as _ <-. lra.
          + exists (p0, d0). simpl. split; [reflexivity|]. split; [lra|].
            split; [|left; reflexivity].
            intros p1 d1 H. injection H as _ <-. lra.
        - exists (path, calculate_total_distance tuples). simpl.
          split; [reflexivity|]. split; [lra|]. split; [|right; reflexivity].
          intros p1 d1 H. discriminate. }
      destruct Hcase as ([pa da] & -> & Hda & Hacc & Horigin). simpl in Hda, Hacc.
      destruct (IH (Some (pa, da))) as [Hnone Hsome].
      split.
      * split.
        -- intros H. apply Hnone in H. destruct H as [H _]. discriminate.
        -- intros [_ H]. specialize (H (positions, path) (or_introl eq_refl)).
           simpl in H. congruence.
      * intros p d Hbest. destruct (Hsome p d Hbest) as (Hwho & Hle & Hall).
        specialize (Hle pa da eq_refl).
        split; [|split].
        -- destruct Hwho as [Hwho|(ps & ts & Hin & Hl & Hd)].
           ++ injection Hwho as <- <-.
              destruct Horigin as [->|Ho]; [left; reflexivity|].
              injection Ho as -> ->. right. exists positions, tuples.
              split; [left; reflexivity | auto].
           ++ right. exists ps, ts. split; [right; exact Hin | auto].
        -- intros p0 d0 H. specialize (Hacc p0 d0 H). lra.
        -- intros ps q ts [Heq|Hin] Hl.
           ++ injection Heq as <- <-. rewrite L in Hl. injection Hl as <-. lra.
           ++ exact (Hall ps q ts Hin Hl).
    + destruct (IH acc) as [Hnone Hsome]. split.
      * rewrite Hnone. split.
        -- intros [-> H]. split; [reflexivity|].
           intros c [<-|Hc]; [exact L | apply H, Hc].
        -- intros [-> H]. split; [reflexivity|].
           intros c Hc. apply H. right. exact Hc.
      * intros p d Hbest. destruct (Hsome p d Hbest) as (Hwho & Hle & Hall).
        split; [|split].
        -- destruct Hwho as [Hwho|(ps & ts & Hin & Hl & Hd)]; [left; exact Hwho|].
           right. exists ps, ts. split; [right; exact Hin | auto].
        -- exact Hle.
        -- intros ps q ts [Heq|Hin] Hl.
           ++ injection Heq as <- <-. congruence.
           ++ exact (Hall ps q ts Hin Hl).
Qed.

Lemma combine_map_self {A B : Type} (f : A -> B) (l : list A) :
  combine (map f l) l = map (fun x => (f x, x)) l.
Proof.
  induction l as [|a l IH]; simpl; [reflexivity|]. rewrite IH. reflexivity.
Qed.

(** The selection among paths whose positions [find_path_location] has
    looked up. *)
Lemma find_optimal_route_of_paths (airports_csv : list Airport)
  (path_lists : list (list string)) :
  exists optimal_route,
    find_optimal_route (find_path_location airports_csv path_lists) path_lists
      = Returned optimal_route
    /\ (optimal_route = None <->
        forall path, In path path_lists ->
          exists code, In code path /\ find_location airports_csv code = None)
    /\ forall path distance,
         optimal_route = Some (path, distance) ->
         In path path_lists
         /\ (exists tuples,
               map (find_location airports_csv) path = map Some tuples
               /\ distance = calculate_total_distance tuples)
         /\ forall other tuples,
              In other path_lists ->
              map (find_location airports_csv) other = map Some tuples ->
              (distance <= calculate_total_distance tuples)%R.
Proof.
  exists (best_of (combine (find_path_location airports_csv path_lists) path_lists)
            None).
  split.
  { apply find_optimal_route_best_of. unfold find_path_location. apply length_map. }
  unfold find_path_location. rewrite combine_map_self.
  destruct (best_of_selects
              (map (fun path => (map (find_location airports_csv) path, path))
                 path_lists) None) as [Hnone Hsome].
  split.
  - rewrite Hnone. split.
    + intros [_ H] path Hpath.
      specialize (H (map (find_location airports_csv) path, path)).
      simpl in H.
      assert (Hl : located (map (find_location airports_csv) path) = None).
      { apply H, in_map_iff. exists path. auto. }
      apply located_none, in_map_iff in Hl. destruct Hl as (code & Hc & Hin).
      exists code. auto.
    + intros H. split; [reflexivity|]. intros c Hc.
      apply in_map_iff in Hc. destruct Hc as (path & <- & Hpath). simpl.
      destruct (H path Hpath) as (code & Hin & Hc).
      apply located_none, in_map_iff. exists code. auto.
  - intros path distance Hbest.
    destruct (Hsome path distance Hbest) as (Hwho & _ & Hall).
    destruct Hwho as [Hwho|(ps & ts & Hin & Hl & Hd)]; [discriminate|].
    apply in_map_iff in Hin. destruct Hin as (path' & Heq & Hpath).
    injection Heq as <- ->.
    split; [exact Hpath|]. split.
    + exists ts. split; [apply located_some, Hl | exact Hd].
    + intros other tuples Hother Hloc.
      apply (Hall (map (find_location airports_csv) other) other tuples).
      * apply in_map_iff. exists other. auto.
      * apply located_some, Hloc.
Qed.


Lemma bind_returned {A B : Type} (m : Outcome A) (k : A -> Outcome B) (b : B) :
  bind m k = Returned b -> exists a, m = Returned a /\ k a = Returned b.
Proof. destruct m as [a| | |]; simpl; try discriminate. eauto. Qed.

(** X22. When the part of [main] from the two places to the selection
    returns a path with its distance, the two places have codes, the path
    is a route of [routes.csv] from the code of the first place to the
    code of the second, a shortest one when the two codes differ, every
    code on it has an airport, and the distance is the total distance
    along the positions of its codes. *)
Theorem main_selects_a_shortest_route :
  forall (airports_csv : list AirportPlace) (routes_csv : list Route)
         (budget : nat) (start destination : string * string)
         (path : list string) (distance : R),
    main_optimal_route airports_csv routes_csv budget start destination
      = Returned (Some (path, distance)) ->
    exists start_code destination_code,
      find_location_code airports_csv (fst start) (snd start) = Returned start_code
      /\ find_location_code airports_csv (fst destination) (snd destination)
         = Returned destination_code
      /\ connects routes_csv start_code destination_code path
      /\ (start_code <> destination_code ->
          shortest_route routes_csv start_code destination_code path)
      /\ exists tuples,
           map (find_location (map place_airport airports_csv)) path
             = map Some tuples
           /\ distance = calculate_total_distance tuples.
Proof.
  intros airports_csv routes_csv budget start destination path distance H.
  unfold main_optimal_route in H.
  apply bind_returned in H. destruct H as (start_code & Hs & H).
  apply bind_returned in H. destruct H as (destination_code & Hd & H).
  apply bind_returned in H. destruct H as (all_routes & Hall & H).
  exists start_code, destination_code.
  split; [exact Hs|]. split; [exact Hd|].
  destruct (find_optimal_route_of_paths (map place_airport airports_csv) all_routes)
    as (optimal_route & Hopt & _ & Hsome).
  rewrite Hopt in H. injection H as ->.
  destruct (Hsome path distance eq_refl) as (Hin & Htuples & _).
  split; [|split; [|exact Htuples]].
  - destruct (all_possible_routes_routes routes_csv start_code destination_code budget)
      as [Hun|(res & Hres & _ & Hroutes)]; [congruence|].
    rewrite Hall in Hres. injection Hres as <-.
    rewrite Forall_forall in Hroutes. apply Hroutes, Hin.
  - intros Hne.
    destruct (all_possible_routes_shortest _ _ _ _ _ Hne Hall) as [_ Hshort].
    rewrite Forall_forall in Hshort. apply Hshort, Hin.
Qed.

Lemma main_selects_a_shortest_route_witness :
  exists start_code destination_code,
    find_location_code
      [mkAirportPlace "Accra" "Ghana" (mkAirport "ACC" 0 0);
       mkAirportPlace "Lagos" "Nigeria" (mkAirport "LOS" 0 0)]
      (fst ("Accra", "Ghana")) (snd ("Accra", "Ghana")) = Returned start_code
    /\ find_location_code
         [mkAirportPlace "Accra" "Ghana" (mkAirport "ACC" 0 0);
          mkAirportPlace "Lagos" "Nigeria" (mkAirport "LOS" 0 0)]
         (fst ("Lagos", "Nigeria")) (snd ("Lagos", "Nigeria"))
       = Returned destination_code
    /\ connects [mkRoute 24 "ACC" "LOS" 0] start_code destination_code
         ["ACC"; "LOS"]
    /\ (start_code <> destination_code ->
        shortest_route [mkRoute 24 "ACC" "LOS" 0] start_code destination_code
          ["ACC"; "LOS"])
    /\ exists tuples,
         map (find_location
                (map place_airport
                   [mkAirportPlace "Accra" "Ghana" (mkAirport "ACC" 0 0);
                    mkAirportPlace "Lagos" "Nigeria" (mkAirport "LOS" 0 0)]))
           ["ACC"; "LOS"] = map Some tuples
         /\ calculate_total_distance [(0, 0)%R; (0, 0)%R]
            = calculate_total_distance tuples.
Proof.
  apply (main_selects_a_shortest_route
           [mkAirportPlace "Accra" "Ghana" (mkAirport "ACC" 0 0);
            mkAirportPlace "Lagos" "Nigeria" (mkAirport "LOS" 0 0)]
           [mkRoute 24 "ACC" "LOS" 0] 1 ("Accra", "Ghana") ("Lagos", "Nigeria")
           ["ACC"; "LOS"] (calculate_total_distance [(0, 0)%R; (0, 0)%R])).
  reflexivity.
Defined.
